(** * tag_dupes: duplicate grouping, keeper selection, format classification
      and the prune loop of the Audiobookshelf duplicate tagger.

    A shallow embedding of [tag_dupes.py].  Python strings are lists of code
    points, dictionaries used as records are records with optional fields
    ([None] stands for an absent key or a [null] value), dictionaries used as
    maps are association lists in insertion order, and the calls that leave
    the process (file moves and deletes, HTTP requests, console input) are
    threaded through an explicit run state. *)

From Stdlib Require Import String Ascii.
From Stdlib Require Import List NArith ZArith Bool Lia Permutation Sorted.
Import ListNotations.
Local Open Scope list_scope.

Set Implicit Arguments.

(* ================================================================== *)
(** ** Python strings *)

(** A [str] is a sequence of Unicode code points. *)
Definition pystr := list N.

Definition lit (s : string) : pystr :=
  map N_of_ascii (list_ascii_of_string s).
Arguments lit s%_string.

Definition pystr_eq_dec : forall a b : pystr, {a = b} + {a <> b} :=
  list_eq_dec N.eq_dec.

Definition str_eqb (a b : pystr) : bool :=
  if pystr_eq_dec a b then true else false.

(** Truth value of a string: the empty string is false. *)
Definition truthy (s : pystr) : bool :=
  match s with [] => false | _ :: _ => true end.

(** [x or ""] for an optional string field. *)
Definition or_empty (o : option pystr) : pystr :=
  match o with Some s => s | None => [] end.

(** [a or b] on optional strings: the first operand that is present and
    non-empty, else the second. *)
Definition or_else (a b : option pystr) : option pystr :=
  match a with
  | Some s => if truthy s then a else b
  | None => b
  end.

(** [sep.join(words)] *)
Fixpoint join (sep : pystr) (ws : list pystr) : pystr :=
  match ws with
  | [] => []
  | [w] => w
  | w :: ws' => w ++ sep ++ join sep ws'
  end.

(** [s.startswith(p)] *)
Fixpoint startswith (p s : pystr) : bool :=
  match p, s with
  | [], _ => true
  | _ :: _, [] => false
  | a :: p', b :: s' => N.eqb a b && startswith p' s'
  end.

(** [p in s] for strings: substring test. *)
Fixpoint contains (p s : pystr) : bool :=
  startswith p s ||
  match s with
  | [] => false
  | _ :: s' => contains p s'
  end.

(** [s.lstrip(chars)] *)
Fixpoint lstrip_chars (chars : pystr) (s : pystr) : pystr :=
  match s with
  | [] => []
  | c :: s' => if existsb (N.eqb c) chars then lstrip_chars chars s' else s
  end.

(** [s.split(c, 1)] for a one-character separator: at most one cut, at the
    first occurrence. *)
Fixpoint split1 (c : N) (s : pystr) : list pystr :=
  match s with
  | [] => [[]]
  | d :: s' =>
      if N.eqb d c then [[]; s']
      else match split1 c s' with
           | w :: rest => (d :: w) :: rest
           | [] => [[d]]
           end
  end.

(** The last element of [s.rsplit(c, 1)]: what follows the last occurrence of
    [c], or the whole string when [c] does not occur. *)
Fixpoint rsplit1_last (c : N) (s : pystr) : pystr :=
  match s with
  | [] => []
  | d :: s' =>
      if existsb (N.eqb c) s' then rsplit1_last c s'
      else if N.eqb d c then s' else s
  end.

(** Code points below 128 survive [encode("ascii", "ignore")]. *)
Definition is_ascii (c : N) : bool := N.ltb c 128.

Definition ascii_ignore (s : pystr) : pystr := filter is_ascii s.

Definition all_ascii (s : pystr) : Prop := Forall (fun c => is_ascii c = true) s.

(** ASCII white space as [str.split()] and [str.strip()] see it:
    TAB, LF, VT, FF, CR, FS, GS, RS, US and SPACE. *)
Definition ascii_isspace (c : N) : bool :=
  (N.leb 9 c && N.leb c 13) || (N.leb 28 c && N.leb c 32).

Definition ascii_lower_cp (c : N) : N :=
  if N.leb 65 c && N.leb c 90 then (c + 32)%N else c.

(** ** The Unicode character database

    [str.split], [str.strip], [str.lower] and [unicodedata.normalize] belong
    to the Python runtime; the program is embedded over an arbitrary
    database. *)
Record UnicodeDB : Type := {
  isspace : N -> bool;            (* white space of str.split() / str.strip() *)
  lower : pystr -> pystr;         (* str.lower() *)
  nfkd : pystr -> pystr           (* unicodedata.normalize("NFKD", _) *)
}.

(** What the embedding relies on: on ASCII text the database is the ASCII
    one, and ASCII text has no decomposition. *)
Class UnicodeLaws (U : UnicodeDB) : Prop := {
  isspace_ascii : forall c, is_ascii c = true -> isspace U c = ascii_isspace c;
  lower_ascii : forall s, all_ascii s -> lower U s = map ascii_lower_cp s;
  nfkd_ascii : forall s, all_ascii s -> nfkd U s = s
}.

Section Strings.

Variable U : UnicodeDB.

(** [s.split()]: the maximal runs of non-white-space characters. *)
Fixpoint split_ws (s : pystr) : list pystr :=
  match s with
  | [] => []
  | c :: s' =>
      if isspace U c then split_ws s'
      else match s' with
           | [] => [[c]]
           | d :: _ =>
               if isspace U d then [c] :: split_ws s'
               else match split_ws s' with
                    | w :: ws => (c :: w) :: ws
                    | [] => [[c]]
                    end
           end
  end.

(** [" ".join(s.split())] *)
Definition collapse_ws (s : pystr) : pystr := join (lit " ") (split_ws s).

(** [bool(s.strip())]: some character is not white space. *)
Definition strip_truthy (s : pystr) : bool := existsb (fun c => negb (isspace U c)) s.

(** [s.strip()] *)
Fixpoint lstrip_ws (s : pystr) : pystr :=
  match s with
  | [] => []
  | c :: s' => if isspace U c then lstrip_ws s' else s
  end.

Definition strip_ws (s : pystr) : pystr := rev (lstrip_ws (rev (lstrip_ws s))).

(** [norm(s, case_sensitive)] *)
Definition norm (s : option pystr) (case_sensitive : bool) : pystr :=
  match s with
  | None => []
  | Some s =>
      let s := collapse_ws s in
      let s := if negb case_sensitive then lower U s else s in
      ascii_ignore (nfkd U s)
  end.

End Strings.

(** ** A fragment of the Unicode database

    The ASCII range, the Latin-1 letters and the compatibility decompositions
    of a few code points, as UnicodeData.txt lists them; every other code
    point is left alone.  It instantiates the laws and is what the concrete
    runs below are evaluated with. *)
Module Fragment.

Definition isspace_cp (c : N) : bool :=
  if is_ascii c then ascii_isspace c
  else existsb (N.eqb c)
         [0x85; 0xA0; 0x1680; 0x2028; 0x2029; 0x202F; 0x205F; 0x3000]%N
       || (N.leb 0x2000 c && N.leb c 0x200A)%N.

Definition lower_cp (c : N) : N :=
  if is_ascii c then ascii_lower_cp c
  else if (N.leb 0xC0 c && N.leb c 0xDE && negb (N.eqb c 0xD7))%N then (c + 32)%N
  else c.

(** Full compatibility decomposition of one code point. *)
Definition decomp_cp (c : N) : pystr :=
  (if is_ascii c then [c]
   else if c =? 0xA0 then [0x20]                  (* NO-BREAK SPACE *)
   else if c =? 0xA8 then [0x20; 0x308]           (* DIAERESIS *)
   else if c =? 0xB4 then [0x20; 0x301]           (* ACUTE ACCENT *)
   else if c =? 0xC9 then [0x45; 0x301]           (* E WITH ACUTE *)
   else if c =? 0xE9 then [0x65; 0x301]           (* e WITH ACUTE *)
   else if c =? 0x2122 then [0x54; 0x4D]          (* TRADE MARK SIGN *)
   else [c])%N.

Definition db : UnicodeDB := {|
  isspace := isspace_cp;
  lower := map lower_cp;
  nfkd := fun s => flat_map decomp_cp s
|}.

End Fragment.

(* ================================================================== *)
(** ** Catalog records

    The JSON objects of the Audiobookshelf API, with the fields the program
    reads.  A field is [None] when the key is absent or its value is [null]:
    the program reads every optional field with [.get], which does not tell
    the two apart. *)

Record FileMetadata : Type := {
  md_ext : option pystr;
  md_path : option pystr;
  md_relPath : option pystr
}.

Record LibraryFile : Type := {
  lf_fileType : option pystr;
  lf_metadata : option FileMetadata;
  lf_mimeType : option pystr;
  lf_path : option pystr;
  lf_relPath : option pystr
}.

Record Track : Type := {
  tr_mimeType : option pystr;
  tr_title : option pystr
}.

Record Metadata : Type := {
  md_title : option pystr;
  md_titleIgnorePrefix : option pystr;
  md_authorName : option pystr;
  md_seriesName : option pystr
}.

Record Media : Type := {
  media_metadata : option Metadata;
  media_tags : option (list pystr);
  media_addedAt : option Z;
  media_tracks : option (list Track)
}.

Record Item : Type := {
  it_id : pystr;
  it_path : option pystr;
  it_addedAt : option Z;
  it_media : option Media;
  it_tags : option (list pystr);
  it_libraryFiles : option (list LibraryFile)
}.

(** The empty dictionary [{}] read as each kind of record. *)
Definition empty_file_metadata : FileMetadata :=
  {| md_ext := None; md_path := None; md_relPath := None |}.

Definition empty_metadata : Metadata :=
  {| md_title := None; md_titleIgnorePrefix := None;
     md_authorName := None; md_seriesName := None |}.

Definition empty_media : Media :=
  {| media_metadata := None; media_tags := None;
     media_addedAt := None; media_tracks := None |}.

(** [x or d] for an optional record or list. *)
Definition or_default (A : Type) (o : option A) (d : A) : A :=
  match o with Some a => a | None => d end.

(** [x or d] for an optional integer: [0] is false. *)
Definition or_int (o : option Z) (d : Z) : Z :=
  match o with
  | Some z => if Z.eqb z 0 then d else z
  | None => d
  end.

(** [(it.get("media") or {})] *)
Definition item_media (it : Item) : Media := or_default (it_media it) empty_media.

(** [item_meta(it)] *)
Definition item_meta (it : Item) : Metadata :=
  or_default (media_metadata (item_media it)) empty_metadata.

(** [item_title(it)] *)
Definition item_title (it : Item) : pystr := or_empty (md_title (item_meta it)).

(** [current_tags(it)] *)
Definition current_tags (it : Item) : list pystr :=
  or_default
    (match media_tags (item_media it) with
     | Some t => Some t
     | None => it_tags it
     end) [].

(** [item_added_at(it)] *)
Definition item_added_at (it : Item) : Z :=
  or_int (it_addedAt it) (or_int (media_addedAt (item_media it)) 0).

(* ================================================================== *)
(** ** Sorting

    [sorted(xs, key=k)] is a stable sort; it is embedded as the stable
    insertion sort on keys compared with [leb]. *)

Section Sorting.

Variable A : Type.
Variable leb : A -> A -> bool.

Fixpoint insert_sorted (x : A) (l : list A) : list A :=
  match l with
  | [] => [x]
  | y :: l' => if leb x y then x :: l else y :: insert_sorted x l'
  end.

Fixpoint sorted (l : list A) : list A :=
  match l with
  | [] => []
  | x :: l' => insert_sorted x (sorted l')
  end.

End Sorting.

(** [choose_keeper(items)]: [None] is the [IndexError] of [[0]] on an empty
    list. *)
Definition keeper_leb (a b : Item) : bool := Z.leb (item_added_at a) (item_added_at b).

Definition choose_keeper (items : list Item) : option Item :=
  nth_error (sorted keeper_leb items) 0.

(* ================================================================== *)
(** ** Grouping keys *)

Section Keys.

Variable U : UnicodeDB.

(** [title_for_group(it, use_ignore_prefix, case_sensitive)] *)
Definition title_for_group (it : Item) (use_ignore_prefix case_sensitive : bool) : pystr :=
  let md := item_meta it in
  let t :=
    if use_ignore_prefix && truthy (or_empty (md_titleIgnorePrefix md))
    then md_titleIgnorePrefix md
    else Some (or_empty (md_title md)) in
  norm U t case_sensitive.

(** [author_for_group(it, case_sensitive)] *)
Definition author_for_group (it : Item) (case_sensitive : bool) : pystr :=
  norm U (Some (or_empty (md_authorName (item_meta it)))) case_sensitive.

(** [series_for_group(it, case_sensitive)] *)
Definition series_for_group (it : Item) (case_sensitive : bool) : pystr :=
  norm U (Some (or_empty (md_seriesName (item_meta it)))) case_sensitive.

(** [make_key(it, by, use_ignore_prefix, case_sensitive)] *)
Definition make_key (it : Item) (by_ : pystr) (use_ignore_prefix case_sensitive : bool)
  : pystr :=
  let t := title_for_group it use_ignore_prefix case_sensitive in
  if str_eqb by_ (lit "title") then t
  else if str_eqb by_ (lit "title+author")
  then t ++ lit "||" ++ author_for_group it case_sensitive
  else if str_eqb by_ (lit "title+series")
  then t ++ lit "||" ++ series_for_group it case_sensitive
  else t.

(** *** The grouping loop of [main]

    [groups] is a [defaultdict(list)]: an association list in insertion
    order. *)
Fixpoint groups_append (key : pystr) (it : Item) (groups : list (pystr * list Item))
  : list (pystr * list Item) :=
  match groups with
  | [] => [(key, [it])]
  | (k, g) :: rest =>
      if str_eqb key k then (k, g ++ [it]) :: rest
      else (k, g) :: groups_append key it rest
  end.

Definition build_groups (by_ : pystr) (use_ignore_prefix case_sensitive : bool)
  (items : list Item) : list (pystr * list Item) :=
  fold_left
    (fun groups it =>
       let key := make_key it by_ use_ignore_prefix case_sensitive in
       if truthy key then groups_append key it groups else groups)
    items [].

(** The groups that get past [if len(group) <= 1: continue]. *)
Definition duplicate_groups (by_ : pystr) (use_ignore_prefix case_sensitive : bool)
  (items : list Item) : list (pystr * list Item) :=
  filter (fun kg => negb (Nat.leb (length (snd kg)) 1))
         (build_groups by_ use_ignore_prefix case_sensitive items).

End Keys.

(* ================================================================== *)
(** ** Format classification *)

(** [Counter(xs)]: counts per element, keys in order of first insertion. *)
Fixpoint counter_add (x : pystr) (c : list (pystr * nat)) : list (pystr * nat) :=
  match c with
  | [] => [(x, 1)]
  | (y, n) :: c' =>
      if str_eqb x y then (y, S n) :: c' else (y, n) :: counter_add x c'
  end.

Definition Counter (xs : list pystr) : list (pystr * nat) :=
  fold_left (fun c x => counter_add x c) xs [].

(** [max(entries, key=itemgetter(1))]: the running best is replaced only by a
    strictly larger count. *)
Fixpoint max_first (best : pystr * nat) (c : list (pystr * nat)) : pystr * nat :=
  match c with
  | [] => best
  | e :: c' => if Nat.ltb (snd best) (snd e) then max_first e c' else max_first best c'
  end.

(** [cnt.most_common(1)], which is [heapq.nlargest(1, cnt.items(), key=count)]. *)
Definition most_common1 (c : list (pystr * nat)) : list (pystr * nat) :=
  match c with
  | [] => []
  | e :: c' => [max_first e c']
  end.

(** Running a loop body that may raise over a list, appending what each
    iteration yields. *)
Fixpoint collect (A : Type) (f : A -> option (list pystr)) (l : list A)
  : option (list pystr) :=
  match l with
  | [] => Some []
  | x :: l' =>
      match f x with
      | None => None
      | Some t =>
          match collect f l' with
          | None => None
          | Some r => Some (t ++ r)
          end
      end
  end.

(** The [seen]/[out] loop of [item_formats]. *)
Fixpoint dedup_loop (l : list pystr) (seen out : list pystr) : list pystr :=
  match l with
  | [] => out
  | f :: l' =>
      if existsb (str_eqb f) seen then dedup_loop l' seen out
      else dedup_loop l' (f :: seen) (out ++ [f])
  end.

(** The [normed] loop: [mp4] is counted as [m4a]. *)
Definition norm_format (f : pystr) : pystr :=
  if str_eqb f (lit "m4a") || str_eqb f (lit "mp4") then lit "m4a" else f.

Section Formats.

Variable U : UnicodeDB.

(** [mt.split("/", 1)[1]]; [None] is an [IndexError]. *)
Definition mime_subtype (mt : pystr) : option pystr :=
  nth_error (split1 47 mt) 1.

(** What [if "audio/" in mt: fmts.append(mt.split("/",1)[1])] appends. *)
Definition mime_tokens (mt : pystr) : option (list pystr) :=
  if contains (lit "audio/") mt
  then match mime_subtype mt with
       | Some t => Some [t]
       | None => None
       end
  else Some [].

(** What [if "." in p: fmts.append(p.lower().rsplit(".",1)[-1])] appends. *)
Definition dot_tokens (p : pystr) : list pystr :=
  if contains (lit ".") p then [rsplit1_last 46 (lower U p)] else [].

(** One iteration of the loop over [libraryFiles]. *)
Definition file_tokens (lf : LibraryFile) : option (list pystr) :=
  if negb (str_eqb (lower U (or_empty (lf_fileType lf))) (lit "audio")) then Some []
  else
    let md := or_default (lf_metadata lf) empty_file_metadata in
    let ext := lstrip_chars (lit ".") (lower U (or_empty (md_ext md))) in
    let mt := lower U (or_empty (lf_mimeType lf)) in
    match mime_tokens mt with
    | None => None
    | Some mts =>
        Some ((if truthy ext then [ext] else [])
              ++ mts
              ++ dot_tokens (or_empty (or_else (lf_path lf) (md_path md)))
              ++ dot_tokens (or_empty (or_else (lf_relPath lf) (md_relPath md))))
    end.

(** One iteration of the fallback loop over [media.tracks]. *)
Definition track_tokens (tr : Track) : option (list pystr) :=
  let mt := lower U (or_empty (tr_mimeType tr)) in
  match mime_tokens mt with
  | None => None
  | Some mts =>
      let title := lower U (or_empty (tr_title tr)) in
      Some (mts ++ (if contains (lit ".") title then [rsplit1_last 46 title] else []))
  end.

(** [fmts] as it stands before the [normed] loop. *)
Definition format_candidates (it : Item) : option (list pystr) :=
  match collect file_tokens (or_default (it_libraryFiles it) []) with
  | None => None
  | Some [] => collect track_tokens (or_default (media_tracks (item_media it)) [])
  | Some fmts => Some fmts
  end.

(** [normed] *)
Definition normed_candidates (it : Item) : option (list pystr) :=
  option_map (map norm_format) (format_candidates it).

(** [item_formats(it)] *)
Definition item_formats (it : Item) : option (list pystr) :=
  match normed_candidates it with
  | None => None
  | Some normed =>
      match dedup_loop normed [] [] with
      | [] => Some [lit "unknown"]
      | out => Some out
      end
  end.

(** [dominant_format(it)] *)
Definition dominant_format (it : Item) : option pystr :=
  match item_formats it with
  | None => None
  | Some fs =>
      match nth_error (most_common1 (Counter fs)) 0 with
      | None => None
      | Some e => Some (fst e)
      end
  end.

End Formats.

(* ================================================================== *)
(** ** Path safety guard *)

(** The functions of [os.path] the program calls.  [None] is a raised
    exception. *)
Record OsPath : Type := {
  dirname : pystr -> pystr;
  path_join : pystr -> pystr -> pystr;
  commonpath : list pystr -> option pystr;
  realpath : pystr -> option pystr
}.

Section Paths.

Variable U : UnicodeDB.
Variable OS : OsPath.

(** Whether a library file is kept by
    [if (lf.get("fileType") or "").lower() != "audio": continue]. *)
Definition is_audio_file (lf : LibraryFile) : bool :=
  str_eqb (lower U (or_empty (lf_fileType lf))) (lit "audio").

(** The directories one audio file adds to [paths]. *)
Definition file_dirs (lf : LibraryFile) : list pystr :=
  let md := or_default (lf_metadata lf) empty_file_metadata in
  let dir_of (fp : option pystr) :=
    match fp with
    | Some s => if truthy s then [dirname OS s] else []
    | None => []
    end in
  dir_of (or_else (lf_path lf) (md_path md))
  ++ dir_of (or_else (lf_relPath lf) (md_relPath md)).

(** [_item_folder_from_files(it)] *)
Definition _item_folder_from_files (it : Item) : option pystr :=
  let direct :=
    match it_path it with
    | Some p => strip_truthy U p
    | None => false
    end in
  if direct then it_path it
  else
    let paths :=
      flat_map (fun lf => if is_audio_file lf then file_dirs lf else [])
               (or_default (it_libraryFiles it) []) in
    match paths with
    | [] => None
    | first :: _ =>
        match commonpath OS paths with
        | Some c => Some c
        | None => Some first
        end
    end.

(** [_apply_path_map(p, path_map)]; the characters stripped from the tail are
    the slash (47) and the backslash (92). *)
Fixpoint _apply_path_map_loop (p : pystr) (path_map : list (pystr * pystr)) : pystr :=
  match path_map with
  | [] => p
  | (src, dst) :: rest =>
      if startswith src p
      then path_join OS dst (lstrip_chars [47; 92]%N (skipn (length src) p))
      else _apply_path_map_loop p rest
  end.

Definition _apply_path_map (p : pystr) (path_map : list (pystr * pystr)) : pystr :=
  if negb (truthy p) then p else _apply_path_map_loop p path_map.

(** The [for r in roots] loop of [_is_within_roots]: a root whose real path
    cannot be taken ends the function with [False] (outer [except]), a
    failing [commonpath] only skips that root (inner [except]). *)
Fixpoint within_roots_loop (p_real : pystr) (roots : list pystr) : bool :=
  match roots with
  | [] => false
  | r :: rest =>
      match realpath OS r with
      | None => false
      | Some r_real =>
          match commonpath OS [p_real; r_real] with
          | Some c => if str_eqb c r_real then true else within_roots_loop p_real rest
          | None => within_roots_loop p_real rest
          end
      end
  end.

(** [_is_within_roots(p, roots)] *)
Definition _is_within_roots (p : pystr) (roots : list pystr) : bool :=
  match roots with
  | [] => true
  | _ :: _ =>
      match realpath OS p with
      | None => false
      | Some p_real => within_roots_loop p_real roots
      end
  end.

End Paths.

(* ================================================================== *)
(** ** Options, counters and report entries *)

(** The dictionary [resolve_options] returns. *)
Record Options : Type := {
  opt_tag : pystr;
  opt_case_sensitive : bool;
  opt_apply : bool;
  opt_by : pystr;
  opt_tag_all : bool;
  opt_use_ignore_prefix : bool;
  opt_preferred_formats : list pystr;
  opt_prune : bool;
  opt_assume_yes : bool;
  opt_delete_files : pystr;
  opt_trash_dir : pystr;
  opt_allow_roots : list pystr;
  opt_path_map : list (pystr * pystr);
  opt_clean_tags_after_prune : bool
}.

(** [stats = defaultdict(int)]: a counter per key, [0] until bumped. *)
Inductive stat : Type :=
  | libraries_total | libraries_scanned | items_total | dupe_books | errors
  | prune_books | files_skipped_outside_roots | files_moved | files_deleted
  | abs_deleted | tag_removed_survivors.

Definition stat_eq_dec : forall a b : stat, {a = b} + {a <> b}.
Proof. decide equality. Defined.

Definition Stats := stat -> nat.

Definition no_stats : Stats := fun _ => 0.

(** [stats[k] += n] *)
Definition bump (k : stat) (n : nat) (s : Stats) : Stats :=
  fun k' => if stat_eq_dec k k' then s k' + n else s k'.

(** [int(ok)] *)
Definition int_of_bool (b : bool) : nat := if b then 1 else 0.

(** The integer fields of a report entry. *)
Inductive tally : Type :=
  | tag_added | tag_skipped | to_delete_count | file_moved | file_deleted
  | file_skipped | entry_abs_deleted.

Definition tally_eq_dec : forall a b : tally, {a = b} + {a <> b}.
Proof. decide equality. Defined.

(** The dictionary [_make_entry] builds. *)
Record Entry : Type := {
  e_title : pystr;
  e_author : pystr;
  e_formats : list pystr;
  e_format_counts : list (pystr * nat);
  e_keeper_id : pystr;
  e_keep_format : option pystr;
  e_tally : tally -> nat;
  e_skipped_paths : list pystr;
  e_kept_tag_removed : bool;
  e_dry_run : bool
}.

Definition set_format_counts (fc : list (pystr * nat)) (e : Entry) : Entry :=
  {| e_title := e_title e; e_author := e_author e; e_formats := e_formats e;
     e_format_counts := fc; e_keeper_id := e_keeper_id e;
     e_keep_format := e_keep_format e; e_tally := e_tally e;
     e_skipped_paths := e_skipped_paths e;
     e_kept_tag_removed := e_kept_tag_removed e; e_dry_run := e_dry_run e |}.

Definition set_keep_format (f : option pystr) (e : Entry) : Entry :=
  {| e_title := e_title e; e_author := e_author e; e_formats := e_formats e;
     e_format_counts := e_format_counts e; e_keeper_id := e_keeper_id e;
     e_keep_format := f; e_tally := e_tally e;
     e_skipped_paths := e_skipped_paths e;
     e_kept_tag_removed := e_kept_tag_removed e; e_dry_run := e_dry_run e |}.

Definition set_tally (t : tally -> nat) (e : Entry) : Entry :=
  {| e_title := e_title e; e_author := e_author e; e_formats := e_formats e;
     e_format_counts := e_format_counts e; e_keeper_id := e_keeper_id e;
     e_keep_format := e_keep_format e; e_tally := t;
     e_skipped_paths := e_skipped_paths e;
     e_kept_tag_removed := e_kept_tag_removed e; e_dry_run := e_dry_run e |}.

Definition set_skipped_paths (ps : list pystr) (e : Entry) : Entry :=
  {| e_title := e_title e; e_author := e_author e; e_formats := e_formats e;
     e_format_counts := e_format_counts e; e_keeper_id := e_keeper_id e;
     e_keep_format := e_keep_format e; e_tally := e_tally e;
     e_skipped_paths := ps;
     e_kept_tag_removed := e_kept_tag_removed e; e_dry_run := e_dry_run e |}.

Definition set_kept_tag_removed (b : bool) (e : Entry) : Entry :=
  {| e_title := e_title e; e_author := e_author e; e_formats := e_formats e;
     e_format_counts := e_format_counts e; e_keeper_id := e_keeper_id e;
     e_keep_format := e_keep_format e; e_tally := e_tally e;
     e_skipped_paths := e_skipped_paths e;
     e_kept_tag_removed := b; e_dry_run := e_dry_run e |}.

(** [entry[k] += n] *)
Definition tally_bump (k : tally) (n : nat) (e : Entry) : Entry :=
  set_tally (fun k' => if tally_eq_dec k k' then e_tally e k' + n else e_tally e k') e.

(** [entry[k] = n] *)
Definition tally_set (k : tally) (n : nat) (e : Entry) : Entry :=
  set_tally (fun k' => if tally_eq_dec k k' then n else e_tally e k') e.

(* ================================================================== *)
(** ** The outside world *)

(** The calls by which the program changes the file system or the catalog. *)
Inductive call : Type :=
  | MoveToTrash (src trash_root : pystr) (roots : list pystr)
  | RemovePath (src : pystr)
  | DeleteItemFromAbs (item_id : pystr)
  | BatchUpdateTags (updates : list (pystr * list pystr)).

(** What those calls answer, given the calls made before.  [None] is an
    exception that leaves the callee: [_remove_path] catches every exception
    itself, the other three do not. *)
Record World : Type := {
  move_to_trash_result : list call -> pystr -> pystr -> list pystr -> option (bool * pystr);
  remove_path_result : list call -> pystr -> bool;
  delete_item_result : list call -> pystr -> option bool;
  batch_update_result : list call -> list (pystr * list pystr) -> option nat
}.

(** The warning [main] prints before it starts when a file action is set and
    [allow_roots] is empty ("file ops will be skipped for safety"), and the
    lines the prune loop prints about removal candidates. *)
Inductive line : Type :=
  | WarnNoAllowRoots
  | WarnNoFolder (item_id : pystr)
  | InfoLeavingFiles (mapped : pystr)
  | SkipOutsideRoots (mapped : pystr)
  | MovedLine (ok : bool) (mapped dest : pystr)
  | DeletedLine (ok : bool) (mapped : pystr)
  | WouldMoveToTrash (mapped : pystr)
  | WouldDelete (mapped : pystr)
  | AbsDeleteLine (item_id : pystr) (ok : bool)
  | WouldAbsDelete (item_id : pystr)
  | WouldUntag (item_ids : list pystr).

(** The state of a run: counters, the calls made so far (oldest first), the
    lines printed, and the lines still to be read from standard input. *)
Record Run : Type := {
  stats : Stats;
  calls : list call;
  printed : list line;
  stdin : list pystr
}.

Definition with_stats (f : Stats -> Stats) (r : Run) : Run :=
  {| stats := f (stats r); calls := calls r; printed := printed r; stdin := stdin r |}.

Definition do_call (c : call) (r : Run) : Run :=
  {| stats := stats r; calls := calls r ++ [c]; printed := printed r; stdin := stdin r |}.

Definition print (l : line) (r : Run) : Run :=
  {| stats := stats r; calls := calls r; printed := printed r ++ [l]; stdin := stdin r |}.

Definition with_stdin (i : list pystr) (r : Run) : Run :=
  {| stats := stats r; calls := calls r; printed := printed r; stdin := i |}.

(** A statement either completes or lets an exception escape, which ends the
    program. *)
Inductive outcome (S : Type) : Type :=
  | Completed (s : S)
  | Raised (s : S).

Arguments Completed {S} s.
Arguments Raised {S} s.

Definition final (S : Type) (o : outcome S) : S :=
  match o with Completed s => s | Raised s => s end.

(** [for x in l: body] *)
Fixpoint for_each (A S : Type) (body : A -> S -> outcome S) (l : list A) (s : S)
  : outcome S :=
  match l with
  | [] => Completed s
  | x :: l' =>
      match body x s with
      | Completed s' => for_each body l' s'
      | Raised s' => Raised s'
      end
  end.

(* ================================================================== *)
(** ** Catalog requests *)

Section Requests.

Variable W : World.

(** [updates[i:i+batch_size] for i in range(0, len(updates), batch_size)] *)
Fixpoint chunks_fuel (A : Type) (fuel size : nat) (l : list A) : list (list A) :=
  match fuel with
  | 0 => []
  | S fuel' =>
      match l with
      | [] => []
      | _ :: _ => firstn size l :: chunks_fuel fuel' size (skipn size l)
      end
  end.

Definition chunks (A : Type) (size : nat) (l : list A) : list (list A) :=
  chunks_fuel (length l) size l.

(** One [requests.post] of [batch_update_tags]. *)
Definition post_chunk (chunk : list (pystr * list pystr)) (r : Run) : outcome Run :=
  match batch_update_result W (calls r) chunk with
  | Some _ => Completed (do_call (BatchUpdateTags chunk) r)
  | None => Raised (do_call (BatchUpdateTags chunk) r)
  end.

(** [batch_update_tags(base_url, token, updates)] with the default
    [batch_size] of 100. *)
Definition batch_update_tags (updates : list (pystr * list pystr)) (r : Run) : outcome Run :=
  match updates with
  | [] => Completed r
  | _ :: _ => for_each post_chunk (chunks 100 updates) r
  end.

(** [delete_item_from_abs(base_url, token, item_id)]: the run after the
    request and the boolean returned. *)
Definition delete_item_from_abs (item_id : pystr) (r : Run) : option bool * Run :=
  (delete_item_result W (calls r) item_id, do_call (DeleteItemFromAbs item_id) r).

(** [_move_to_trash(src, trash_root, roots)] *)
Definition _move_to_trash (src trash_root : pystr) (roots : list pystr) (r : Run)
  : option (bool * pystr) * Run :=
  (move_to_trash_result W (calls r) src trash_root roots,
   do_call (MoveToTrash src trash_root roots) r).

(** [_remove_path(src)] *)
Definition _remove_path (src : pystr) (r : Run) : bool * Run :=
  (remove_path_result W (calls r) src, do_call (RemovePath src) r).

End Requests.

(* ================================================================== *)
(** ** The prune loop of [main] *)

(** Strings compare by code point, lexicographically. *)
Fixpoint str_leb (a b : pystr) : bool :=
  match a, b with
  | [], _ => true
  | _ :: _, [] => false
  | x :: a', y :: b' => N.ltb x y || (N.eqb x y && str_leb a' b')
  end.

(** [d.get(k, [])] on an association list. *)
Fixpoint dict_get (V : Type) (k : pystr) (d : list (pystr * list V)) : list V :=
  match d with
  | [] => []
  | (k', v) :: rest => if str_eqb k k' then v else dict_get k rest
  end.

(** [k in d] *)
Definition dict_has (V : Type) (k : pystr) (d : list (pystr * V)) : bool :=
  existsb (fun kv => str_eqb k (fst kv)) d.

Section Prune.

Variable U : UnicodeDB.
Variable OS : OsPath.
Variable W : World.
Variable opts : Options.

(** [ask_choice(prompt, choices, default)] reading from standard input;
    [None] is the [EOFError] of [input()] on an exhausted stream. *)
Fixpoint ask_choice (choices : list pystr) (default : option pystr) (inputs : list pystr)
  : option (pystr * list pystr) :=
  match inputs with
  | [] => None
  | l :: rest =>
      let ans := lower U (strip_ws U l) in
      if negb (truthy ans) && truthy (or_empty default)
      then Some (or_empty default, rest)
      else if existsb (str_eqb ans) choices then Some (ans, rest)
      else ask_choice choices default rest
  end.

(** The [by_fmt] loop: [None] when [dominant_format] raises. *)
Fixpoint classify (group : list Item) (by_fmt : list (pystr * list Item))
  : option (list (pystr * list Item)) :=
  match group with
  | [] => Some by_fmt
  | it :: rest =>
      match dominant_format U it with
      | None => None
      | Some f => classify rest (groups_append f it by_fmt)
      end
  end.

(** [next((f for f in preferred if f in by_fmt), fmts[0] if fmts else None)] *)
Definition default_format (preferred : list pystr) (by_fmt : list (pystr * list Item))
  (fmts : list pystr) : option pystr :=
  match find (fun f => dict_has f by_fmt) preferred with
  | Some f => Some f
  | None => nth_error fmts 0
  end.

(** The body of the first [for it in to_remove] loop. *)
Definition file_step (it : Item) (s : Entry * Run) : outcome (Entry * Run) :=
  let (entry, r) := s in
  let folder := _item_folder_from_files U OS it in
  if negb (truthy (or_empty folder))
  then Completed (entry, with_stats (bump errors 1) (print (WarnNoFolder (it_id it)) r))
  else
    let mapped := _apply_path_map OS (or_empty folder) (opt_path_map opts) in
    if str_eqb (opt_delete_files opts) (lit "off")
    then Completed (entry, print (InfoLeavingFiles mapped) r)
    else if negb (_is_within_roots OS mapped (opt_allow_roots opts))
    then
      let entry := tally_bump file_skipped 1 entry in
      let entry :=
        if Nat.ltb (length (e_skipped_paths entry)) 2
        then set_skipped_paths (e_skipped_paths entry ++ [mapped]) entry
        else entry in
      Completed (entry,
                 with_stats (bump files_skipped_outside_roots 1)
                            (print (SkipOutsideRoots mapped) r))
    else if opt_apply opts
    then
      if str_eqb (opt_delete_files opts) (lit "trash")
      then
        match _move_to_trash W mapped (opt_trash_dir opts) (opt_allow_roots opts) r with
        | (None, r) => Raised (entry, r)
        | (Some (ok, dest), r) =>
            Completed
              (tally_bump file_moved (int_of_bool ok) entry,
               with_stats (bump errors (int_of_bool (negb ok)))
                 (with_stats (bump files_moved (int_of_bool ok))
                    (print (MovedLine ok mapped dest) r)))
        end
      else if str_eqb (opt_delete_files opts) (lit "remove")
      then
        let (ok, r) := _remove_path W mapped r in
        Completed
          (tally_bump file_deleted (int_of_bool ok) entry,
           with_stats (bump errors (int_of_bool (negb ok)))
             (with_stats (bump files_deleted (int_of_bool ok))
                (print (DeletedLine ok mapped) r)))
      else Completed (entry, r)
    else
      if str_eqb (opt_delete_files opts) (lit "trash")
      then Completed (tally_bump file_moved 1 entry, print (WouldMoveToTrash mapped) r)
      else if str_eqb (opt_delete_files opts) (lit "remove")
      then Completed (tally_bump file_deleted 1 entry, print (WouldDelete mapped) r)
      else Completed (entry, r).

(** The body of the second [for it in to_remove] loop. *)
Definition catalog_step (it : Item) (s : Entry * Run) : outcome (Entry * Run) :=
  let (entry, r) := s in
  if opt_apply opts
  then
    match delete_item_from_abs W (it_id it) r with
    | (None, r) => Raised (entry, r)
    | (Some ok, r) =>
        Completed
          (tally_bump entry_abs_deleted (int_of_bool ok) entry,
           with_stats (bump errors (int_of_bool (negb ok)))
             (with_stats (bump abs_deleted (int_of_bool ok))
                (print (AbsDeleteLine (it_id it) ok) r)))
    end
  else Completed (entry, print (WouldAbsDelete (it_id it)) r).

(** The [if opts["clean_tags_after_prune"] and opts["assume_yes"]] block. *)
Definition reconcile_tags (keeper : Item) (s : Entry * Run) : outcome (Entry * Run) :=
  let (entry, r) := s in
  if opt_clean_tags_after_prune opts && opt_assume_yes opts
  then
    let survivors := [keeper] in
    let updates :=
      map (fun s => (it_id s,
                     filter (fun t => negb (str_eqb t (opt_tag opts))) (current_tags s)))
          survivors in
    let finish (r : Run) :=
      (set_kept_tag_removed true entry,
       with_stats (bump tag_removed_survivors (length survivors)) r) in
    if opt_apply opts
    then match batch_update_tags W updates r with
         | Completed r => Completed (finish r)
         | Raised r => Raised (entry, r)
         end
    else Completed (finish (print (WouldUntag (map it_id survivors)) r))
  else Completed s.

(** Sequencing of statements. *)
Definition and_then (S : Type) (o : outcome S) (k : S -> outcome S) : outcome S :=
  match o with
  | Completed s => k s
  | Raised s => Raised s
  end.

(** The body of [for lib, group, entry in dup_sets]. *)
Definition prune_group (group : list Item) (entry : Entry) (r : Run)
  : outcome (Entry * Run) :=
  match classify group [] with
  | None => Raised (entry, r)
  | Some by_fmt =>
      let entry := set_format_counts (map (fun kv => (fst kv, length (snd kv))) by_fmt) entry in
      let fmts := sorted str_leb (map fst by_fmt) in
      let default_fmt := default_format
                           (match opt_preferred_formats opts with
                            | [] => [lit "m4b"; lit "mp3"]
                            | p => p
                            end) by_fmt fmts in
      let choice :=
        if opt_assume_yes opts && truthy (or_empty default_fmt)
        then Some (or_empty default_fmt, stdin r)
        else ask_choice (match fmts with [] => [lit "unknown"] | _ => fmts end)
                        default_fmt (stdin r) in
      match choice with
      | None => Raised (entry, with_stdin [] r)
      | Some (chosen_fmt, rest) =>
          let r := with_stdin rest r in
          let entry := set_keep_format (Some chosen_fmt) entry in
          let keep_list := dict_get chosen_fmt by_fmt in
          match keep_list with
          | [] => Completed (entry, r)
          | _ :: _ =>
              match choose_keeper keep_list with
              | None => Raised (entry, r)
              | Some keeper =>
                  let keep_id := it_id keeper in
                  let to_remove :=
                    filter (fun it => negb (str_eqb (it_id it) keep_id)) group in
                  let entry := tally_set to_delete_count (length to_remove) entry in
                  let r := with_stats (bump prune_books 1) r in
                  and_then (for_each file_step to_remove (entry, r)) (fun s =>
                  and_then (for_each catalog_step to_remove s) (fun s =>
                  reconcile_tags keeper s))
              end
          end
      end
  end.

(** [if opts["prune"]: for lib, group, entry in dup_sets: ...]; the entries
    are returned as the loop leaves them. *)
Fixpoint prune_loop (dup_sets : list (list Item * Entry)) (r : Run)
  : outcome (list (list Item * Entry) * Run) :=
  match dup_sets with
  | [] => Completed ([], r)
  | (group, entry) :: rest =>
      match prune_group group entry r with
      | Raised (entry, r) => Raised ((group, entry) :: rest, r)
      | Completed (entry, r) =>
          match prune_loop rest r with
          | Completed (done, r) => Completed ((group, entry) :: done, r)
          | Raised (done, r) => Raised ((group, entry) :: done, r)
          end
      end
  end.

Definition prune_phase (dup_sets : list (list Item * Entry)) (r : Run)
  : outcome (list (list Item * Entry) * Run) :=
  if opt_prune opts then prune_loop dup_sets r else Completed (dup_sets, r).

End Prune.

(* ================================================================== *)
(** ** The tagging loop and [main] *)

Section Main.

Variable U : UnicodeDB.
Variable OS : OsPath.
Variable W : World.
Variable opts : Options.

(** [Counter(dominant_format(it) for it in group)]; [None] when
    [dominant_format] raises. *)
Fixpoint dominant_formats (group : list Item) : option (list pystr) :=
  match group with
  | [] => Some []
  | it :: rest =>
      match dominant_format U it, dominant_formats rest with
      | Some f, Some fs => Some (f :: fs)
      | _, _ => None
      end
  end.

(** [_make_entry(group, keeper_id)]; [None] when it raises. *)
Definition _make_entry (group : list Item) (keeper_id : pystr) : option Entry :=
  match group, dominant_formats group with
  | first :: _, Some fs =>
      let md := item_meta first in
      let fmt_counts := Counter fs in
      Some {| e_title := match md_title md with
                         | Some t => if truthy t then t else lit "(no title)"
                         | None => lit "(no title)"
                         end;
              e_author := or_empty (md_authorName md);
              e_formats := sorted str_leb (map fst fmt_counts);
              e_format_counts := fmt_counts;
              e_keeper_id := keeper_id;
              e_keep_format := None;
              e_tally := fun _ => 0;
              e_skipped_paths := [];
              e_kept_tag_removed := false;
              e_dry_run := negb (opt_apply opts) |}
  | _, _ => None
  end.

(** The body of [for it in group] in the tagging loop, on the entry and the
    pending tag updates. *)
Definition tag_step (keeper_id : pystr) (it : Item)
  (s : Entry * list (pystr * list pystr)) : Entry * list (pystr * list pystr) :=
  let (entry, pending) := s in
  if negb (opt_tag_all opts) && str_eqb (it_id it) keeper_id then s
  else
    let tags := current_tags it in
    if negb (existsb (str_eqb (opt_tag opts)) tags)
    then (tally_bump tag_added 1 entry,
          if opt_apply opts then pending ++ [(it_id it, tags ++ [opt_tag opts])]
          else pending)
    else (tally_bump tag_skipped 1 entry, pending).

(** What one run of [main] accumulates besides its [Run]. *)
Record Scan : Type := {
  dup_sets : list (list Item * Entry);
  pending_tag_updates : list (pystr * list pystr);
  run : Run
}.

(** The body of [for _, group in groups.items()]. *)
Definition group_step (kg : pystr * list Item) (s : Scan) : outcome Scan :=
  let group := snd kg in
  if Nat.leb (length group) 1 then Completed s
  else
    let r := with_stats (bump dupe_books 1) (run s) in
    let raised := Raised {| dup_sets := dup_sets s;
                            pending_tag_updates := pending_tag_updates s;
                            run := r |} in
    match choose_keeper group with
    | None => raised
    | Some keeper =>
        let keeper_id := it_id keeper in
        match _make_entry group keeper_id with
        | None => raised
        | Some entry =>
            let (entry, pending) :=
              fold_left (fun acc it => tag_step keeper_id it acc) group
                        (entry, pending_tag_updates s) in
            Completed {| dup_sets := dup_sets s ++ [(group, entry)];
                         pending_tag_updates := pending;
                         run := r |}
        end
    end.

(** The body of [for lib_id, lib in chosen.items()]; [None] is a failed
    [fetch_library_items]. *)
Definition library_step (fetched : option (list Item)) (s : Scan) : outcome Scan :=
  match fetched with
  | None => Completed {| dup_sets := dup_sets s;
                         pending_tag_updates := pending_tag_updates s;
                         run := with_stats (bump errors 1) (run s) |}
  | Some items =>
      let s := {| dup_sets := dup_sets s;
                  pending_tag_updates := pending_tag_updates s;
                  run := with_stats (bump items_total (length items)) (run s) |} in
      for_each group_step
        (build_groups U (opt_by opts) (opt_use_ignore_prefix opts)
                      (opt_case_sensitive opts) items) s
  end.

(** [if opts["delete_files"] != "off" and not opts["allow_roots"]: print(...)] *)
Definition allow_roots_warning : list line :=
  if negb (str_eqb (opt_delete_files opts) (lit "off"))
     && match opt_allow_roots opts with [] => true | _ :: _ => false end
  then [WarnNoAllowRoots]
  else [].

(** [main] from the options on, given what [fetch_library_items] returns for
    each chosen library and the lines on standard input: the report entries
    and the final run state. *)
Definition main (libraries : list (option (list Item))) (inputs : list pystr)
  : outcome (list (list Item * Entry) * Run) :=
  let start := {| dup_sets := []; pending_tag_updates := [];
                  run := {| stats := bump libraries_scanned (length libraries) no_stats;
                            calls := []; printed := allow_roots_warning;
                            stdin := inputs |} |} in
  match for_each library_step libraries start with
  | Raised s => Raised (dup_sets s, run s)
  | Completed s =>
      let tagged :=
        if opt_apply opts
        then batch_update_tags W (pending_tag_updates s) (run s)
        else Completed (run s) in
      match tagged with
      | Raised r => Raised (dup_sets s, r)
      | Completed r => prune_phase U OS W opts (dup_sets s) r
      end
  end.

End Main.

(* ================================================================== *)
(** ** Reading option values *)

(** A value handed to [_csv]: [None], a list, or a string. *)
Inductive setting : Type :=
  | SetNone
  | SetList (l : list pystr)
  | SetStr (s : pystr).

(** [s.split(c)] for a one-character separator: every occurrence cuts. *)
Fixpoint split_char (c : N) (s : pystr) : list pystr :=
  match s with
  | [] => [[]]
  | d :: s' =>
      if N.eqb d c then [] :: split_char c s'
      else match split_char c s' with
           | w :: ws => (d :: w) :: ws
           | [] => [[d]]
           end
  end.

Section Settings.

Variable U : UnicodeDB.

(** [_csv(v)] *)
Definition _csv (v : setting) : list pystr :=
  match v with
  | SetNone => []
  | SetList l => l
  | SetStr s =>
      map (strip_ws U) (filter (fun x => truthy (strip_ws U x)) (split_char 44 s))
  end.

(** The loop of [_kv_csv]; [None] is the [ValueError] of unpacking
    [pair.split("=", 1)] into two names. *)
Fixpoint kv_loop (pairs : list pystr) : option (list (pystr * pystr)) :=
  match pairs with
  | [] => Some []
  | kv :: rest =>
      if contains (lit "=") kv
      then match split1 61 kv with
           | [k; val] =>
               match kv_loop rest with
               | Some out => Some ((strip_ws U k, strip_ws U val) :: out)
               | None => None
               end
           | _ => None
           end
      else kv_loop rest
  end.

(** [_kv_csv(v)] *)
Definition _kv_csv (v : setting) : option (list (pystr * pystr)) := kv_loop (_csv v).

End Settings.

(* ================================================================== *)
(** ** Choosing the libraries *)

(** A library as [fetch_libraries] lists it.  [lib_name] is [None] when the
    key is absent. *)
Record Library : Type := {
  lib_id : pystr;
  lib_name : option pystr;
  lib_mediaType : option pystr;
  lib_type : option pystr
}.

(** [str.upper] and [fnmatch.fnmatch], which belong to the Python runtime. *)
Record Matching : Type := {
  upper : pystr -> pystr;
  fnmatch : pystr -> pystr -> bool
}.

(** [d[k] = v] on a dictionary in insertion order: a key that is present
    keeps its place and takes the new value. *)
Fixpoint dict_set (V : Type) (k : pystr) (v : V) (d : list (pystr * V)) : list (pystr * V) :=
  match d with
  | [] => [(k, v)]
  | (k', v') :: rest =>
      if str_eqb k k' then (k', v) :: rest else (k', v') :: dict_set k v rest
  end.

(** [(l.get("mediaType") or l.get("type")) == "book"] *)
Definition is_book_library (l : Library) : bool :=
  match or_else (lib_mediaType l) (lib_type l) with
  | Some t => str_eqb t (lit "book")
  | None => false
  end.

(** [{l["id"]: l for l in libs}] *)
Definition by_id (libs : list Library) : list (pystr * Library) :=
  fold_left (fun d l => dict_set (lib_id l) l d) libs [].

Section Libraries.

Variable M : Matching.

(** [select_libraries(all_libs, wish, by_ids)] *)
Definition select_libraries (all_libs : list Library) (wish by_ids : list pystr)
  : list (pystr * Library) :=
  let book_libs := filter is_book_library all_libs in
  match by_ids with
  | _ :: _ => by_id (filter (fun l => existsb (str_eqb (lib_id l)) by_ids) book_libs)
  | [] =>
      if match wish with [] => true | _ :: _ => false end
         || existsb (fun w => str_eqb (upper M w) (lit "ALL")) wish
      then by_id book_libs
      else
        fold_left
          (fun chosen lib =>
             let name := or_default (lib_name lib) [] in
             if existsb (fun w => str_eqb (lib_id lib) w || fnmatch M name w) wish
             then dict_set (lib_id lib) lib chosen
             else chosen)
          book_libs []
  end.

End Libraries.

(* ================================================================== *)
(** ** A simulated host

    A POSIX file system without symbolic links whose paths are given in
    canonical form, and a catalog that accepts every request.  The concrete
    runs below are evaluated on it. *)
Module Sim.

(** [s.split("/")] *)
Fixpoint split_slash (s : pystr) : list pystr :=
  match s with
  | [] => [[]]
  | c :: s' =>
      if N.eqb c 47 then [] :: split_slash s'
      else match split_slash s' with
           | w :: ws => (c :: w) :: ws
           | [] => [[c]]
           end
  end.

Definition is_abs (p : pystr) : bool := startswith (lit "/") p.

(** The components [posixpath.commonpath] compares: neither empty nor [.]. *)
Definition components (p : pystr) : list pystr :=
  filter (fun c => truthy c && negb (str_eqb c (lit "."))) (split_slash p).

Fixpoint common_prefix (a b : list pystr) : list pystr :=
  match a, b with
  | x :: a', y :: b' => if str_eqb x y then x :: common_prefix a' b' else []
  | _, _ => []
  end.

(** [posixpath.commonpath]: raises on an empty list and on a mix of absolute
    and relative paths. *)
Definition posix_commonpath (paths : list pystr) : option pystr :=
  match paths with
  | [] => None
  | p :: rest =>
      if forallb (fun q => Bool.eqb (is_abs q) (is_abs p)) rest
      then Some ((if is_abs p then lit "/" else [])
                 ++ join (lit "/")
                      (fold_left (fun acc q => common_prefix acc (components q))
                                 rest (components p)))
      else None
  end.

Fixpoint rstrip_slash_rev (r : pystr) : pystr :=
  match r with
  | [] => []
  | c :: r' => if N.eqb c 47 then rstrip_slash_rev r' else r
  end.

(** [posixpath.dirname] *)
Definition posix_dirname (p : pystr) : pystr :=
  let head := firstn (length p - length (rsplit1_last 47 p)) p in
  if existsb (N.eqb 47) p
  then (if forallb (N.eqb 47) head then head else rev (rstrip_slash_rev (rev head)))
  else [].

(** [posixpath.join] of two paths *)
Definition posix_join (a b : pystr) : pystr :=
  if is_abs b then b
  else if negb (truthy a) || N.eqb (last a 0%N) 47 then a ++ b
  else a ++ lit "/" ++ b.

Definition os : OsPath := {|
  dirname := posix_dirname;
  path_join := posix_join;
  commonpath := posix_commonpath;
  realpath := fun p => Some p
|}.

Definition world : World := {|
  move_to_trash_result := fun _ src trash_root _ =>
    Some (true, posix_join trash_root (rsplit1_last 47 src));
  remove_path_result := fun _ _ => true;
  delete_item_result := fun _ _ => Some true;
  batch_update_result := fun _ updates => Some (length updates)
|}.

End Sim.


(* ================================================================== *)
(** ** Vocabulary of the statements *)

(** [if not case_sensitive: s = s.lower()] on ASCII text. *)
Definition ascii_case (case_sensitive : bool) (s : pystr) : pystr :=
  if negb case_sensitive then map ascii_lower_cp s else s.

Section Vocabulary.

Variable U : UnicodeDB.

(** A word: non-empty and free of white space. *)
Definition is_word (w : pystr) : Prop :=
  w <> [] /\ Forall (fun c => isspace U c = false) w.

(** Text that a second pass of [norm] leaves alone: white space already
    collapsed and, unless case matters, no upper-case ASCII letter. *)
Definition clean (case_sensitive : bool) (s : pystr) : Prop :=
  collapse_ws U s = s /\ ascii_case case_sensitive s = s.

(** The field joined to the title under the [title+author] and
    [title+series] policies. *)
Definition second_component (by_ : pystr) (it : Item) (case_sensitive : bool) : pystr :=
  if str_eqb by_ (lit "title+author") then author_for_group U it case_sensitive
  else series_for_group U it case_sensitive.

End Vocabulary.

(** *** Sample catalog items *)

Definition sample_metadata (title author : option pystr) : Metadata :=
  {| md_title := title; md_titleIgnorePrefix := None;
     md_authorName := author; md_seriesName := None |}.

(** A book with a title and an author and nothing else. *)
Definition book (id title author : string) : Item :=
  {| it_id := lit id; it_path := None; it_addedAt := None;
     it_media := Some {| media_metadata := Some (sample_metadata (Some (lit title))
                                                                 (Some (lit author)));
                         media_tags := None; media_addedAt := None;
                         media_tracks := None |};
     it_tags := None; it_libraryFiles := None |}.

(** What the grouping loop maintains for the key function [key_of]: every
    key is non-empty and is the key of each item filed under it. *)
Definition keyed_by (key_of : Item -> pystr) (kg : pystr * list Item) : Prop :=
  fst kg <> [] /\ forall it, In it (snd kg) -> key_of it = fst kg.

(** An item with an identifier and an [addedAt] value and nothing else. *)
Definition stamped (id : string) (added_at : option Z) : Item :=
  {| it_id := lit id; it_path := None; it_addedAt := added_at; it_media := None;
     it_tags := None; it_libraryFiles := None |}.

(** No [addedAt] value at the item level nor at the media level: the key is
    absent or holds [null] at both, or there is no media object at all. *)
Definition missing_added_at (it : Item) : Prop :=
  it_addedAt it = None /\ media_addedAt (item_media it) = None.

(** The order [sorted(xs, key=key)] sorts by. *)
Definition key_leb (A : Type) (key : A -> Z) (a b : A) : bool := Z.leb (key a) (key b).

(** *** Deduplication and frequency, as the specification words them *)

(** [x in l] *)
Definition mem (x : pystr) (l : list pystr) : bool := existsb (str_eqb x) l.

(** Deduplication that preserves first-occurrence order: an element is kept
    exactly when it does not occur earlier in the list. *)
Fixpoint first_occurrences_from (earlier l : list pystr) : list pystr :=
  match l with
  | [] => []
  | x :: l' =>
      if mem x earlier then first_occurrences_from (earlier ++ [x]) l'
      else x :: first_occurrences_from (earlier ++ [x]) l'
  end.

Definition first_occurrences (l : list pystr) : list pystr :=
  first_occurrences_from [] l.

(** How often [x] occurs in [l]. *)
Definition frequency (l : list pystr) (x : pystr) : nat := count_occ pystr_eq_dec l x.

(** [f] is the most frequent token of [l], and of the tokens tied for the
    highest frequency the one that occurs first: every token before its first
    occurrence is strictly less frequent, every token after it at most as
    frequent. *)
Definition most_frequent_first (f : pystr) (l : list pystr) : Prop :=
  exists before after,
    l = before ++ f :: after
    /\ Forall (fun g => frequency l g < frequency l f) before
    /\ Forall (fun g => frequency l g <= frequency l f) after.

(** An item with audio files carrying the given extensions. *)
Definition with_extensions (id : string) (exts : list pystr) : Item :=
  {| it_id := lit id; it_path := None; it_addedAt := None; it_media := None;
     it_tags := None;
     it_libraryFiles :=
       Some (map (fun e =>
                    {| lf_fileType := Some (lit "audio");
                       lf_metadata := Some {| md_ext := Some e; md_path := None;
                                              md_relPath := None |};
                       lf_mimeType := None; lf_path := None; lf_relPath := None |})
                 exts) |}.

(** *** Calls, lines and counters of a run that changed nothing *)

(** The lines that report an action carried out. *)
Definition reports_action (l : line) : bool :=
  match l with
  | MovedLine _ _ _ | DeletedLine _ _ | AbsDeleteLine _ _ => true
  | _ => false
  end.

(** Nothing was moved, deleted or requested: no call was made, no line
    reports an action carried out, and the counters of performed actions
    stand at zero. *)
Definition untouched (r : Run) : Prop :=
  calls r = []
  /\ Forall (fun l => reports_action l = false) (printed r)
  /\ stats r files_moved = 0
  /\ stats r files_deleted = 0
  /\ stats r abs_deleted = 0.

(** *** Sample options and copies *)

(** A copy of the book "Dune" with an identifier, a time stamp, an item-level
    path (when given) and one audio file with the given extension. *)
Definition copy (id : string) (added_at : Z) (path : option pystr) (ext : string) : Item :=
  {| it_id := lit id; it_path := path; it_addedAt := Some added_at;
     it_media := Some {| media_metadata := Some (sample_metadata (Some (lit "Dune"))
                                                                 (Some (lit "Frank Herbert")));
                         media_tags := None; media_addedAt := None;
                         media_tracks := None |};
     it_tags := None;
     it_libraryFiles :=
       Some [{| lf_fileType := Some (lit "audio");
                lf_metadata := Some {| md_ext := Some (lit ext); md_path := None;
                                       md_relPath := None |};
                lf_mimeType := None; lf_path := None; lf_relPath := None |}] |}.

(** Non-interactive pruning by title, with the given apply flag, file action
    and allow-roots; no path map, no tag clean-up. *)
Definition prune_options (apply : bool) (delete_files : string) (allow_roots : list pystr)
  : Options :=
  {| opt_tag := lit "Duplicate"; opt_case_sensitive := false; opt_apply := apply;
     opt_by := lit "title"; opt_tag_all := false; opt_use_ignore_prefix := true;
     opt_preferred_formats := []; opt_prune := true; opt_assume_yes := true;
     opt_delete_files := lit delete_files; opt_trash_dir := lit "/trash";
     opt_allow_roots := allow_roots; opt_path_map := [];
     opt_clean_tags_after_prune := false |}.

(** *** Calls a run may make *)

(** The calls that touch the file system. *)
Definition is_file_call (c : call) : bool :=
  match c with
  | MoveToTrash _ _ _ | RemovePath _ => true
  | _ => false
  end.

(** A file call whose path passed the allow-roots guard; other calls count as
    guarded. *)
Definition guarded_call (OS : OsPath) (roots : list pystr) (c : call) : Prop :=
  match c with
  | MoveToTrash src _ _ | RemovePath src => _is_within_roots OS src roots = true
  | _ => True
  end.

(** A tag update. *)
Definition is_tag_call (c : call) : bool :=
  match c with
  | BatchUpdateTags _ => true
  | _ => false
  end.

(** The calls made since the run [r0] all satisfy [P]. *)
Definition extends_calls (P : call -> Prop) (r0 : Run) (s : Entry * Run) : Prop :=
  exists new, calls (snd s) = calls r0 ++ new /\ Forall P new.

(** What a call of the prune loop for [group] may be when [keeper] is kept:
    the catalog deletion of another member of the group, a file call on the
    mapped folder of another member, or the tag update that strips the marker
    tag from the keeper. *)
Definition prune_call_for (U : UnicodeDB) (OS : OsPath) (opts : Options)
  (group : list Item) (keeper : Item) (c : call) : Prop :=
  match c with
  | DeleteItemFromAbs item_id =>
      item_id <> it_id keeper /\ exists it, In it group /\ it_id it = item_id
  | MoveToTrash src _ _ | RemovePath src =>
      exists it,
        In it group /\ it_id it <> it_id keeper
        /\ src = _apply_path_map OS (or_empty (_item_folder_from_files U OS it))
                                 (opt_path_map opts)
  | BatchUpdateTags updates =>
      updates = [(it_id keeper,
                  filter (fun t => negb (str_eqb t (opt_tag opts))) (current_tags keeper))]
  end.

(** *** Tag updates *)

(** The item was returned by [fetch_library_items] for one of the libraries. *)
Definition fetched (libraries : list (option (list Item))) (it : Item) : Prop :=
  exists items, In (Some items) libraries /\ In it items.

(** The update adds the marker tag to the tags of an item that lacks it. *)
Definition adds_marker (opts : Options) (it : Item) (u : pystr * list pystr) : Prop :=
  u = (it_id it, current_tags it ++ [opt_tag opts])
  /\ ~ In (opt_tag opts) (current_tags it).

(** The update removes the marker tag from the tags of an item. *)
Definition strips_marker (opts : Options) (it : Item) (u : pystr * list pystr) : Prop :=
  u = (it_id it, filter (fun t => negb (str_eqb t (opt_tag opts))) (current_tags it)).

(** Every update of a tag call adds the marker to, or strips it from, a
    fetched item. *)
Definition marker_call (opts : Options) (libraries : list (option (list Item)))
  (c : call) : Prop :=
  match c with
  | BatchUpdateTags updates =>
      forall u, In u updates ->
        exists it, fetched libraries it /\ (adds_marker opts it u \/ strips_marker opts it u)
  | _ => True
  end.

(** *** Paths *)

(** [s] is an initial part of [p]. *)
Definition is_prefix (s p : pystr) : Prop := exists tail, p = s ++ tail.

(** The root [r] holds the real path [p_real]: it can be resolved and is the
    common path of [p_real] and itself. *)
Definition root_holds (OS : OsPath) (p_real r : pystr) : Prop :=
  exists r_real,
    realpath OS r = Some r_real /\ commonpath OS [p_real; r_real] = Some r_real.

(** *** Tallies of a report entry *)

(** The files of removal candidates an entry accounts for: moved, deleted or
    skipped as outside the allow-roots. *)
Definition file_tally (e : Entry) : nat :=
  e_tally e file_moved + e_tally e file_deleted + e_tally e file_skipped.

(** An entry as the tagging loop hands it to the prune loop: nothing pruned
    yet. *)
Definition unpruned (e : Entry) : Prop :=
  e_tally e to_delete_count = 0 /\ file_tally e = 0 /\ e_tally e entry_abs_deleted = 0.

(** The tallies of an entry are within bounds: at most [files] files are
    accounted for and at most [deleted] catalog entries, out of [candidates]
    removal candidates. *)
Definition tallies_within (candidates files deleted : nat) (s : Entry * Run) : Prop :=
  e_tally (fst s) to_delete_count = candidates
  /\ file_tally (fst s) <= files
  /\ e_tally (fst s) entry_abs_deleted <= deleted.

(** What the report says of a group stays within the group: the files
    accounted for and the catalog entries deleted are at most the removal
    candidates, and these are fewer than the copies. *)
Definition report_in_bounds (ge : list Item * Entry) : Prop :=
  file_tally (snd ge) <= e_tally (snd ge) to_delete_count
  /\ e_tally (snd ge) entry_abs_deleted <= e_tally (snd ge) to_delete_count
  /\ e_tally (snd ge) to_delete_count < length (fst ge).

(** *** What the scan of the libraries should count *)

(** The libraries whose items could not be fetched. *)
Definition failed_fetches (libraries : list (option (list Item))) : nat :=
  length (filter (fun lib => match lib with None => true | Some _ => false end) libraries).

(** The items fetched, over all libraries. *)
Definition fetched_count (libraries : list (option (list Item))) : nat :=
  list_sum (map (fun lib => match lib with Some items => length items | None => 0 end)
                libraries).

(** The duplicate groups of every fetched library, library after library. *)
Definition surfaced_groups (U : UnicodeDB) (opts : Options)
  (libraries : list (option (list Item))) : list (list Item) :=
  flat_map (fun lib =>
              match lib with
              | Some items =>
                  map snd (duplicate_groups U (opt_by opts) (opt_use_ignore_prefix opts)
                                            (opt_case_sensitive opts) items)
              | None => []
              end)
           libraries.

(** The scan has added to the counters of [r0] what it should, and to its
    duplicate sets the groups [groups]. *)
Definition scanned (r0 : Run) (sets0 : list (list Item * Entry)) (failed items : nat)
  (groups : list (list Item)) (s : Scan) : Prop :=
  map fst (dup_sets s) = map fst sets0 ++ groups
  /\ stats (run s) errors = stats r0 errors + failed
  /\ stats (run s) items_total = stats r0 items_total + items
  /\ stats (run s) dupe_books = stats r0 dupe_books + length groups.

(** *** Entries of a comma-separated setting *)

(** Neither the first nor the last character is white space. *)
Definition stripped (U : UnicodeDB) (s : pystr) : Prop :=
  lstrip_ws U s = s /\ lstrip_ws U (rev s) = rev s.

(** A clean entry: not empty, without the separator [c], and neither starting
    nor ending with white space. *)
Definition clean_entry (U : UnicodeDB) (c : N) (e : pystr) : Prop :=
  e <> [] /\ ~ In c e /\ stripped U e.

(** A clean pair: neither part contains a comma, the key contains no [=],
    and neither part starts or ends with white space. *)
Definition clean_pair (U : UnicodeDB) (kv : pystr * pystr) : Prop :=
  ~ In 61%N (fst kv)
  /\ ~ In 44%N (fst kv) /\ ~ In 44%N (snd kv)
  /\ stripped U (fst kv) /\ stripped U (snd kv).

(** [k=v] *)
Definition written_pair (kv : pystr * pystr) : pystr := fst kv ++ 61%N :: snd kv.

(** *** Folder resolution *)

(** A field that is absent, [null] or the empty string. *)
Definition blank (o : option pystr) : Prop := truthy (or_empty o) = false.

(** The file carries no path: neither [path] nor [relPath] is set, on the
    file or in its metadata. *)
Definition pathless (lf : LibraryFile) : Prop :=
  let md := or_default (lf_metadata lf) empty_file_metadata in
  blank (or_else (lf_path lf) (md_path md))
  /\ blank (or_else (lf_relPath lf) (md_relPath md)).

(** *** The tag counts of a report entry *)

(** The tagging loop looks at the item: it is not the keeper, or all copies
    are tagged. *)
Definition tag_wanted (opts : Options) (keeper_id : pystr) (it : Item) : bool :=
  opt_tag_all opts || negb (str_eqb (it_id it) keeper_id).

(** The item carries the marker tag. *)
Definition has_marker (opts : Options) (it : Item) : bool :=
  existsb (str_eqb (opt_tag opts)) (current_tags it).

(** The entry names the keeper of its group, and counts as tagged the items
    looked at that lacked the marker and as skipped those that carried it. *)
Definition tag_report_exact (opts : Options) (ge : list Item * Entry) : Prop :=
  exists keeper,
    choose_keeper (fst ge) = Some keeper
    /\ e_keeper_id (snd ge) = it_id keeper
    /\ e_tally (snd ge) tag_added
       = length (filter (fun it => tag_wanted opts (it_id keeper) it
                                   && negb (has_marker opts it)) (fst ge))
    /\ e_tally (snd ge) tag_skipped
       = length (filter (fun it => tag_wanted opts (it_id keeper) it
                                   && has_marker opts it) (fst ge)).

(** The prune loop left what the tagging loop wrote in the entry. *)
Definition same_tagging (e e' : Entry) : Prop :=
  e_keeper_id e' = e_keeper_id e
  /\ e_tally e' tag_added = e_tally e tag_added
  /\ e_tally e' tag_skipped = e_tally e tag_skipped.

(** *** Chosen libraries *)

(** A chosen library: a book library of the listing, filed under its own
    identifier. *)
Definition chosen_book (all_libs : list Library) (kl : pystr * Library) : Prop :=
  fst kl = lib_id (snd kl)
  /\ In (snd kl) all_libs
  /\ is_book_library (snd kl) = true.

(** *** Counters against report entries *)

(** The sum of one tally over the report entries. *)
Definition total (k : tally) (sets : list (list Item * Entry)) : nat :=
  list_sum (map (fun ge => e_tally (snd ge) k) sets).

(** The run counters have moved with the tallies of the entry since the run
    [r0] and the entry [e0]: the skipped files always, the moved and deleted
    files and the deleted catalog entries when the run applies. *)
Definition in_step (apply : bool) (r0 : Run) (e0 : Entry) (s : Entry * Run) : Prop :=
  stats (snd s) files_skipped_outside_roots + e_tally e0 file_skipped
    = stats r0 files_skipped_outside_roots + e_tally (fst s) file_skipped
  /\ (apply = true ->
      stats (snd s) files_moved + e_tally e0 file_moved
        = stats r0 files_moved + e_tally (fst s) file_moved
      /\ stats (snd s) files_deleted + e_tally e0 file_deleted
         = stats r0 files_deleted + e_tally (fst s) file_deleted
      /\ stats (snd s) abs_deleted + e_tally e0 entry_abs_deleted
         = stats r0 abs_deleted + e_tally (fst s) entry_abs_deleted).

(** The counters of a run agree with the sums over its report. *)
Definition counters_match (apply : bool) (o : list (list Item * Entry) * Run) : Prop :=
  stats (snd o) files_skipped_outside_roots = total file_skipped (fst o)
  /\ (apply = true ->
      stats (snd o) files_moved = total file_moved (fst o)
      /\ stats (snd o) files_deleted = total file_deleted (fst o)
      /\ stats (snd o) abs_deleted = total entry_abs_deleted (fst o)).

(** At most two skipped paths are kept, and no more than were skipped. *)
Definition skipped_paths_bounded (e : Entry) : Prop :=
  length (e_skipped_paths e) <= 2
  /\ length (e_skipped_paths e) <= e_tally e file_skipped.

(** *** A simulated run against a real one *)

(** The options with the apply flag set to [b]. *)
Definition set_apply (b : bool) (o : Options) : Options :=
  {| opt_tag := opt_tag o; opt_case_sensitive := opt_case_sensitive o; opt_apply := b;
     opt_by := opt_by o; opt_tag_all := opt_tag_all o;
     opt_use_ignore_prefix := opt_use_ignore_prefix o;
     opt_preferred_formats := opt_preferred_formats o; opt_prune := opt_prune o;
     opt_assume_yes := opt_assume_yes o; opt_delete_files := opt_delete_files o;
     opt_trash_dir := opt_trash_dir o; opt_allow_roots := opt_allow_roots o;
     opt_path_map := opt_path_map o;
     opt_clean_tags_after_prune := opt_clean_tags_after_prune o |}.

(** The call a "would do" line announces. *)
Definition intended (o : Options) (l : line) : list call :=
  match l with
  | WouldMoveToTrash mapped => [MoveToTrash mapped (opt_trash_dir o) (opt_allow_roots o)]
  | WouldDelete mapped => [RemovePath mapped]
  | WouldAbsDelete item_id => [DeleteItemFromAbs item_id]
  | _ => []
  end.

(** No call to the outside world raises. *)
Definition never_raises (W : World) : Prop :=
  (forall h src trash roots, move_to_trash_result W h src trash roots <> None)
  /\ (forall h item_id, delete_item_result W h item_id <> None)
  /\ (forall h updates, batch_update_result W h updates <> None).

(** The simulated run [rd] has announced exactly the file calls and catalog
    deletions the real run [ra] has made, in the same order, and both have
    the same input left. *)
Definition predicts (o : Options) (rd ra : Run) : Prop :=
  stdin rd = stdin ra
  /\ flat_map (intended o) (printed rd)
     = filter (fun c => negb (is_tag_call c)) (calls ra).

(** Two statements end alike, in states related by [R]. *)
Definition alike (S1 S2 : Type) (R : S1 -> S2 -> Prop) (o1 : outcome S1) (o2 : outcome S2)
  : Prop :=
  match o1, o2 with
  | Completed a, Completed b => R a b
  | Raised a, Raised b => R a b
  | _, _ => False
  end.

(* ================================================================== *)
(** * Properties *)

(** ** Strings and the normalizer *)

Lemma str_eqb_eq (a b : pystr) : str_eqb a b = true <-> a = b.
Proof.
  unfold str_eqb. destruct (pystr_eq_dec a b); split; congruence.
Qed.

Lemma str_eqb_neq (a b : pystr) : str_eqb a b = false <-> a <> b.
Proof.
  unfold str_eqb. destruct (pystr_eq_dec a b); split; congruence.
Qed.

Lemma str_eqb_refl (a : pystr) : str_eqb a a = true.
Proof. now apply str_eqb_eq. Qed.

Lemma ascii_ignore_all_ascii (s : pystr) : all_ascii (ascii_ignore s).
Proof.
  unfold all_ascii, ascii_ignore. apply Forall_forall.
  intros c Hc. now apply filter_In in Hc.
Qed.

Lemma ascii_ignore_id (s : pystr) : all_ascii s -> ascii_ignore s = s.
Proof.
  unfold all_ascii, ascii_ignore. induction 1 as [|c s Hc Hs IH]; simpl.
  - reflexivity.
  - now rewrite Hc, IH.
Qed.

Lemma all_ascii_app (a b : pystr) : all_ascii a -> all_ascii b -> all_ascii (a ++ b).
Proof. unfold all_ascii. intros. now apply Forall_app. Qed.

Lemma all_ascii_join (sep : pystr) (ws : list pystr) :
  all_ascii sep -> Forall all_ascii ws -> all_ascii (join sep ws).
Proof.
  intros Hsep. induction 1 as [|w ws Hw Hws IH]; simpl.
  - constructor.
  - destruct ws as [|w' ws']; [assumption|].
    apply all_ascii_app; [assumption|]. now apply all_ascii_app.
Qed.

Lemma ascii_lower_cp_ascii (c : N) : is_ascii c = true -> is_ascii (ascii_lower_cp c) = true.
Proof.
  unfold is_ascii, ascii_lower_cp. intros H.
  destruct (N.leb 65 c && N.leb c 90) eqn:E; [|assumption].
  apply andb_prop in E. destruct E as [_ E]. apply N.leb_le in E.
  apply N.ltb_lt. lia.
Qed.

Lemma ascii_lower_cp_idem (c : N) : ascii_lower_cp (ascii_lower_cp c) = ascii_lower_cp c.
Proof.
  unfold ascii_lower_cp.
  destruct (N.leb 65 c && N.leb c 90) eqn:E; [|now rewrite E].
  apply andb_prop in E. destruct E as [E1 E2].
  apply N.leb_le in E1. apply N.leb_le in E2.
  destruct (N.leb 65 (c + 32) && N.leb (c + 32) 90) eqn:E'; [|reflexivity].
  apply andb_prop in E'. destruct E' as [_ E']. apply N.leb_le in E'. lia.
Qed.

Lemma ascii_lower_cp_isspace (c : N) : ascii_isspace (ascii_lower_cp c) = ascii_isspace c.
Proof.
  unfold ascii_lower_cp.
  destruct (N.leb 65 c && N.leb c 90) eqn:E; [|reflexivity].
  apply andb_prop in E. destruct E as [E1 E2].
  apply N.leb_le in E1. apply N.leb_le in E2.
  unfold ascii_isspace.
  replace (N.leb (c + 32) 13) with false by (symmetry; apply N.leb_gt; lia).
  replace (N.leb (c + 32) 32) with false by (symmetry; apply N.leb_gt; lia).
  replace (N.leb c 13) with false by (symmetry; apply N.leb_gt; lia).
  replace (N.leb c 32) with false by (symmetry; apply N.leb_gt; lia).
  now rewrite !andb_false_r.
Qed.

Lemma all_ascii_map_lower (s : pystr) : all_ascii s -> all_ascii (map ascii_lower_cp s).
Proof.
  unfold all_ascii. induction 1; simpl; constructor; auto using ascii_lower_cp_ascii.
Qed.

Lemma map_lower_idem (s : pystr) :
  map ascii_lower_cp (map ascii_lower_cp s) = map ascii_lower_cp s.
Proof.
  rewrite map_map. apply map_ext. intros c. apply ascii_lower_cp_idem.
Qed.

Section StringFacts.

Variable U : UnicodeDB.

Lemma split_ws_words (s : pystr) : Forall (is_word U) (split_ws U s).
Proof.
  induction s as [|c s IH]; simpl.
  - constructor.
  - destruct (isspace U c) eqn:Ec; [assumption|].
    destruct s as [|d s'].
    + constructor; [|constructor]. split; [discriminate|]. now repeat constructor.
    + destruct (isspace U d) eqn:Ed.
      * constructor; [|assumption]. split; [discriminate|]. now repeat constructor.
      * destruct (split_ws U (d :: s')) as [|w ws] eqn:Ew.
        -- constructor; [|constructor]. split; [discriminate|]. now repeat constructor.
        -- inversion IH as [|? ? [Hne Hw] Hws]; subst.
           constructor; [|assumption]. split; [discriminate|]. now constructor.
Qed.

Lemma split_ws_chars (P : N -> Prop) (s : pystr) :
  Forall P s -> Forall (Forall P) (split_ws U s).
Proof.
  induction 1 as [|c s Hc Hs IH]; simpl.
  - constructor.
  - destruct (isspace U c); [assumption|].
    destruct s as [|d s'].
    + now repeat constructor.
    + destruct (isspace U d).
      * constructor; [now repeat constructor | assumption].
      * destruct (split_ws U (d :: s')) as [|w ws].
        -- now repeat constructor.
        -- inversion IH; subst. constructor; [now constructor | assumption].
Qed.

Lemma split_ws_one_word (w : pystr) : is_word U w -> split_ws U w = [w].
Proof.
  intros [Hne Hw]. induction Hw as [|c w Hc Hw IH]; [congruence|].
  simpl. rewrite Hc. destruct w as [|d w']; [reflexivity|].
  inversion Hw as [|? ? Hd _]; subst. rewrite Hd.
  rewrite IH by discriminate. reflexivity.
Qed.

Lemma split_ws_word_then_space (w rest : pystr) (sp : N) :
  is_word U w -> isspace U sp = true ->
  split_ws U (w ++ sp :: rest) = w :: split_ws U rest.
Proof.
  intros [Hne Hw] Hsp. induction Hw as [|c w Hc Hw IH]; [congruence|].
  cbn [app]. cbn [split_ws]. rewrite Hc. destruct w as [|d w'].
  - cbn [app]. rewrite Hsp. cbn [split_ws]. rewrite Hsp. reflexivity.
  - cbn [app]. inversion Hw as [|? ? Hd _]; subst. rewrite Hd.
    cbn [app] in IH. rewrite IH by discriminate. reflexivity.
Qed.

Lemma split_ws_join (ws : list pystr) :
  isspace U 32 = true -> Forall (is_word U) ws ->
  split_ws U (join (lit " ") ws) = ws.
Proof.
  intros Hsp. induction 1 as [|w ws Hw Hws IH]; [reflexivity|].
  destruct ws as [|w' ws'].
  - simpl. now apply split_ws_one_word.
  - change (join (lit " ") (w :: w' :: ws'))
      with (w ++ 32%N :: join (lit " ") (w' :: ws')).
    rewrite split_ws_word_then_space by assumption. now rewrite IH.
Qed.

Lemma collapse_ws_idem (s : pystr) :
  isspace U 32 = true -> collapse_ws U (collapse_ws U s) = collapse_ws U s.
Proof.
  intros Hsp. unfold collapse_ws at 1.
  unfold collapse_ws at 1. rewrite split_ws_join; [reflexivity | assumption |].
  apply split_ws_words.
Qed.

Lemma split_ws_map (f : N -> N) (s : pystr) :
  (forall c, In c s -> isspace U (f c) = isspace U c) ->
  split_ws U (map f s) = map (map f) (split_ws U s).
Proof.
  induction s as [|c s IH]; intros Hf; [reflexivity|].
  assert (IH' : split_ws U (map f s) = map (map f) (split_ws U s))
    by (apply IH; intros; apply Hf; now right).
  cbn [map split_ws]. rewrite (Hf c) by now left.
  destruct (isspace U c); [assumption|].
  destruct s as [|d s']; [reflexivity|].
  cbn [map] in *. rewrite (Hf d) by (right; now left).
  destruct (isspace U d).
  - cbn [map]. now rewrite IH'.
  - rewrite IH'. destruct (split_ws U (d :: s')); reflexivity.
Qed.

Lemma join_map (f : N -> N) (sep : pystr) (ws : list pystr) :
  join (map f sep) (map (map f) ws) = map f (join sep ws).
Proof.
  induction ws as [|w ws IH]; [reflexivity|].
  destruct ws as [|w' ws']; [reflexivity|].
  change (join sep (w :: w' :: ws')) with (w ++ sep ++ join sep (w' :: ws')).
  rewrite !map_app, <- IH. reflexivity.
Qed.

End StringFacts.

(** The fragment satisfies the laws. *)
Lemma fragment_laws : UnicodeLaws Fragment.db.
Proof.
  split.
  - intros c Hc. simpl. unfold Fragment.isspace_cp. now rewrite Hc.
  - intros s Hs. simpl. apply map_ext_in. intros c Hc.
    unfold Fragment.lower_cp.
    unfold all_ascii in Hs. rewrite Forall_forall in Hs. now rewrite (Hs c Hc).
  - intros s Hs. simpl. induction Hs as [|c s Hc Hs IH]; [reflexivity|].
    simpl. rewrite IH. unfold Fragment.decomp_cp. now rewrite Hc.
Qed.

Section NormFacts.

Variable U : UnicodeDB.
Hypothesis laws : UnicodeLaws U.

Lemma isspace_space : isspace U 32 = true.
Proof. now rewrite isspace_ascii. Qed.

Lemma all_ascii_collapse_ws (s : pystr) : all_ascii s -> all_ascii (collapse_ws U s).
Proof.
  intros Hs. unfold collapse_ws. apply all_ascii_join.
  - now repeat constructor.
  - now apply split_ws_chars.
Qed.

Lemma all_ascii_case (cs : bool) (s : pystr) : all_ascii s -> all_ascii (ascii_case cs s).
Proof. unfold ascii_case. destruct cs; simpl; auto using all_ascii_map_lower. Qed.

Lemma ascii_case_idem (cs : bool) (s : pystr) :
  ascii_case cs (ascii_case cs s) = ascii_case cs s.
Proof. unfold ascii_case. destruct cs; simpl; auto using map_lower_idem. Qed.

(** On ASCII text [norm] only collapses white space and folds case. *)
Lemma norm_ascii (cs : bool) (s : pystr) :
  all_ascii s -> norm U (Some s) cs = ascii_case cs (collapse_ws U s).
Proof.
  intros Hs. pose proof (all_ascii_collapse_ws Hs) as Hc.
  unfold norm, ascii_case. destruct (negb cs).
  - rewrite lower_ascii by assumption.
    rewrite nfkd_ascii by now apply all_ascii_map_lower.
    apply ascii_ignore_id. now apply all_ascii_map_lower.
  - rewrite nfkd_ascii by assumption. now apply ascii_ignore_id.
Qed.

Lemma norm_all_ascii (cs : bool) (s : option pystr) : all_ascii (norm U s cs).
Proof.
  destruct s as [s|]; simpl; [apply ascii_ignore_all_ascii | constructor].
Qed.

Lemma collapse_ws_case (cs : bool) (s : pystr) :
  all_ascii s -> collapse_ws U (ascii_case cs s) = ascii_case cs (collapse_ws U s).
Proof.
  intros Hs. unfold ascii_case. destruct (negb cs); [|reflexivity].
  unfold collapse_ws. rewrite split_ws_map.
  - change (lit " ") with (map ascii_lower_cp (lit " ")) at 1. apply join_map.
  - intros c Hc. unfold all_ascii in Hs. rewrite Forall_forall in Hs.
    rewrite !isspace_ascii by auto using ascii_lower_cp_ascii.
    apply ascii_lower_cp_isspace.
Qed.

Lemma norm_ascii_clean (cs : bool) (s : pystr) :
  all_ascii s -> clean U cs (norm U (Some s) cs).
Proof.
  intros Hs. rewrite norm_ascii by assumption. split.
  - rewrite collapse_ws_case by now apply all_ascii_collapse_ws.
    now rewrite collapse_ws_idem by apply isspace_space.
  - apply ascii_case_idem.
Qed.

Lemma norm_fixed_iff_clean (cs : bool) (y : pystr) :
  all_ascii y -> (norm U (Some y) cs = y <-> clean U cs y).
Proof.
  intros Hy. rewrite norm_ascii by assumption. split.
  - intros E. split.
    + rewrite <- E at 1. rewrite collapse_ws_case by now apply all_ascii_collapse_ws.
      now rewrite collapse_ws_idem by apply isspace_space.
    + rewrite <- E at 1. now rewrite ascii_case_idem.
  - intros [Hc Hl]. now rewrite Hc.
Qed.

End NormFacts.

(** C6, as amended: a second pass of [norm] returns its argument exactly when
    the first pass left white space collapsed and (in case-insensitive mode)
    no upper-case ASCII letter; every ASCII input is such, so on ASCII input
    [norm] is idempotent. *)
Theorem norm_idempotent_iff_clean (U : UnicodeDB) (laws : UnicodeLaws U)
  (case_sensitive : bool) (x : pystr) :
  (norm U (Some (norm U (Some x) case_sensitive)) case_sensitive
     = norm U (Some x) case_sensitive
   <-> clean U case_sensitive (norm U (Some x) case_sensitive))
  /\ (all_ascii x ->
      norm U (Some (norm U (Some x) case_sensitive)) case_sensitive
        = norm U (Some x) case_sensitive).
Proof.
  split.
  - apply norm_fixed_iff_clean; [assumption | apply norm_all_ascii].
  - intros Hx. apply norm_fixed_iff_clean; [assumption | apply norm_all_ascii |].
    now apply norm_ascii_clean.
Qed.

(** The amended C6 at "Café  Noir" (with E WITH ACUTE, U+00E9), which is not
    ASCII and normalizes to clean text. *)
Lemma norm_idempotent_iff_clean_witness :
  let x := lit "Caf" ++ [0xE9%N] ++ lit "  Noir" in
  norm Fragment.db (Some (norm Fragment.db (Some x) false)) false
    = norm Fragment.db (Some x) false.
Proof.
  intro x.
  apply (proj1 (norm_idempotent_iff_clean fragment_laws false x)).
  split; vm_compute; reflexivity.
Defined.

(** C6 fails as stated: DIAERESIS (U+00A8) is not white space, and its
    compatibility decomposition starts with a space, which [norm] leaves at
    the end of "a¨"; the second pass removes it. *)
Lemma norm_not_idempotent :
  norm Fragment.db (Some (norm Fragment.db (Some [0x61; 0xA8]%N) false)) false
    <> norm Fragment.db (Some [0x61; 0xA8]%N) false.
Proof. vm_compute. discriminate. Qed.

(** The same with TRADE MARK SIGN (U+2122), which has no lower case and
    decomposes to the capitals "TM". *)
Example norm_not_idempotent_case :
  norm Fragment.db (Some [0x2122]%N) false = lit "TM"
  /\ norm Fragment.db (Some (lit "TM")) false = lit "tm".
Proof. split; vm_compute; reflexivity. Qed.

(** ** Grouping keys *)

Lemma app_sep_inj (c : N) (t1 t2 r1 r2 : pystr) :
  ~ In c t1 -> ~ In c t2 ->
  t1 ++ c :: r1 = t2 ++ c :: r2 -> t1 = t2 /\ r1 = r2.
Proof.
  revert t2. induction t1 as [|a t1 IH]; intros [|b t2] H1 H2 E; simpl in *.
  - split; congruence.
  - injection E as -> _. exfalso. apply H2. now left.
  - injection E as -> _. exfalso. apply H1. now left.
  - injection E as -> E.
    destruct (IH t2) as [-> ->]; auto.
Qed.

Lemma make_key_joined (U : UnicodeDB) (by_ : pystr) (it : Item) (uip cs : bool) :
  by_ = lit "title+author" \/ by_ = lit "title+series" ->
  make_key U it by_ uip cs
    = title_for_group U it uip cs ++ lit "||" ++ second_component U by_ it cs.
Proof.
  intros [-> | ->]; reflexivity.
Qed.

(** C5, as amended: under the [title+author] and [title+series] policies the
    key is the normalized title, the delimiter and the normalized second
    field; for two items whose normalized titles contain no [|] (code point
    124) the keys are equal exactly when both normalized components are. *)
Theorem make_key_injective_without_bar (U : UnicodeDB) (by_ : pystr)
  (use_ignore_prefix case_sensitive : bool) (it1 it2 : Item) :
  by_ = lit "title+author" \/ by_ = lit "title+series" ->
  ~ In 124%N (title_for_group U it1 use_ignore_prefix case_sensitive) ->
  ~ In 124%N (title_for_group U it2 use_ignore_prefix case_sensitive) ->
  (make_key U it1 by_ use_ignore_prefix case_sensitive
     = make_key U it2 by_ use_ignore_prefix case_sensitive
   <-> title_for_group U it1 use_ignore_prefix case_sensitive
         = title_for_group U it2 use_ignore_prefix case_sensitive
       /\ second_component U by_ it1 case_sensitive
         = second_component U by_ it2 case_sensitive).
Proof.
  intros Hby H1 H2. rewrite !make_key_joined by assumption.
  change (lit "||") with [124%N; 124%N]. cbn [app]. split.
  - intros E. apply app_sep_inj in E; [|assumption..].
    destruct E as [Et Er]. split; congruence.
  - intros [-> ->]. reflexivity.
Qed.

(** The amended C5 on two copies of one book under [title+author]. *)
Lemma make_key_injective_without_bar_witness :
  make_key Fragment.db (book "1" "Dune" "Frank Herbert") (lit "title+author") true false
    = make_key Fragment.db (book "2" "  DUNE " "frank  herbert")
        (lit "title+author") true false.
Proof.
  apply (make_key_injective_without_bar Fragment.db (by_ := lit "title+author")
           true false (book "1" "Dune" "Frank Herbert")
           (book "2" "  DUNE " "frank  herbert")).
  - left. reflexivity.
  - vm_compute. intuition discriminate.
  - vm_compute. intuition discriminate.
  - split; vm_compute; reflexivity.
Defined.

(** C5 fails as stated: [norm] keeps the character [|], so the delimiter
    occurs in normalized text, and the books ("a||b", "c") and ("a", "b||c")
    get the same [title+author] key with different normalized titles. *)
Lemma make_key_collision :
  contains (lit "||")
    (title_for_group Fragment.db (book "1" "a||b" "c") true false) = true
  /\ make_key Fragment.db (book "1" "a||b" "c") (lit "title+author") true false
      = make_key Fragment.db (book "2" "a" "b||c") (lit "title+author") true false
  /\ title_for_group Fragment.db (book "1" "a||b" "c") true false
      <> title_for_group Fragment.db (book "2" "a" "b||c") true false.
Proof. split; [|split]; vm_compute; [reflexivity | reflexivity | discriminate]. Qed.

(** ** Grouping *)

Section GroupFacts.

Variable key_of : Item -> pystr.

Lemma groups_append_keyed (it : Item) (groups : list (pystr * list Item)) :
  key_of it <> [] ->
  Forall (keyed_by key_of) groups ->
  Forall (keyed_by key_of) (groups_append (key_of it) it groups).
Proof.
  intros Hne. induction 1 as [|[k g] groups [Hk Hg] Hrest IH]; simpl.
  - constructor; [|constructor]. split; [assumption|].
    intros it' [<- | []]. reflexivity.
  - destruct (str_eqb (key_of it) k) eqn:E.
    + apply str_eqb_eq in E. constructor; [|assumption]. split; [assumption|].
      simpl in *. intros it' Hin. apply in_app_or in Hin.
      destruct Hin as [Hin | [<- | []]]; auto.
    + constructor; [|assumption]. now split.
Qed.

Lemma fold_groups_keyed (items : list Item) (groups : list (pystr * list Item)) :
  Forall (keyed_by key_of) groups ->
  Forall (keyed_by key_of)
    (fold_left
       (fun groups it =>
          let key := key_of it in
          if truthy key then groups_append key it groups else groups)
       items groups).
Proof.
  revert groups. induction items as [|it items IH]; intros groups H; simpl.
  - assumption.
  - apply IH. destruct (truthy _) eqn:E; [|assumption].
    apply groups_append_keyed; [|assumption].
    intros E'. rewrite E' in E. discriminate.
Qed.

End GroupFacts.

Lemma build_groups_keyed (U : UnicodeDB) (by_ : pystr)
  (use_ignore_prefix case_sensitive : bool) (items : list Item) :
  Forall (keyed_by (fun it => make_key U it by_ use_ignore_prefix case_sensitive))
         (build_groups U by_ use_ignore_prefix case_sensitive items).
Proof.
  apply (@fold_groups_keyed
           (fun it => make_key U it by_ use_ignore_prefix case_sensitive)).
  constructor.
Qed.

(** C7: every group the grouping phase hands on has at least two members,
    its members all have the same grouping key under the active policy, and
    none of them has the empty key. *)
Theorem duplicate_groups_invariant (U : UnicodeDB) (by_ : pystr)
  (use_ignore_prefix case_sensitive : bool) (items : list Item) :
  Forall
    (fun kg : pystr * list Item =>
       2 <= length (snd kg)
       /\ (forall a b, In a (snd kg) -> In b (snd kg) ->
           make_key U a by_ use_ignore_prefix case_sensitive
             = make_key U b by_ use_ignore_prefix case_sensitive)
       /\ (forall it, In it (snd kg) ->
           make_key U it by_ use_ignore_prefix case_sensitive <> []))
    (duplicate_groups U by_ use_ignore_prefix case_sensitive items).
Proof.
  apply Forall_forall. intros [k g] Hin. unfold duplicate_groups in Hin.
  apply filter_In in Hin. destruct Hin as [Hin Hlen]. simpl in *.
  pose proof (build_groups_keyed U by_ use_ignore_prefix case_sensitive items) as H.
  rewrite Forall_forall in H. destruct (H _ Hin) as [Hk Hg]. simpl in *.
  split; [|split].
  - apply Bool.negb_true_iff in Hlen. apply Nat.leb_gt in Hlen. lia.
  - intros a b Ha Hb. now rewrite (Hg a Ha), (Hg b Hb).
  - intros it Hit. now rewrite (Hg it Hit).
Qed.

(** The grouping phase on three books, two of them copies with differently
    spelt titles and one without a title: one group of two. *)
Example duplicate_groups_run :
  map (fun kg => (fst kg, map it_id (snd kg)))
      (duplicate_groups Fragment.db (lit "title") true false
         [book "1" "Dune" "Frank Herbert"; book "2" "" "Nobody";
          book "3" "Emma" "Jane Austen"; book "4" " dune" "F. Herbert";
          book "5" "" "Nobody"])
  = [(lit "dune", [lit "1"; lit "4"])].
Proof. vm_compute. reflexivity. Qed.

(** ** Keeper selection *)

Section SortFacts.

Variable A : Type.
Variable key : A -> Z.

Lemma insert_sorted_perm (x : A) (l : list A) :
  Permutation (insert_sorted (key_leb key) x l) (x :: l).
Proof.
  induction l as [|y l IH]; simpl.
  - apply Permutation_refl.
  - destruct (key_leb key x y).
    + apply Permutation_refl.
    + eapply Permutation_trans; [apply perm_skip, IH | apply perm_swap].
Qed.

Lemma sorted_perm (l : list A) : Permutation (sorted (key_leb key) l) l.
Proof.
  induction l as [|x l IH]; simpl.
  - constructor.
  - eapply Permutation_trans; [apply insert_sorted_perm | now apply perm_skip].
Qed.

Lemma insert_sorted_ordered (x : A) (l : list A) :
  StronglySorted (fun a b => (key a <= key b)%Z) l ->
  StronglySorted (fun a b => (key a <= key b)%Z) (insert_sorted (key_leb key) x l).
Proof.
  induction 1 as [|y l Hl IH Hy]; simpl.
  - constructor; constructor.
  - destruct (key_leb key x y) eqn:E; unfold key_leb in E.
    + apply Z.leb_le in E. constructor; [now constructor|].
      constructor; [assumption|].
      rewrite Forall_forall in *. intros z Hz. specialize (Hy z Hz). lia.
    + apply Z.leb_gt in E. constructor; [assumption|].
      rewrite Forall_forall in *. intros z Hz.
      apply (Permutation_in _ (insert_sorted_perm x l)) in Hz.
      destruct Hz as [<- | Hz]; [lia | auto].
Qed.

Lemma sorted_ordered (l : list A) :
  StronglySorted (fun a b => (key a <= key b)%Z) (sorted (key_leb key) l).
Proof.
  induction l as [|x l IH]; simpl; [constructor | now apply insert_sorted_ordered].
Qed.

(** Stability: elements with the same key keep their relative order. *)
Lemma insert_sorted_stable (z : Z) (x : A) (l : list A) :
  filter (fun a => Z.eqb (key a) z) (insert_sorted (key_leb key) x l)
    = filter (fun a => Z.eqb (key a) z) (x :: l).
Proof.
  induction l as [|y l IH]; [reflexivity|].
  cbn [insert_sorted]. destruct (key_leb key x y) eqn:E; unfold key_leb in E; [reflexivity|].
  apply Z.leb_gt in E. cbn [filter] in *. rewrite IH.
  destruct (Z.eqb (key x) z) eqn:Ex; [|reflexivity].
  apply Z.eqb_eq in Ex.
  replace (Z.eqb (key y) z) with false; [reflexivity|].
  symmetry. apply Z.eqb_neq. lia.
Qed.

Lemma sorted_stable (z : Z) (l : list A) :
  filter (fun a => Z.eqb (key a) z) (sorted (key_leb key) l)
    = filter (fun a => Z.eqb (key a) z) l.
Proof.
  induction l as [|x l IH]; [reflexivity|].
  cbn [sorted]. rewrite insert_sorted_stable. cbn [filter]. now rewrite IH.
Qed.

Lemma insert_sorted_head (x : A) (l : list A) :
  nth_error (insert_sorted (key_leb key) x l) 0
    = Some (match l with
            | [] => x
            | y :: _ => if key_leb key x y then x else y
            end).
Proof.
  destruct l as [|y l]; simpl; [reflexivity|].
  destruct (key_leb key x y); reflexivity.
Qed.

(** The head of the sorted list is the first element of the input with the
    least key. *)
Lemma sorted_head_first_min (l : list A) :
  l <> [] ->
  exists k i,
    nth_error (sorted (key_leb key) l) 0 = Some k
    /\ nth_error l i = Some k
    /\ (forall x, In x l -> (key k <= key x)%Z)
    /\ (forall j x, j < i -> nth_error l j = Some x -> (key k < key x)%Z).
Proof.
  induction l as [|x l IH]; [congruence|]. intros _.
  cbn [sorted]. rewrite insert_sorted_head.
  destruct l as [|y l].
  - exists x, 0. simpl. repeat split.
    + intros z [<- | []]. lia.
    + intros j z Hj. lia.
  - destruct IH as (m & i & Hm & Hi & Hmin & Hfirst); [discriminate|].
    destruct (sorted (key_leb key) (y :: l)) as [|m' rest] eqn:Es; [discriminate|].
    simpl in Hm. injection Hm as ->.
    destruct (key_leb key x m) eqn:E; unfold key_leb in E.
    + apply Z.leb_le in E. exists x, 0. repeat split.
      * intros z [<- | Hz]; [lia|]. specialize (Hmin z Hz). lia.
      * intros j z Hj. lia.
    + apply Z.leb_gt in E. exists m, (S i). repeat split.
      * assumption.
      * intros z [<- | Hz]; [lia | auto].
      * intros [|j] z Hj Hz; simpl in Hz.
        -- injection Hz as <-. assumption.
        -- apply (Hfirst j); [lia | assumption].
Qed.

End SortFacts.

(** C8: on a non-empty list the keeper selector returns an item with the
    least [addedAt] timestamp, and of the items with that timestamp the one
    that comes first in the list. *)
Theorem choose_keeper_earliest_first (items : list Item) :
  items <> [] ->
  exists keeper i,
    choose_keeper items = Some keeper
    /\ nth_error items i = Some keeper
    /\ (forall it, In it items -> (item_added_at keeper <= item_added_at it)%Z)
    /\ (forall j it, j < i -> nth_error items j = Some it ->
        (item_added_at keeper < item_added_at it)%Z).
Proof.
  intros Hne. apply (sorted_head_first_min item_added_at Hne).
Qed.

(** C8 on the timestamps 30, 10, 20, 10: the keeper is the first of the two
    items stamped 10. *)
Lemma choose_keeper_earliest_first_witness :
  exists keeper i,
    choose_keeper [stamped "a" (Some 30%Z); stamped "b" (Some 10%Z);
                   stamped "c" (Some 20%Z); stamped "d" (Some 10%Z)] = Some keeper
    /\ nth_error [stamped "a" (Some 30%Z); stamped "b" (Some 10%Z);
                  stamped "c" (Some 20%Z); stamped "d" (Some 10%Z)] i = Some keeper
    /\ (forall it,
        In it [stamped "a" (Some 30%Z); stamped "b" (Some 10%Z);
               stamped "c" (Some 20%Z); stamped "d" (Some 10%Z)] ->
        (item_added_at keeper <= item_added_at it)%Z)
    /\ (forall j it, j < i ->
        nth_error [stamped "a" (Some 30%Z); stamped "b" (Some 10%Z);
                   stamped "c" (Some 20%Z); stamped "d" (Some 10%Z)] j = Some it ->
        (item_added_at keeper < item_added_at it)%Z).
Proof.
  apply (@choose_keeper_earliest_first
           [stamped "a" (Some 30%Z); stamped "b" (Some 10%Z);
            stamped "c" (Some 20%Z); stamped "d" (Some 10%Z)]).
  discriminate.
Defined.

Example choose_keeper_run :
  option_map it_id
    (choose_keeper [stamped "a" (Some 30%Z); stamped "b" (Some 10%Z);
                    stamped "c" (Some 20%Z); stamped "d" (Some 10%Z)])
  = Some (lit "b").
Proof. reflexivity. Qed.

Lemma item_added_at_missing (it : Item) :
  missing_added_at it -> item_added_at it = 0%Z.
Proof.
  intros [H1 H2]. unfold item_added_at. now rewrite H1, H2.
Qed.

(** C10: an item without an [addedAt] value at either level has timestamp 0;
    hence, in a list that holds such an item and otherwise only items with a
    positive timestamp, the keeper is an item without an [addedAt] value. *)
Theorem choose_keeper_missing_added_at :
  (forall it, missing_added_at it -> item_added_at it = 0%Z)
  /\ (forall items,
      (exists it, In it items /\ missing_added_at it) ->
      (forall it, In it items -> missing_added_at it \/ (0 < item_added_at it)%Z) ->
      exists keeper,
        choose_keeper items = Some keeper
        /\ In keeper items /\ missing_added_at keeper).
Proof.
  split; [exact item_added_at_missing|].
  intros items (m & Hm & Hmiss) Hall.
  assert (Hne : items <> []) by (intros ->; destruct Hm).
  destruct (sorted_head_first_min item_added_at Hne)
    as (k & i & Hk & Hi & Hmin & _).
  exists k. split; [exact Hk|].
  assert (Hin : In k items) by (eapply nth_error_In; eassumption).
  split; [assumption|].
  destruct (Hall k Hin) as [Hmk | Hpos]; [assumption|].
  specialize (Hmin m Hm). rewrite (item_added_at_missing Hmiss) in Hmin. lia.
Qed.

Example choose_keeper_missing_run :
  option_map it_id
    (choose_keeper [stamped "a" (Some 30%Z); stamped "b" None; stamped "c" (Some 20%Z)])
  = Some (lit "b").
Proof. reflexivity. Qed.

(** C10 on an item without [addedAt] between two stamped items. *)
Lemma choose_keeper_missing_added_at_witness :
  exists keeper,
    choose_keeper [stamped "a" (Some 30%Z); stamped "b" None; stamped "c" (Some 20%Z)]
      = Some keeper
    /\ In keeper [stamped "a" (Some 30%Z); stamped "b" None; stamped "c" (Some 20%Z)]
    /\ missing_added_at keeper.
Proof.
  apply (proj2 choose_keeper_missing_added_at
           [stamped "a" (Some 30%Z); stamped "b" None; stamped "c" (Some 20%Z)]).
  - exists (stamped "b" None). split; [right; left; reflexivity | split; reflexivity].
  - intros it [<- | [<- | [<- | []]]].
    + right. reflexivity.
    + left. split; reflexivity.
    + right. reflexivity.
Defined.

(** ** Format classification *)

Lemma mem_In (x : pystr) (l : list pystr) : mem x l = true <-> In x l.
Proof.
  unfold mem. rewrite existsb_exists. split.
  - intros (y & Hy & E). apply str_eqb_eq in E. now subst.
  - intros H. exists x. split; [assumption | apply str_eqb_refl].
Qed.

Lemma mem_app (x : pystr) (a b : list pystr) : mem x (a ++ b) = mem x a || mem x b.
Proof. apply existsb_app. Qed.

Lemma mem_not_In (x : pystr) (l : list pystr) : mem x l = false <-> ~ In x l.
Proof.
  rewrite <- mem_In. destruct (mem x l); split; congruence.
Qed.

Lemma first_occurrences_from_In (l earlier : list pystr) (x : pystr) :
  In x (first_occurrences_from earlier l) <-> In x l /\ ~ In x earlier.
Proof.
  revert earlier. induction l as [|y l IH]; intros earlier; simpl.
  - tauto.
  - destruct (mem y earlier) eqn:E.
    + apply mem_In in E. rewrite IH, in_app_iff. simpl. split.
      * intros [H1 H2]. tauto.
      * intros [[<- | H1] H2]; [tauto|]. split; [assumption|].
        intros [H | [<- | []]]; tauto.
    + apply mem_not_In in E. simpl. rewrite IH, in_app_iff. simpl. split.
      * intros [<- | [H1 H2]]; tauto.
      * intros [[<- | H1] H2]; [tauto|].
        destruct (pystr_eq_dec y x) as [<- | Hne]; [tauto|].
        right. split; [assumption|]. intros [H | [H | []]]; tauto.
Qed.

Lemma first_occurrences_from_NoDup (l earlier : list pystr) :
  NoDup (first_occurrences_from earlier l).
Proof.
  revert earlier. induction l as [|y l IH]; intros earlier; simpl.
  - constructor.
  - destruct (mem y earlier); [apply IH|].
    constructor; [|apply IH].
    rewrite first_occurrences_from_In, in_app_iff. simpl. tauto.
Qed.

Lemma first_occurrences_from_snoc (p earlier : list pystr) (x : pystr) :
  first_occurrences_from earlier (p ++ [x])
    = first_occurrences_from earlier p ++ (if mem x (earlier ++ p) then [] else [x]).
Proof.
  revert earlier. induction p as [|y p IH]; intros earlier; simpl.
  - rewrite app_nil_r. destruct (mem x earlier); reflexivity.
  - rewrite IH, <- app_assoc. simpl. destruct (mem y earlier); reflexivity.
Qed.

Lemma first_occurrences_NoDup_id (l earlier : list pystr) :
  NoDup l -> (forall x, In x l -> ~ In x earlier) ->
  first_occurrences_from earlier l = l.
Proof.
  intros Hl. revert earlier. induction Hl as [|y l Hy Hl IH]; intros earlier He; simpl.
  - reflexivity.
  - replace (mem y earlier) with false
      by (symmetry; apply mem_not_In, He; now left).
    f_equal. apply IH. intros x Hx. rewrite in_app_iff. simpl.
    intros [H | [<- | []]]; [|contradiction].
    apply (He x); [now right | assumption].
Qed.

(** The [seen]/[out] loop computes the first occurrences. *)
Lemma dedup_loop_first_occurrences (l seen out earlier : list pystr) :
  (forall x, mem x seen = mem x earlier) ->
  dedup_loop l seen out = out ++ first_occurrences_from earlier l.
Proof.
  revert seen out earlier. induction l as [|f l IH]; intros seen out earlier Hs; simpl.
  - now rewrite app_nil_r.
  - fold (mem f seen). rewrite (Hs f). destruct (mem f earlier) eqn:E.
    + apply IH. intros x. rewrite mem_app, Hs. simpl.
      destruct (str_eqb x f) eqn:Ex.
      * apply str_eqb_eq in Ex. subst. now rewrite E.
      * now rewrite !orb_false_r.
    + rewrite (IH (f :: seen) (out ++ [f]) (earlier ++ [f])).
      * now rewrite <- app_assoc.
      * intros x. rewrite mem_app. simpl. fold (mem x seen). rewrite Hs.
        now rewrite orb_false_r, orb_comm.
Qed.

Lemma dedup_loop_spec (l : list pystr) : dedup_loop l [] [] = first_occurrences l.
Proof. now rewrite (dedup_loop_first_occurrences l [] [] []). Qed.

(** *** [Counter] *)

Lemma counter_add_present (n : pystr -> nat) (x : pystr) (ks : list pystr) :
  NoDup ks -> In x ks ->
  counter_add x (map (fun y => (y, n y)) ks)
    = map (fun y => (y, if str_eqb x y then S (n y) else n y)) ks.
Proof.
  induction 1 as [|y ks Hy Hks IH]; intros Hin; [destruct Hin|].
  simpl. destruct (str_eqb x y) eqn:E.
  - apply str_eqb_eq in E. subst y. f_equal.
    apply map_ext_in. intros z Hz.
    replace (str_eqb x z) with false; [reflexivity|].
    symmetry. apply str_eqb_neq. intros ->. contradiction.
  - apply str_eqb_neq in E. destruct Hin as [-> | Hin]; [congruence|].
    now rewrite IH.
Qed.

Lemma counter_add_absent (n : pystr -> nat) (x : pystr) (ks : list pystr) :
  ~ In x ks ->
  counter_add x (map (fun y => (y, n y)) ks) = map (fun y => (y, n y)) ks ++ [(x, 1)].
Proof.
  induction ks as [|y ks IH]; intros Hni; simpl; [reflexivity|].
  replace (str_eqb x y) with false
    by (symmetry; apply str_eqb_neq; intros ->; apply Hni; now left).
  rewrite IH; [reflexivity|]. intros H. apply Hni. now right.
Qed.

Lemma frequency_snoc (p : list pystr) (x y : pystr) :
  frequency (p ++ [x]) y = if str_eqb x y then S (frequency p y) else frequency p y.
Proof.
  unfold frequency. rewrite count_occ_app. simpl.
  destruct (pystr_eq_dec x y) as [-> | Hne].
  - rewrite str_eqb_refl. lia.
  - replace (str_eqb x y) with false by (symmetry; now apply str_eqb_neq). lia.
Qed.

Lemma counter_add_frequency (p : list pystr) (x : pystr) :
  counter_add x (map (fun y => (y, frequency p y)) (first_occurrences p))
    = map (fun y => (y, frequency (p ++ [x]) y)) (first_occurrences (p ++ [x])).
Proof.
  unfold first_occurrences. rewrite first_occurrences_from_snoc. simpl.
  destruct (mem x p) eqn:E.
  - rewrite app_nil_r, counter_add_present.
    + apply map_ext. intros y. now rewrite frequency_snoc.
    + apply first_occurrences_from_NoDup.
    + apply first_occurrences_from_In. apply mem_In in E. tauto.
  - apply mem_not_In in E. rewrite counter_add_absent.
    + rewrite map_app. simpl. f_equal.
      * apply map_ext_in. intros y Hy. rewrite frequency_snoc.
        replace (str_eqb x y) with false; [reflexivity|].
        symmetry. apply str_eqb_neq. intros ->.
        apply first_occurrences_from_In in Hy. tauto.
      * rewrite frequency_snoc, str_eqb_refl. unfold frequency.
        now rewrite (proj1 (count_occ_not_In pystr_eq_dec p x) E).
    + rewrite first_occurrences_from_In. tauto.
Qed.

Lemma Counter_fold (l p : list pystr) :
  fold_left (fun c x => counter_add x c) l
            (map (fun y => (y, frequency p y)) (first_occurrences p))
    = map (fun y => (y, frequency (p ++ l) y)) (first_occurrences (p ++ l)).
Proof.
  revert p. induction l as [|x l IH]; intros p; simpl.
  - now rewrite app_nil_r.
  - rewrite counter_add_frequency, IH, <- app_assoc. reflexivity.
Qed.

(** [Counter(l)] lists the distinct elements of [l] in order of first
    occurrence, each with its number of occurrences. *)
Lemma Counter_spec (l : list pystr) :
  Counter l = map (fun y => (y, frequency l y)) (first_occurrences l).
Proof. exact (Counter_fold l []). Qed.

(** [max] returns the first entry with the greatest count. *)
Lemma max_first_spec (rest : list (pystr * nat)) (best : pystr * nat) :
  exists before after,
    best :: rest = before ++ max_first best rest :: after
    /\ Forall (fun e => snd e < snd (max_first best rest)) before
    /\ Forall (fun e => snd e <= snd (max_first best rest)) after.
Proof.
  revert best. induction rest as [|e rest IH]; intros best; simpl.
  - exists [], []. repeat split; constructor.
  - destruct (Nat.ltb (snd best) (snd e)) eqn:E.
    + apply Nat.ltb_lt in E.
      destruct (IH e) as (before & after & Heq & Hb & Ha).
      exists (best :: before), after. rewrite Heq. repeat split; [|assumption].
      constructor; [|assumption].
      assert (snd e <= snd (max_first e rest)).
      { destruct before as [|b before]; simpl in Heq.
        - injection Heq as Heq _. rewrite <- Heq. lia.
        - injection Heq as -> _. inversion Hb; subst. lia. }
      lia.
    + apply Nat.ltb_ge in E.
      destruct (IH best) as (before & after & Heq & Hb & Ha).
      destruct before as [|b before]; simpl in Heq.
      * injection Heq as Hm Hr. exists [], (e :: after).
        rewrite <- Hm in Ha |- *. subst after.
        split; [reflexivity|]. split; [constructor|].
        constructor; [lia | exact Ha].
      * injection Heq as Hbest Hr. subst b. exists (best :: e :: before), after.
        split; [simpl; now rewrite <- Hr|]. split; [|assumption].
        inversion Hb as [|? ? Hbest Hbefore]; subst.
        constructor; [assumption|]. constructor; [lia | assumption].
Qed.

(** [Counter(l).most_common(1)[0][0]] on a non-empty list. *)
Lemma most_common1_Counter (l : list pystr) :
  l <> [] ->
  exists f,
    option_map fst (nth_error (most_common1 (Counter l)) 0) = Some f
    /\ exists before after,
         first_occurrences l = before ++ f :: after
         /\ Forall (fun g => frequency l g < frequency l f) before
         /\ Forall (fun g => frequency l g <= frequency l f) after.
Proof.
  intros Hne. rewrite Counter_spec.
  destruct (first_occurrences l) as [|k ks] eqn:Ek.
  - exfalso. destruct l as [|x l]; [congruence|].
    assert (In x (first_occurrences (x :: l)))
      by (apply first_occurrences_from_In; simpl; tauto).
    rewrite Ek in *. contradiction.
  - cbn [map most_common1 nth_error option_map].
    destruct (max_first_spec (map (fun y => (y, frequency l y)) ks) (k, frequency l k))
      as (before & after & Heq & Hb & Ha).
    set (m := max_first (k, frequency l k) (map (fun y => (y, frequency l y)) ks)) in *.
    exists (fst m). split; [reflexivity|].
    change ((k, frequency l k) :: map (fun y => (y, frequency l y)) ks)
      with (map (fun y => (y, frequency l y)) (k :: ks)) in Heq.
    assert (Hm : In m (map (fun y => (y, frequency l y)) (k :: ks)))
      by (rewrite Heq; apply in_elt).
    apply in_map_iff in Hm. destruct Hm as (y & Hy & _).
    assert (Hfst : forall es : list (pystr * nat),
               (forall e, In e es -> In e (map (fun y => (y, frequency l y)) (k :: ks))) ->
               forall R : nat -> nat -> Prop,
               Forall (fun e => R (snd e) (snd m)) es ->
               Forall (fun g => R (frequency l g) (frequency l (fst m))) (map fst es)).
    { intros es Hsub R HR. apply Forall_forall. intros g Hg.
      apply in_map_iff in Hg. destruct Hg as (e & <- & He).
      rewrite Forall_forall in HR. specialize (HR e He).
      apply Hsub in He. apply in_map_iff in He. destruct He as (z & <- & _).
      rewrite <- Hy in *. exact HR. }
    exists (map fst before), (map fst after). repeat split.
    + transitivity (map fst (map (fun y => (y, frequency l y)) (k :: ks))).
      * rewrite map_map. simpl. now rewrite map_id.
      * rewrite Heq, map_app. reflexivity.
    + apply (Hfst before); [|exact Hb].
      intros e He. rewrite Heq. apply in_or_app. now left.
    + apply (Hfst after); [|exact Ha].
      intros e He. rewrite Heq. apply in_or_app. right. now right.
Qed.

(** *** No step of the classification raises *)

Lemma startswith_incl (p s : pystr) (c : N) :
  startswith p s = true -> In c p -> In c s.
Proof.
  revert s. induction p as [|a p IH]; intros s H Hc; [destruct Hc|].
  destruct s as [|b s]; [discriminate|]. simpl in H.
  apply andb_prop in H. destruct H as [Hab Hps]. apply N.eqb_eq in Hab. subst b.
  destruct Hc as [-> | Hc]; [now left | right; now apply IH].
Qed.

Lemma contains_incl (p s : pystr) (c : N) :
  contains p s = true -> In c p -> In c s.
Proof.
  induction s as [|b s IH]; simpl; intros H Hc.
  - rewrite orb_false_r in H. destruct p; [destruct Hc | discriminate].
  - apply orb_prop in H. destruct H as [H | H].
    + exact (@startswith_incl p (b :: s) c H Hc).
    + right. now apply IH.
Qed.

Lemma split1_two (c : N) (s : pystr) :
  In c s -> exists a b, split1 c s = [a; b].
Proof.
  induction s as [|d s IH]; intros H; [destruct H|]. simpl.
  destruct (N.eqb d c) eqn:E; [now exists [], s|].
  apply N.eqb_neq in E. destruct H as [-> | H]; [congruence|].
  destruct (IH H) as (a & b & ->). now exists (d :: a), b.
Qed.

Lemma collect_total (A : Type) (f : A -> option (list pystr)) (l : list A) :
  (forall x, exists t, f x = Some t) -> exists r, collect f l = Some r.
Proof.
  intros Hf. induction l as [|x l [r IH]]; simpl.
  - now exists [].
  - destruct (Hf x) as [t ->]. rewrite IH. now exists (t ++ r).
Qed.

Section FormatFacts.

Variable U : UnicodeDB.

Lemma mime_tokens_total (mt : pystr) : exists t, mime_tokens mt = Some t.
Proof.
  unfold mime_tokens. destruct (contains (lit "audio/") mt) eqn:E; [|now exists []].
  destruct (@split1_two 47%N mt) as (a & b & Hs).
  - apply (@contains_incl (lit "audio/") mt 47%N E). simpl. tauto.
  - unfold mime_subtype. rewrite Hs. simpl. now exists [b].
Qed.

Lemma file_tokens_total (lf : LibraryFile) : exists t, file_tokens U lf = Some t.
Proof.
  unfold file_tokens. destruct (negb _); [now exists []|].
  destruct (mime_tokens_total (lower U (or_empty (lf_mimeType lf)))) as [t ->].
  eexists. reflexivity.
Qed.

Lemma track_tokens_total (tr : Track) : exists t, track_tokens U tr = Some t.
Proof.
  unfold track_tokens.
  destruct (mime_tokens_total (lower U (or_empty (tr_mimeType tr)))) as [t ->].
  eexists. reflexivity.
Qed.

Lemma format_candidates_total (it : Item) :
  exists cands, format_candidates U it = Some cands.
Proof.
  unfold format_candidates.
  destruct (collect_total (file_tokens U) (or_default (it_libraryFiles it) [])
              file_tokens_total) as [fmts ->].
  destruct fmts; [|eexists; reflexivity].
  apply collect_total, track_tokens_total.
Qed.

(** [item_formats] returns the first occurrences of the normalized candidates,
    or the sentinel when there are none. *)
Lemma item_formats_spec (it : Item) :
  exists cands,
    normed_candidates U it = Some cands
    /\ item_formats U it
       = Some (match first_occurrences cands with
               | [] => [lit "unknown"]
               | d => d
               end).
Proof.
  destruct (format_candidates_total it) as [cands Hc].
  exists (map norm_format cands). unfold item_formats, normed_candidates.
  rewrite Hc. simpl. rewrite dedup_loop_spec. split; [reflexivity|].
  destruct (first_occurrences (map norm_format cands)); reflexivity.
Qed.

Lemma item_formats_NoDup (it : Item) (fmts : list pystr) :
  item_formats U it = Some fmts -> NoDup fmts /\ fmts <> [].
Proof.
  destruct (item_formats_spec it) as (cands & _ & ->). intros E.
  injection E as <-.
  pose proof (first_occurrences_from_NoDup cands []) as Hd.
  fold (first_occurrences cands) in Hd.
  destruct (first_occurrences cands).
  - split; [repeat constructor; intros [] | discriminate].
  - split; [assumption | discriminate].
Qed.

(** [dominant_format] returns the most frequent of the item's formats, the
    first of them among those tied. *)
Lemma dominant_format_spec (it : Item) (fmts : list pystr) :
  item_formats U it = Some fmts ->
  exists f, dominant_format U it = Some f /\ most_frequent_first f fmts.
Proof.
  intros Hf. destruct (item_formats_NoDup it Hf) as [Hd Hne].
  destruct (most_common1_Counter Hne) as (f & Hmc & before & after & Heq & Hb & Ha).
  exists f. split.
  - unfold dominant_format. rewrite Hf.
    destruct (nth_error (most_common1 (Counter fmts)) 0); [|discriminate].
    simpl in Hmc. now injection Hmc as ->.
  - exists before, after. unfold first_occurrences in Heq.
    rewrite first_occurrences_NoDup_id in Heq by (auto; intros ? ? []).
    auto.
Qed.

End FormatFacts.


(** Since the formats are distinct they are all tied, and the dominant format
    is the first of them. *)
Lemma dominant_format_first_token (U : UnicodeDB) (it : Item) :
  exists f rest, item_formats U it = Some (f :: rest) /\ dominant_format U it = Some f.
Proof.
  destruct (item_formats_spec U it) as (cands & _ & Hf).
  remember (match first_occurrences cands with
            | [] => [lit "unknown"]
            | d => d
            end) as fmts eqn:Efmts.
  clear Efmts.
  destruct (item_formats_NoDup U it Hf) as [Hd Hne].
  destruct (dominant_format_spec U it Hf) as (f & Hdom & before & after & Heq & Hb & _).
  subst fmts. destruct before as [|g before].
  - exists f, after. split; assumption.
  - exfalso. inversion Hb as [|? ? Hg _]; subst. unfold frequency in Hg.
    assert (Hf1 : count_occ pystr_eq_dec ((g :: before) ++ f :: after) f >= 1)
      by (apply count_occ_In, in_elt).
    assert (Hg1 : count_occ pystr_eq_dec ((g :: before) ++ f :: after) g >= 1)
      by (apply count_occ_In; now left).
    assert (Hf2 : count_occ pystr_eq_dec ((g :: before) ++ f :: after) f <= 1)
      by (apply NoDup_count_occ; assumption).
    lia.
Qed.

Example dominant_format_run :
  format_candidates Fragment.db (with_extensions "a" [lit "mp3"; lit "M4B"; lit ".m4b"])
    = Some [lit "mp3"; lit "m4b"; lit "m4b"]
  /\ item_formats Fragment.db (with_extensions "a" [lit "mp3"; lit "M4B"; lit ".m4b"])
     = Some [lit "mp3"; lit "m4b"]
  /\ dominant_format Fragment.db (with_extensions "a" [lit "mp3"; lit "M4B"; lit ".m4b"])
     = Some (lit "mp3").
Proof. repeat split; vm_compute; reflexivity. Qed.

(** *** Format buckets *)

Lemma dict_get_groups_append_same (k : pystr) (it : Item) (d : list (pystr * list Item)) :
  In it (dict_get k (groups_append k it d)).
Proof.
  induction d as [|[k' g] d IH]; simpl.
  - rewrite str_eqb_refl. now left.
  - destruct (str_eqb k k') eqn:E; simpl; rewrite E.
    + apply in_or_app. right. now left.
    + assumption.
Qed.

Lemma dict_get_groups_append_mono (k k' : pystr) (it x : Item)
  (d : list (pystr * list Item)) :
  In x (dict_get k' d) -> In x (dict_get k' (groups_append k it d)).
Proof.
  induction d as [|[k0 g] d IH]; simpl; [intros []|].
  destruct (str_eqb k k0) eqn:E; simpl.
  - destruct (str_eqb k' k0); [|auto]. intros H. apply in_or_app. now left.
  - destruct (str_eqb k' k0); auto.
Qed.

Lemma classify_buckets (U : UnicodeDB) (group : list Item) (acc : list (pystr * list Item)) :
  exists by_fmt,
    classify U group acc = Some by_fmt
    /\ (forall k x, In x (dict_get k acc) -> In x (dict_get k by_fmt))
    /\ (forall it, In it group ->
        exists f, dominant_format U it = Some f /\ In it (dict_get f by_fmt)).
Proof.
  revert acc. induction group as [|it group IH]; intros acc; simpl.
  - exists acc. repeat split; [auto | intros it []].
  - destruct (dominant_format_first_token U it) as (f & rest & _ & Hf). rewrite Hf.
    destruct (IH (groups_append f it acc)) as (by_fmt & Hc & Hmono & Hin).
    exists by_fmt. split; [assumption|]. split.
    + intros k x Hx. apply Hmono. now apply dict_get_groups_append_mono.
    + intros it' [<- | Hit']; [|auto].
      exists f. split; [assumption|]. apply Hmono, dict_get_groups_append_same.
Qed.

(** C9: classification never raises; an item without audio files and without
    tracks has no candidates, an item without candidates is classified
    [unknown], and in the prune loop every item of a group, such an item
    included, is filed in the bucket of its dominant format. *)
Theorem format_classification_never_raises (U : UnicodeDB) (it : Item) :
  (exists cands f, format_candidates U it = Some cands /\ dominant_format U it = Some f)
  /\ (Forall (fun lf => is_audio_file U lf = false) (or_default (it_libraryFiles it) []) ->
      or_default (media_tracks (item_media it)) [] = [] ->
      format_candidates U it = Some [])
  /\ (format_candidates U it = Some [] -> dominant_format U it = Some (lit "unknown"))
  /\ (forall group, In it group ->
      exists by_fmt f,
        classify U group [] = Some by_fmt
        /\ dominant_format U it = Some f
        /\ In it (dict_get f by_fmt)).
Proof.
  split; [|split; [|split]].
  - destruct (format_candidates_total U it) as [cands Hc].
    destruct (dominant_format_first_token U it) as (f & rest & _ & Hf).
    now exists cands, f.
  - intros Hfiles Htracks. unfold format_candidates. rewrite Htracks.
    assert (Hcol : collect (file_tokens U) (or_default (it_libraryFiles it) []) = Some []).
    { induction Hfiles as [|lf files Hlf Hfiles IH]; [reflexivity|].
      simpl. unfold file_tokens at 1. unfold is_audio_file in Hlf.
      rewrite Hlf. simpl. now rewrite IH. }
    now rewrite Hcol.
  - intros Hc. unfold dominant_format, item_formats, normed_candidates.
    rewrite Hc. reflexivity.
  - intros group Hin.
    destruct (classify_buckets U group []) as (by_fmt & Hc & _ & Hb).
    destruct (Hb it Hin) as (f & Hf & Hbucket).
    now exists by_fmt, f.
Qed.

(** C9 on a group that holds an item with no files and no tracks next to an
    mp3 copy: the bare item is filed under [unknown]. *)
Lemma format_classification_never_raises_witness :
  dominant_format Fragment.db (stamped "bare" None) = Some (lit "unknown")
  /\ exists by_fmt f,
       classify Fragment.db [with_extensions "a" [lit "mp3"]; stamped "bare" None] []
         = Some by_fmt
       /\ dominant_format Fragment.db (stamped "bare" None) = Some f
       /\ In (stamped "bare" None) (dict_get f by_fmt).
Proof.
  pose proof (format_classification_never_raises Fragment.db (stamped "bare" None))
    as (_ & Hnone & Hunknown & Hbucket).
  split.
  - apply Hunknown, Hnone; [constructor | reflexivity].
  - apply Hbucket. right. now left.
Defined.

Example classify_run :
  option_map (map (fun kv => (fst kv, map it_id (snd kv))))
    (classify Fragment.db
       [with_extensions "a" [lit "mp3"]; stamped "bare" None;
        with_extensions "c" [lit "MP4"]; with_extensions "d" [lit ".mp3"]] [])
  = Some [(lit "mp3", [lit "a"; lit "d"]); (lit "unknown", [lit "bare"]);
          (lit "m4a", [lit "c"])].
Proof. vm_compute. reflexivity. Qed.


(** ** The prune loop *)

Lemma for_each_invariant (A S : Type) (P : S -> Prop) (body : A -> S -> outcome S) :
  (forall x s, P s -> P (final (body x s))) ->
  forall l s, P s -> P (final (for_each body l s)).
Proof.
  intros Hbody l. induction l as [|x l IH]; intros s Hs; simpl; [assumption|].
  specialize (Hbody x s Hs). destruct (body x s) as [s' | s']; simpl in *; auto.
Qed.

Lemma and_then_invariant (S : Type) (P : S -> Prop) (o : outcome S) (k : S -> outcome S) :
  P (final o) -> (forall s, P s -> P (final (k s))) -> P (final (and_then o k)).
Proof. destruct o; simpl; auto. Qed.

Lemma untouched_print (l : line) (r : Run) :
  reports_action l = false -> untouched r -> untouched (print l r).
Proof.
  intros Hl (Hc & Hp & Hs). repeat split; try tauto. simpl.
  apply Forall_app. split; [assumption | now repeat constructor].
Qed.

Lemma untouched_bump (k : stat) (n : nat) (r : Run) :
  k <> files_moved -> k <> files_deleted -> k <> abs_deleted ->
  untouched r -> untouched (with_stats (bump k n) r).
Proof.
  intros H1 H2 H3 (Hc & Hp & Hm & Hd & Ha). unfold untouched, bump. simpl.
  repeat split; try assumption.
  - destruct (stat_eq_dec k files_moved); [contradiction | assumption].
  - destruct (stat_eq_dec k files_deleted); [contradiction | assumption].
  - destruct (stat_eq_dec k abs_deleted); [contradiction | assumption].
Qed.

Section SimulateFacts.

Variable U : UnicodeDB.
Variable OS : OsPath.
Variable W : World.
Variable opts : Options.
Hypothesis simulate : opt_apply opts = false.

Lemma file_step_untouched (it : Item) (s : Entry * Run) :
  untouched (snd s) -> untouched (snd (final (file_step U OS W opts it s))).
Proof.
  destruct s as [entry r]. intros Hr. unfold file_step. rewrite simulate.
  destruct (negb (truthy _)).
  { simpl. apply untouched_bump; try discriminate. now apply untouched_print. }
  destruct (str_eqb (opt_delete_files opts) (lit "off")).
  { simpl. now apply untouched_print. }
  destruct (negb (_is_within_roots _ _ _)).
  { simpl. apply untouched_bump; try discriminate. now apply untouched_print. }
  destruct (str_eqb (opt_delete_files opts) (lit "trash")).
  { simpl. now apply untouched_print. }
  destruct (str_eqb (opt_delete_files opts) (lit "remove")).
  { simpl. now apply untouched_print. }
  assumption.
Qed.

Lemma catalog_step_untouched (it : Item) (s : Entry * Run) :
  untouched (snd s) -> untouched (snd (final (catalog_step W opts it s))).
Proof.
  destruct s as [entry r]. intros Hr. unfold catalog_step. rewrite simulate.
  simpl. now apply untouched_print.
Qed.

Lemma reconcile_tags_untouched (keeper : Item) (s : Entry * Run) :
  untouched (snd s) -> untouched (snd (final (reconcile_tags W opts keeper s))).
Proof.
  destruct s as [entry r]. intros Hr. unfold reconcile_tags. rewrite simulate.
  destruct (opt_clean_tags_after_prune opts && opt_assume_yes opts); [|assumption].
  simpl. apply untouched_bump; try discriminate. now apply untouched_print.
Qed.

Lemma prune_group_untouched (group : list Item) (entry : Entry) (r : Run) :
  untouched r -> untouched (snd (final (prune_group U OS W opts group entry r))).
Proof.
  intros Hr. unfold prune_group.
  destruct (classify U group []) as [by_fmt|]; [|assumption].
  match goal with
  | |- context [match ?c with Some _ => _ | None => _ end] => destruct c as [[chosen rest]|]
  end; [|assumption].
  destruct (dict_get chosen by_fmt) as [|k0 ks]; [assumption|].
  destruct (choose_keeper (k0 :: ks)) as [keeper|]; [|assumption].
  apply (and_then_invariant (fun s => untouched (snd s))).
  - apply (for_each_invariant (fun s => untouched (snd s))).
    + intros x s. apply file_step_untouched.
    + simpl. apply untouched_bump; try discriminate. assumption.
  - intros s Hs. apply (and_then_invariant (fun s => untouched (snd s))).
    + apply (for_each_invariant (fun s => untouched (snd s))); [|assumption].
      intros x s'. apply catalog_step_untouched.
    + intros s' Hs'. now apply reconcile_tags_untouched.
Qed.

Lemma prune_loop_untouched (dup_sets : list (list Item * Entry)) (r : Run) :
  untouched r -> untouched (snd (final (prune_loop U OS W opts dup_sets r))).
Proof.
  revert r. induction dup_sets as [|[group entry] rest IH]; intros r Hr; simpl.
  - assumption.
  - pose proof (prune_group_untouched group entry Hr) as Hg.
    destruct (prune_group U OS W opts group entry r) as [[e r'] | [e r']]; simpl in Hg.
    + specialize (IH r' Hg).
      destruct (prune_loop U OS W opts rest r') as [[d r''] | [d r'']]; exact IH.
    + exact Hg.
Qed.

Lemma group_step_untouched (kg : pystr * list Item) (s : Scan) :
  untouched (run s) /\ pending_tag_updates s = [] ->
  untouched (run (final (group_step U opts kg s)))
  /\ pending_tag_updates (final (group_step U opts kg s)) = [].
Proof.
  intros [Hr Hp]. unfold group_step.
  destruct (Nat.leb (length (snd kg)) 1); [now split|].
  assert (Hr' : untouched (with_stats (bump dupe_books 1) (run s)))
    by (apply untouched_bump; try discriminate; assumption).
  destruct (choose_keeper (snd kg)) as [keeper|]; [|now split].
  destruct (_make_entry U opts (snd kg) (it_id keeper)) as [entry|]; [|now split].
  rewrite Hp.
  assert (Hfold : forall items acc,
             snd acc = [] ->
             snd (fold_left (fun acc it => tag_step opts (it_id keeper) it acc) items acc)
               = []).
  { induction items as [|it items IH]; intros acc Hacc; simpl; [assumption|].
    apply IH. destruct acc as [e p]. simpl in Hacc. subst p.
    unfold tag_step. rewrite simulate.
    destruct (negb (opt_tag_all opts) && str_eqb (it_id it) (it_id keeper));
      [reflexivity|].
    destruct (negb (existsb _ _)); reflexivity. }
  specialize (Hfold (snd kg) (entry, []) eq_refl).
  destruct (fold_left _ (snd kg) (entry, [])) as [e p]. simpl in *. now split.
Qed.

Lemma library_step_untouched (fetched : option (list Item)) (s : Scan) :
  untouched (run s) /\ pending_tag_updates s = [] ->
  untouched (run (final (library_step U opts fetched s)))
  /\ pending_tag_updates (final (library_step U opts fetched s)) = [].
Proof.
  intros [Hr Hp]. unfold library_step. destruct fetched as [items|]; simpl.
  - apply (for_each_invariant
             (fun s => untouched (run s) /\ pending_tag_updates s = [])).
    + intros kg s'. apply group_step_untouched.
    + simpl. split; [|assumption].
      apply untouched_bump; try discriminate. assumption.
  - split; [|assumption]. apply untouched_bump; try discriminate. assumption.
Qed.

Lemma main_untouched (libraries : list (option (list Item))) (inputs : list pystr) :
  untouched (snd (final (main U OS W opts libraries inputs))).
Proof.
  unfold main. rewrite simulate.
  match goal with
  | |- context [for_each (library_step U opts) libraries ?start] =>
      pose proof (for_each_invariant
                    (fun s => untouched (run s) /\ pending_tag_updates s = [])
                    (library_step U opts) library_step_untouched libraries start) as H
  end.
  destruct H as [Hr Hp].
  { simpl. split; [|reflexivity]. repeat split. simpl.
    unfold allow_roots_warning. destruct (_ && _); now repeat constructor. }
  destruct (for_each (library_step U opts) libraries _) as [s | s]; simpl in *.
  - unfold prune_phase. destruct (opt_prune opts); [|assumption].
    now apply prune_loop_untouched.
  - assumption.
Qed.

End SimulateFacts.

(** C2: with the apply flag off, a run of [main] makes no call at all (no
    file move, no file delete, no catalog delete, no tag update), prints no
    line that reports an action carried out, and leaves the counters of
    moved files, deleted files and deleted catalog entries at zero; what it
    intends is only printed and tallied in the report entries. *)
Theorem simulate_mode_makes_no_call (U : UnicodeDB) (OS : OsPath) (W : World)
  (opts : Options) (libraries : list (option (list Item))) (inputs : list pystr) :
  opt_apply opts = false ->
  untouched (snd (final (main U OS W opts libraries inputs))).
Proof. intros Hsim. now apply main_untouched. Qed.

(** C2 on two copies of a book under [/data], file action [trash]. *)
Lemma simulate_mode_makes_no_call_witness :
  untouched
    (snd (final (main Fragment.db Sim.os Sim.world
                   (prune_options false "trash" [lit "/data"])
                   [Some [copy "1" 10 (Some (lit "/data/dune-1")) "mp3";
                          copy "2" 20 (Some (lit "/data/dune-2")) "mp3"]] []))).
Proof.
  apply (@simulate_mode_makes_no_call Fragment.db Sim.os Sim.world
           (prune_options false "trash" [lit "/data"])).
  reflexivity.
Defined.

(** What that simulated run records: the intended move and the intended
    catalog deletion, as lines and in the entry. *)
Example simulate_mode_run :
  let o := final (main Fragment.db Sim.os Sim.world
                    (prune_options false "trash" [lit "/data"])
                    [Some [copy "1" 10 (Some (lit "/data/dune-1")) "mp3";
                           copy "2" 20 (Some (lit "/data/dune-2")) "mp3"]] []) in
  printed (snd o) = [WouldMoveToTrash (lit "/data/dune-2"); WouldAbsDelete (lit "2")]
  /\ map (fun ge => (e_tally (snd ge) file_moved, e_tally (snd ge) to_delete_count,
                     e_tally (snd ge) entry_abs_deleted, e_dry_run (snd ge)))
         (fst o)
     = [(1, 1, 0, true)].
Proof. split; vm_compute; reflexivity. Qed.

(** *** Candidates without a folder *)

(** C4, as amended: for a removal candidate whose folder cannot be resolved
    the file loop makes no call and changes no entry, counts one error,
    prints the warning and goes on with the remaining candidates; the catalog
    loop does not look at the folder: with the apply flag on it requests the
    deletion of that item too, with the flag off it prints the intended
    deletion. *)
Theorem unresolved_folder_skips_file_ops_only (U : UnicodeDB) (OS : OsPath) (W : World)
  (opts : Options) (it : Item) (rest : list Item) (entry : Entry) (r : Run) :
  truthy (or_empty (_item_folder_from_files U OS it)) = false ->
  let r' := with_stats (bump errors 1) (print (WarnNoFolder (it_id it)) r) in
  for_each (file_step U OS W opts) (it :: rest) (entry, r)
    = for_each (file_step U OS W opts) rest (entry, r')
  /\ calls r' = calls r
  /\ stats r' errors = S (stats r errors)
  /\ (opt_apply opts = true ->
      calls (snd (final (catalog_step W opts it (entry, r))))
        = calls r ++ [DeleteItemFromAbs (it_id it)])
  /\ (opt_apply opts = false ->
      catalog_step W opts it (entry, r)
        = Completed (entry, print (WouldAbsDelete (it_id it)) r)).
Proof.
  intros Hnone r'. split; [|split; [|split; [|split]]].
  - cbn [for_each]. unfold file_step at 1. rewrite Hnone. reflexivity.
  - reflexivity.
  - unfold r', bump. simpl. lia.
  - intros Happly. unfold catalog_step. rewrite Happly. simpl.
    destruct (delete_item_result W (calls r) (it_id it)); reflexivity.
  - intros Hsim. unfold catalog_step. now rewrite Hsim.
Qed.

(** The amended C4 on a copy without any path, followed by a copy under
    [/data], in a run that applies. *)
Lemma unresolved_folder_skips_file_ops_only_witness :
  let opts := prune_options true "trash" [lit "/data"] in
  let it := copy "2" 20 None "mp3" in
  let rest := [copy "3" 30 (Some (lit "/data/dune-3")) "mp3"] in
  let entry := {| e_title := lit "Dune"; e_author := []; e_formats := [];
                  e_format_counts := []; e_keeper_id := lit "1";
                  e_keep_format := None; e_tally := fun _ => 0;
                  e_skipped_paths := []; e_kept_tag_removed := false;
                  e_dry_run := false |} in
  let r := {| stats := no_stats; calls := []; printed := []; stdin := [] |} in
  let r' := with_stats (bump errors 1) (print (WarnNoFolder (it_id it)) r) in
  for_each (file_step Fragment.db Sim.os Sim.world opts) (it :: rest) (entry, r)
    = for_each (file_step Fragment.db Sim.os Sim.world opts) rest (entry, r')
  /\ calls r' = calls r
  /\ stats r' errors = S (stats r errors)
  /\ (opt_apply opts = true ->
      calls (snd (final (catalog_step Sim.world opts it (entry, r))))
        = calls r ++ [DeleteItemFromAbs (it_id it)])
  /\ (opt_apply opts = false ->
      catalog_step Sim.world opts it (entry, r)
        = Completed (entry, print (WouldAbsDelete (it_id it)) r)).
Proof.
  intros opts it rest entry r.
  apply (@unresolved_folder_skips_file_ops_only Fragment.db Sim.os Sim.world
           opts it rest entry r).
  reflexivity.
Defined.

(** C4 fails as stated: in a run that applies, the copy "2" has no folder
    ([_item_folder_from_files] returns [None]) and its file operation is
    skipped, yet its catalog entry is deleted. *)
Lemma unresolved_folder_still_deleted_from_catalog :
  let o := final (main Fragment.db Sim.os Sim.world
                    (prune_options true "trash" [lit "/data"])
                    [Some [copy "1" 10 (Some (lit "/data/dune-1")) "mp3";
                           copy "2" 20 None "mp3"]] []) in
  _item_folder_from_files Fragment.db Sim.os (copy "2" 20 None "mp3") = None
  /\ In (DeleteItemFromAbs (lit "2")) (calls (snd o))
  /\ printed (snd o) = [WarnNoFolder (lit "2"); AbsDeleteLine (lit "2") true]
  /\ stats (snd o) errors = 1
  /\ stats (snd o) abs_deleted = 1.
Proof.
  vm_compute. repeat split. right. left. reflexivity.
Qed.

(** *** An empty allow-root list *)

(** With no allow-roots the guard lets every path through. *)
Lemma is_within_no_roots (OS : OsPath) (p : pystr) : _is_within_roots OS p [] = true.
Proof. reflexivity. Qed.

(** C1 at the failing input: file action [remove], no allow-roots, apply on.
    The run prints the warning that file operations will be skipped, and then
    deletes the folder of the removal candidate "2". *)
Theorem empty_allow_roots_still_removes :
  let o := final (main Fragment.db Sim.os Sim.world
                    (prune_options true "remove" [])
                    [Some [copy "1" 10 (Some (lit "/data/dune-1")) "mp3";
                           copy "2" 20 (Some (lit "/data/dune-2")) "mp3"]] []) in
  calls (snd o)
    = [BatchUpdateTags [(lit "2", [lit "Duplicate"])];
       RemovePath (lit "/data/dune-2");
       DeleteItemFromAbs (lit "2")]
  /\ printed (snd o)
     = [WarnNoAllowRoots; DeletedLine true (lit "/data/dune-2");
        AbsDeleteLine (lit "2") true]
  /\ stats (snd o) files_deleted = 1.
Proof. vm_compute. repeat split; reflexivity. Qed.

(** The same with file action [trash]: the folder is moved. *)
Example empty_allow_roots_still_moves :
  calls (snd (final (main Fragment.db Sim.os Sim.world
                       (prune_options true "trash" [])
                       [Some [copy "1" 10 (Some (lit "/data/dune-1")) "mp3";
                              copy "2" 20 (Some (lit "/data/dune-2")) "mp3"]] [])))
    = [BatchUpdateTags [(lit "2", [lit "Duplicate"])];
       MoveToTrash (lit "/data/dune-2") (lit "/trash") [];
       DeleteItemFromAbs (lit "2")].
Proof. vm_compute. reflexivity. Qed.

(* ================================================================== *)
(** * Further properties *)

(** ** What a run calls *)

Lemma for_each_invariant_In (A S : Type) (P : S -> Prop) (body : A -> S -> outcome S)
  (l : list A) :
  (forall x s, In x l -> P s -> P (final (body x s))) ->
  forall s, P s -> P (final (for_each body l s)).
Proof.
  induction l as [|x l IH]; intros Hbody s Hs; simpl; [assumption|].
  pose proof (Hbody x s (or_introl eq_refl) Hs) as Hx.
  destruct (body x s) as [s' | s']; simpl in *; [|assumption].
  apply IH; [|assumption]. intros y s0 Hy. apply Hbody. now right.
Qed.

Section CallFacts.

Variable U : UnicodeDB.
Variable OS : OsPath.
Variable W : World.
Variable opts : Options.

(** A property of calls that holds of every tag update, of every catalog
    deletion, and of the file calls the prune loop can reach. *)
Variable Q : call -> Prop.
Hypothesis Q_batch : forall updates, Q (BatchUpdateTags updates).
Hypothesis Q_delete : forall item_id, Q (DeleteItemFromAbs item_id).
Hypothesis Q_file :
  forall mapped,
    str_eqb (opt_delete_files opts) (lit "off") = false ->
    _is_within_roots OS mapped (opt_allow_roots opts) = true ->
    opt_apply opts = true ->
    Q (MoveToTrash mapped (opt_trash_dir opts) (opt_allow_roots opts))
    /\ Q (RemovePath mapped).

Lemma do_call_Forall (c : call) (r : Run) :
  Forall Q (calls r) -> Q c -> Forall Q (calls (do_call c r)).
Proof.
  intros Hr Hc. simpl. apply Forall_app. split; [assumption | now constructor].
Qed.

Lemma file_step_calls (it : Item) (s : Entry * Run) :
  Forall Q (calls (snd s)) -> Forall Q (calls (snd (final (file_step U OS W opts it s)))).
Proof.
  destruct s as [entry r]. intros Hr. unfold file_step.
  destruct (negb (truthy _)); [exact Hr|].
  destruct (str_eqb (opt_delete_files opts) (lit "off")) eqn:Eoff; [exact Hr|].
  destruct (_is_within_roots OS _ (opt_allow_roots opts)) eqn:Ein; [|exact Hr].
  cbn [negb].
  destruct (opt_apply opts) eqn:Eapply.
  - destruct (Q_file _ eq_refl Ein eq_refl) as [Hmove Hremove].
    destruct (str_eqb (opt_delete_files opts) (lit "trash")).
    + unfold _move_to_trash.
      destruct (move_to_trash_result W _ _ _ _) as [[ok dest]|]; simpl;
        (apply Forall_app; split; [assumption | now constructor]).
    + destruct (str_eqb (opt_delete_files opts) (lit "remove")); [|exact Hr].
      simpl. apply Forall_app. split; [assumption | now constructor].
  - destruct (str_eqb (opt_delete_files opts) (lit "trash")); [exact Hr|].
    destruct (str_eqb (opt_delete_files opts) (lit "remove")); exact Hr.
Qed.

Lemma catalog_step_calls (it : Item) (s : Entry * Run) :
  Forall Q (calls (snd s)) -> Forall Q (calls (snd (final (catalog_step W opts it s)))).
Proof.
  destruct s as [entry r]. intros Hr. unfold catalog_step.
  destruct (opt_apply opts); [|exact Hr].
  unfold delete_item_from_abs.
  destruct (delete_item_result W (calls r) (it_id it)); simpl;
    (apply Forall_app; split; [assumption | now constructor]).
Qed.

Lemma post_chunk_calls (chunk : list (pystr * list pystr)) (r : Run) :
  Forall Q (calls r) -> Forall Q (calls (final (post_chunk W chunk r))).
Proof.
  intros Hr. unfold post_chunk.
  destruct (batch_update_result W (calls r) chunk); simpl;
    (apply Forall_app; split; [assumption | now constructor]).
Qed.

Lemma batch_update_tags_calls (updates : list (pystr * list pystr)) (r : Run) :
  Forall Q (calls r) -> Forall Q (calls (final (batch_update_tags W updates r))).
Proof.
  intros Hr. unfold batch_update_tags. destruct updates as [|u updates]; [exact Hr|].
  apply (for_each_invariant (fun r => Forall Q (calls r))); [|assumption].
  intros chunk r'. apply post_chunk_calls.
Qed.

Lemma reconcile_tags_calls (keeper : Item) (s : Entry * Run) :
  Forall Q (calls (snd s)) ->
  Forall Q (calls (snd (final (reconcile_tags W opts keeper s)))).
Proof.
  destruct s as [entry r]. intros Hr. unfold reconcile_tags.
  destruct (opt_clean_tags_after_prune opts && opt_assume_yes opts); [|exact Hr].
  destruct (opt_apply opts); [|exact Hr].
  pose proof (@batch_update_tags_calls
                (map (fun s => (it_id s,
                                filter (fun t => negb (str_eqb t (opt_tag opts)))
                                       (current_tags s))) [keeper]) r Hr) as Hb.
  destruct (batch_update_tags W _ r); exact Hb.
Qed.

Lemma prune_group_calls (group : list Item) (entry : Entry) (r : Run) :
  Forall Q (calls r) ->
  Forall Q (calls (snd (final (prune_group U OS W opts group entry r)))).
Proof.
  intros Hr. unfold prune_group.
  destruct (classify U group []) as [by_fmt|]; [|assumption].
  match goal with
  | |- context [match ?c with Some _ => _ | None => _ end] => destruct c as [[chosen rest]|]
  end; [|assumption].
  destruct (dict_get chosen by_fmt) as [|k0 ks]; [assumption|].
  destruct (choose_keeper (k0 :: ks)) as [keeper|]; [|assumption].
  apply (and_then_invariant (fun s => Forall Q (calls (snd s)))).
  - apply (for_each_invariant (fun s => Forall Q (calls (snd s)))); [|assumption].
    intros x s. apply file_step_calls.
  - intros s Hs. apply (and_then_invariant (fun s => Forall Q (calls (snd s)))).
    + apply (for_each_invariant (fun s => Forall Q (calls (snd s)))); [|assumption].
      intros x s'. apply catalog_step_calls.
    + intros s' Hs'. now apply reconcile_tags_calls.
Qed.

Lemma prune_loop_calls (dup_sets : list (list Item * Entry)) (r : Run) :
  Forall Q (calls r) ->
  Forall Q (calls (snd (final (prune_loop U OS W opts dup_sets r)))).
Proof.
  revert r. induction dup_sets as [|[group entry] rest IH]; intros r Hr; simpl.
  - assumption.
  - pose proof (prune_group_calls group entry r Hr) as Hg.
    destruct (prune_group U OS W opts group entry r) as [[e r'] | [e r']]; simpl in Hg.
    + specialize (IH r' Hg).
      destruct (prune_loop U OS W opts rest r') as [[d r''] | [d r'']]; exact IH.
    + exact Hg.
Qed.

(** The scan of the libraries makes no call. *)
Lemma group_step_no_call (kg : pystr * list Item) (s : Scan) :
  calls (run (final (group_step U opts kg s))) = calls (run s).
Proof.
  unfold group_step. destruct (Nat.leb (length (snd kg)) 1); [reflexivity|].
  destruct (choose_keeper (snd kg)) as [keeper|]; [|reflexivity].
  destruct (_make_entry U opts (snd kg) (it_id keeper)) as [entry|]; [|reflexivity].
  destruct (fold_left _ (snd kg) _). reflexivity.
Qed.

Lemma scan_no_call (libraries : list (option (list Item))) (s : Scan) :
  calls (run (final (for_each (library_step U opts) libraries s))) = calls (run s).
Proof.
  apply (for_each_invariant (fun s' => calls (run s') = calls (run s))); [|reflexivity].
  intros fetched s' Hs'. unfold library_step. destruct fetched as [items|]; [|exact Hs'].
  apply (for_each_invariant (fun s'' => calls (run s'') = calls (run s)));
    [|exact Hs'].
  intros kg s'' Hs''. now rewrite group_step_no_call.
Qed.

Lemma main_calls (libraries : list (option (list Item))) (inputs : list pystr) :
  Forall Q (calls (snd (final (main U OS W opts libraries inputs)))).
Proof.
  unfold main.
  match goal with
  | |- context [for_each (library_step U opts) libraries ?start] =>
      pose proof (scan_no_call libraries start) as Hscan
  end.
  destruct (for_each (library_step U opts) libraries _) as [s | s]; simpl in Hscan.
  - assert (Htag : Forall Q (calls (final
               (if opt_apply opts
                then batch_update_tags W (pending_tag_updates s) (run s)
                else Completed (run s))))).
    { destruct (opt_apply opts).
      - apply batch_update_tags_calls. rewrite Hscan. constructor.
      - simpl. rewrite Hscan. constructor. }
    destruct (if opt_apply opts
              then batch_update_tags W (pending_tag_updates s) (run s)
              else Completed (run s)) as [r | r]; simpl in Htag; [|exact Htag].
    unfold prune_phase. destruct (opt_prune opts); [|exact Htag].
    now apply prune_loop_calls.
  - simpl. rewrite Hscan. constructor.
Qed.

End CallFacts.

(** X1: every path a run moves to the trash or removes has passed
    [_is_within_roots] against the allow-roots, whatever the catalog holds and
    whatever the outside world answers. *)
Theorem main_file_calls_guarded (U : UnicodeDB) (OS : OsPath) (W : World)
  (opts : Options) (libraries : list (option (list Item))) (inputs : list pystr) :
  Forall (guarded_call OS (opt_allow_roots opts))
         (calls (snd (final (main U OS W opts libraries inputs)))).
Proof.
  apply main_calls; simpl; auto.
Qed.

(** X2: with the file action [off] a run makes no file call, also when it
    applies and prunes. *)
Theorem delete_files_off_no_file_call (U : UnicodeDB) (OS : OsPath) (W : World)
  (opts : Options) (libraries : list (option (list Item))) (inputs : list pystr) :
  opt_delete_files opts = lit "off" ->
  Forall (fun c => is_file_call c = false)
         (calls (snd (final (main U OS W opts libraries inputs)))).
Proof.
  intros Hoff. apply main_calls; try reflexivity.
  intros mapped Hne. rewrite Hoff in Hne. discriminate.
Qed.

Lemma delete_files_off_no_file_call_witness :
  Forall (fun c => is_file_call c = false)
         (calls (snd (final (main Fragment.db Sim.os Sim.world
                               (prune_options true "off" [lit "/data"])
                               [Some [copy "1" 10 (Some (lit "/data/dune-1")) "mp3";
                                      copy "2" 20 (Some (lit "/data/dune-2")) "mp3"]]
                               [])))).
Proof.
  apply (@delete_files_off_no_file_call Fragment.db Sim.os Sim.world
           (prune_options true "off" [lit "/data"])).
  reflexivity.
Defined.

(** X3: without the prune option the only calls of a run are tag updates. *)
Theorem prune_off_only_tag_calls (U : UnicodeDB) (OS : OsPath) (W : World)
  (opts : Options) (libraries : list (option (list Item))) (inputs : list pystr) :
  opt_prune opts = false ->
  Forall (fun c => is_tag_call c = true)
         (calls (snd (final (main U OS W opts libraries inputs)))).
Proof.
  intros Hoff. unfold main.
  match goal with
  | |- context [for_each (library_step U opts) libraries ?start] =>
      pose proof (scan_no_call U opts libraries start) as Hscan
  end.
  destruct (for_each (library_step U opts) libraries _) as [s | s]; simpl in Hscan.
  - unfold prune_phase. rewrite Hoff.
    destruct (opt_apply opts).
    + pose proof (@batch_update_tags_calls W (fun c => is_tag_call c = true)
                    (fun _ => eq_refl) (pending_tag_updates s) (run s)) as Hb.
      rewrite Hscan in Hb. specialize (Hb (Forall_nil _)).
      destruct (batch_update_tags W (pending_tag_updates s) (run s)); exact Hb.
    + simpl. rewrite Hscan. constructor.
  - simpl. rewrite Hscan. constructor.
Qed.

Lemma prune_off_only_tag_calls_witness :
  Forall (fun c => is_tag_call c = true)
         (calls (snd (final (main Fragment.db Sim.os Sim.world
                               {| opt_tag := lit "Duplicate"; opt_case_sensitive := false;
                                  opt_apply := true; opt_by := lit "title";
                                  opt_tag_all := false; opt_use_ignore_prefix := true;
                                  opt_preferred_formats := []; opt_prune := false;
                                  opt_assume_yes := true; opt_delete_files := lit "remove";
                                  opt_trash_dir := lit "/trash"; opt_allow_roots := [];
                                  opt_path_map := [];
                                  opt_clean_tags_after_prune := true |}
                               [Some [copy "1" 10 (Some (lit "/data/dune-1")) "mp3";
                                      copy "2" 20 (Some (lit "/data/dune-2")) "mp3"]]
                               [])))).
Proof.
  apply prune_off_only_tag_calls. reflexivity.
Defined.

(** ** The calls of one prune *)

Lemma extends_calls_same (P : call -> Prop) (r0 : Run) (s s' : Entry * Run) :
  calls (snd s') = calls (snd s) -> extends_calls P r0 s -> extends_calls P r0 s'.
Proof.
  intros E (new & Hc & Hn). exists new. split; [congruence | assumption].
Qed.

Lemma extends_calls_snoc (P : call -> Prop) (r0 : Run) (s s' : Entry * Run) (c : call) :
  calls (snd s') = calls (snd s) ++ [c] -> P c ->
  extends_calls P r0 s -> extends_calls P r0 s'.
Proof.
  intros E Hc (new & Hs & Hn). exists (new ++ [c]). split.
  - rewrite E, Hs. now rewrite app_assoc.
  - apply Forall_app. split; [assumption | now constructor].
Qed.

Lemma choose_keeper_In (items : list Item) (keeper : Item) :
  choose_keeper items = Some keeper -> In keeper items.
Proof.
  intros H. unfold choose_keeper in H. apply nth_error_In in H.
  apply (Permutation_in _ (sorted_perm item_added_at items)). exact H.
Qed.

Lemma dict_get_groups_append_In (k k' : pystr) (it x : Item)
  (d : list (pystr * list Item)) :
  In x (dict_get k' (groups_append k it d)) -> In x (dict_get k' d) \/ x = it.
Proof.
  induction d as [|[k0 g] d IH]; simpl.
  - destruct (str_eqb k' k); simpl; [|tauto]. intros [<- | []]. now right.
  - destruct (str_eqb k k0) eqn:E; simpl.
    + destruct (str_eqb k' k0); [|tauto]. intros H. apply in_app_or in H.
      destruct H as [H | [<- | []]]; tauto.
    + destruct (str_eqb k' k0); [tauto | exact IH].
Qed.

Lemma classify_members (U : UnicodeDB) (group : list Item)
  (acc by_fmt : list (pystr * list Item)) :
  classify U group acc = Some by_fmt ->
  forall k x, In x (dict_get k by_fmt) -> In x (dict_get k acc) \/ In x group.
Proof.
  revert acc. induction group as [|it group IH]; intros acc H k x Hx; simpl in H.
  - injection H as <-. now left.
  - destruct (dominant_format U it) as [f|]; [|discriminate].
    destruct (IH _ H k x Hx) as [Hacc | Hg]; [|right; now right].
    apply dict_get_groups_append_In in Hacc. destruct Hacc as [Hacc | ->].
    + now left.
    + right. now left.
Qed.

Section PruneCalls.

Variable U : UnicodeDB.
Variable OS : OsPath.
Variable W : World.
Variable opts : Options.
Variables (group : list Item) (keeper : Item) (r0 : Run).

Lemma file_step_extends (it : Item) (s : Entry * Run) :
  In it group -> it_id it <> it_id keeper ->
  extends_calls (prune_call_for U OS opts group keeper) r0 s ->
  extends_calls (prune_call_for U OS opts group keeper) r0
                (final (file_step U OS W opts it s)).
Proof.
  destruct s as [entry r]. intros Hin Hid Hs. unfold file_step.
  destruct (negb (truthy _)); [(eapply extends_calls_same; [|exact Hs]; reflexivity)|].
  destruct (str_eqb (opt_delete_files opts) (lit "off"));
    [(eapply extends_calls_same; [|exact Hs]; reflexivity)|].
  destruct (negb (_is_within_roots OS _ (opt_allow_roots opts)));
    [(eapply extends_calls_same; [|exact Hs]; reflexivity)|].
  assert (Hcall : forall c, is_file_call c = true ->
            (match c with
             | MoveToTrash src _ _ | RemovePath src =>
                 src = _apply_path_map OS (or_empty (_item_folder_from_files U OS it))
                                          (opt_path_map opts)
             | _ => True
             end) ->
            prune_call_for U OS opts group keeper c).
  { intros [src ? ? | src | ? | ?] Hf Hsrc; try discriminate; exists it; auto. }
  destruct (opt_apply opts).
  - destruct (str_eqb (opt_delete_files opts) (lit "trash")).
    + unfold _move_to_trash.
      destruct (move_to_trash_result W _ _ _ _) as [[ok dest]|]; simpl;
        (eapply (fun c H1 H2 => @extends_calls_snoc _ r0 (entry, r) _ c H1 H2 Hs); [reflexivity|]);
        now apply Hcall.
    + destruct (str_eqb (opt_delete_files opts) (lit "remove"));
        [|(eapply extends_calls_same; [|exact Hs]; reflexivity)].
      simpl. (eapply (fun c H1 H2 => @extends_calls_snoc _ r0 (entry, r) _ c H1 H2 Hs); [reflexivity|]). now apply Hcall.
  - destruct (str_eqb (opt_delete_files opts) (lit "trash"));
      [(eapply extends_calls_same; [|exact Hs]; reflexivity)|].
    destruct (str_eqb (opt_delete_files opts) (lit "remove"));
      (eapply extends_calls_same; [|exact Hs]; reflexivity).
Qed.

Lemma catalog_step_extends (it : Item) (s : Entry * Run) :
  In it group -> it_id it <> it_id keeper ->
  extends_calls (prune_call_for U OS opts group keeper) r0 s ->
  extends_calls (prune_call_for U OS opts group keeper) r0
                (final (catalog_step W opts it s)).
Proof.
  destruct s as [entry r]. intros Hin Hid Hs. unfold catalog_step.
  destruct (opt_apply opts); [|(eapply extends_calls_same; [|exact Hs]; reflexivity)].
  unfold delete_item_from_abs.
  destruct (delete_item_result W (calls r) (it_id it)); simpl;
    (eapply (fun c H1 H2 => @extends_calls_snoc _ r0 (entry, r) _ c H1 H2 Hs); [reflexivity|]);
    (split; [assumption | now exists it]).
Qed.

Lemma reconcile_tags_extends (s : Entry * Run) :
  extends_calls (prune_call_for U OS opts group keeper) r0 s ->
  extends_calls (prune_call_for U OS opts group keeper) r0
                (final (reconcile_tags W opts keeper s)).
Proof.
  destruct s as [entry r]. intros Hs. unfold reconcile_tags.
  destruct (opt_clean_tags_after_prune opts && opt_assume_yes opts); [|exact Hs].
  destruct (opt_apply opts); [|(eapply extends_calls_same; [|exact Hs]; reflexivity)].
  unfold batch_update_tags. cbn [map]. unfold chunks. cbn [length chunks_fuel firstn skipn].
  cbn [for_each]. unfold post_chunk.
  destruct (batch_update_result W (calls r) _); simpl;
    (eapply (fun c H1 H2 => @extends_calls_snoc _ r0 (entry, r) _ c H1 H2 Hs); [reflexivity|]); reflexivity.
Qed.

End PruneCalls.

Lemma prune_group_calls_for_keeper (U : UnicodeDB) (OS : OsPath) (W : World)
  (opts : Options) (group : list Item) (entry : Entry) (r : Run) :
  group <> [] ->
  exists keeper,
    In keeper group
    /\ extends_calls (prune_call_for U OS opts group keeper) r
                     (final (prune_group U OS W opts group entry r)).
Proof.
  intros Hne.
  assert (Hnothing : forall s : Entry * Run,
            calls (snd s) = calls r ->
            exists keeper,
              In keeper group
              /\ extends_calls (prune_call_for U OS opts group keeper) r s).
  { intros s Hs. destruct group as [|first rest]; [congruence|].
    exists first. split; [now left|]. exists []. split; [|constructor].
    now rewrite app_nil_r. }
  unfold prune_group.
  destruct (classify U group []) as [by_fmt|] eqn:Ecl; [|now apply Hnothing].
  match goal with
  | |- context [match ?c with Some _ => _ | None => _ end] => destruct c as [[chosen rest]|]
  end; [|now apply Hnothing].
  destruct (dict_get chosen by_fmt) as [|k0 ks] eqn:Eget; [now apply Hnothing|].
  destruct (choose_keeper (k0 :: ks)) as [keeper|] eqn:Ek; [|now apply Hnothing].
  exists keeper. split.
  - apply choose_keeper_In in Ek. rewrite <- Eget in Ek.
    destruct (classify_members U group [] Ecl chosen keeper Ek) as [[] | H]. exact H.
  - set (P := prune_call_for U OS opts group keeper).
    assert (Hrem : forall it,
              In it (filter (fun it => negb (str_eqb (it_id it) (it_id keeper))) group) ->
              In it group /\ it_id it <> it_id keeper).
    { intros it Hit. apply filter_In in Hit. destruct Hit as [Hin Hneq].
      split; [assumption|]. apply Bool.negb_true_iff, str_eqb_neq in Hneq. exact Hneq. }
    apply (and_then_invariant (extends_calls P r)).
    + apply (for_each_invariant_In (extends_calls P r)).
      * intros it s Hit. destruct (Hrem it Hit). now apply file_step_extends.
      * exists []. split; [simpl; now rewrite app_nil_r | constructor].
    + intros s Hs. apply (and_then_invariant (extends_calls P r)).
      * apply (for_each_invariant_In (extends_calls P r)); [|assumption].
        intros it s' Hit. destruct (Hrem it Hit). now apply catalog_step_extends.
      * intros s' Hs'. now apply reconcile_tags_extends.
Qed.

(** X4: one prune of a non-empty group spares one of its members: every
    catalog deletion it requests names another member of the group, every
    file call is on the mapped folder of another member, and the only tag
    update strips the marker tag from the spared member. *)
Theorem prune_group_spares_keeper (U : UnicodeDB) (OS : OsPath) (W : World)
  (opts : Options) (group : list Item) (entry : Entry) (r : Run) :
  group <> [] ->
  exists keeper,
    In keeper group
    /\ extends_calls (prune_call_for U OS opts group keeper) r
                     (final (prune_group U OS W opts group entry r)).
Proof. intros Hne. now apply prune_group_calls_for_keeper. Qed.

Lemma prune_group_spares_keeper_witness :
  exists keeper,
    In keeper [copy "1" 10 (Some (lit "/data/dune-1")) "mp3";
               copy "2" 20 (Some (lit "/data/dune-2")) "mp3";
               copy "3" 5 (Some (lit "/data/dune-3")) "m4b"]
    /\ extends_calls
         (prune_call_for Fragment.db Sim.os (prune_options true "trash" [lit "/data"])
            [copy "1" 10 (Some (lit "/data/dune-1")) "mp3";
             copy "2" 20 (Some (lit "/data/dune-2")) "mp3";
             copy "3" 5 (Some (lit "/data/dune-3")) "m4b"] keeper)
         {| stats := no_stats; calls := []; printed := []; stdin := [] |}
         (final (prune_group Fragment.db Sim.os Sim.world
                   (prune_options true "trash" [lit "/data"])
                   [copy "1" 10 (Some (lit "/data/dune-1")) "mp3";
                    copy "2" 20 (Some (lit "/data/dune-2")) "mp3";
                    copy "3" 5 (Some (lit "/data/dune-3")) "m4b"]
                   {| e_title := lit "Dune"; e_author := []; e_formats := [];
                      e_format_counts := []; e_keeper_id := lit "3";
                      e_keep_format := None; e_tally := fun _ => 0;
                      e_skipped_paths := []; e_kept_tag_removed := false;
                      e_dry_run := false |}
                   {| stats := no_stats; calls := []; printed := []; stdin := [] |})).
Proof.
  apply prune_group_spares_keeper. discriminate.
Defined.

(** ** Batches of tag updates *)

Lemma chunks_fuel_spec (A : Type) (size : nat) (fuel : nat) (l : list A) :
  0 < size -> length l <= fuel ->
  concat (chunks_fuel fuel size l) = l
  /\ Forall (fun c => 1 <= length c <= size) (chunks_fuel fuel size l).
Proof.
  intros Hsize. revert l. induction fuel as [|fuel IH]; intros l Hlen.
  - destruct l; [split; [reflexivity | constructor] | simpl in Hlen; lia].
  - destruct l as [|x l]; [split; [reflexivity | constructor]|].
    cbn [chunks_fuel concat].
    destruct (IH (skipn size (x :: l))) as [Hc Hf].
    { rewrite length_skipn. cbn [length] in *. lia. }
    split.
    + rewrite Hc. apply firstn_skipn.
    + constructor; [|assumption].
      rewrite length_firstn. cbn [length].
      destruct (Nat.min_spec size (S (length l))) as [[H ->] | [H ->]]; lia.
Qed.

Lemma chunks_spec (A : Type) (size : nat) (l : list A) :
  0 < size ->
  concat (chunks size l) = l
  /\ Forall (fun c => 1 <= length c <= size) (chunks size l).
Proof. intros Hsize. now apply chunks_fuel_spec. Qed.

Lemma post_chunks_calls (W : World) (cs : list (list (pystr * list pystr))) (r : Run) :
  exists k,
    calls (final (for_each (post_chunk W) cs r))
      = calls r ++ map BatchUpdateTags (firstn k cs)
    /\ (forall r', for_each (post_chunk W) cs r = Completed r' -> firstn k cs = cs).
Proof.
  revert r. induction cs as [|c cs IH]; intros r.
  - exists 0. simpl. split; [now rewrite app_nil_r | reflexivity].
  - cbn [for_each].
    assert (Hp : post_chunk W c r = Completed (do_call (BatchUpdateTags c) r)
                 \/ post_chunk W c r = Raised (do_call (BatchUpdateTags c) r))
      by (unfold post_chunk; destruct (batch_update_result W (calls r) c); auto).
    destruct Hp as [-> | ->].
    + destruct (IH (do_call (BatchUpdateTags c) r)) as (k & Hk & Hall).
      exists (S k). split.
      * rewrite Hk. simpl. now rewrite <- app_assoc.
      * intros r' Hr'. simpl. f_equal. now apply (Hall r').
    + exists 1. split; [reflexivity | discriminate].
Qed.

Lemma batch_update_tags_sent (W : World)
  (updates : list (pystr * list pystr)) (r : Run) :
  exists sent,
    calls (final (batch_update_tags W updates r)) = calls r ++ map BatchUpdateTags sent
    /\ Forall (fun c => 1 <= length c <= 100) sent
    /\ (exists unsent, concat sent ++ unsent = updates)
    /\ (forall r', batch_update_tags W updates r = Completed r' -> concat sent = updates).
Proof.
  unfold batch_update_tags. destruct updates as [|u updates].
  - exists []. simpl. rewrite app_nil_r. repeat split; try constructor.
    now exists [].
  - remember (u :: updates) as ups eqn:Eups. clear Eups.
    destruct (@chunks_spec _ 100 ups) as [Hcat Hsize]; [lia|].
    destruct (post_chunks_calls W (chunks 100 ups) r) as (k & Hk & Hall).
    exists (firstn k (chunks 100 ups)). split; [exact Hk|]. split; [|split].
    + rewrite <- (firstn_skipn k (chunks 100 ups)) in Hsize.
      apply Forall_app in Hsize. tauto.
    + exists (concat (skipn k (chunks 100 ups))).
      now rewrite <- concat_app, firstn_skipn.
    + intros r' Hr'. now rewrite (Hall r' Hr').
Qed.

(** X5: [batch_update_tags] posts the updates in order, in batches of at
    least one and at most 100: the batches posted, concatenated, are an
    initial part of the updates, and all of them when no post raises. *)
Theorem batch_update_tags_posts_in_order (W : World)
  (updates : list (pystr * list pystr)) (r : Run) :
  exists sent,
    calls (final (batch_update_tags W updates r)) = calls r ++ map BatchUpdateTags sent
    /\ Forall (fun c => 1 <= length c <= 100) sent
    /\ (exists unsent, concat sent ++ unsent = updates)
    /\ (forall r', batch_update_tags W updates r = Completed r' -> concat sent = updates).
Proof. apply batch_update_tags_sent. Qed.

(** ** Tag updates *)

Lemma groups_append_members (k : pystr) (it : Item) (d : list (pystr * list Item))
  (P : Item -> Prop) :
  P it -> Forall (fun kg => Forall P (snd kg)) d ->
  Forall (fun kg => Forall P (snd kg)) (groups_append k it d).
Proof.
  intros Hit. induction 1 as [|[k0 g] d Hg Hd IH]; simpl.
  - now repeat constructor.
  - destruct (str_eqb k k0); constructor; simpl in *; auto.
    apply Forall_app. split; [assumption | now constructor].
Qed.

Lemma build_groups_members (U : UnicodeDB) (by_ : pystr) (uip cs : bool)
  (items : list Item) :
  Forall (fun kg => Forall (fun it => In it items) (snd kg))
         (build_groups U by_ uip cs items).
Proof.
  unfold build_groups.
  assert (H : forall l acc,
             (forall it, In it l -> In it items) ->
             Forall (fun kg => Forall (fun it => In it items) (snd kg)) acc ->
             Forall (fun kg => Forall (fun it => In it items) (snd kg))
               (fold_left
                  (fun groups it =>
                     let key := make_key U it by_ uip cs in
                     if truthy key then groups_append key it groups else groups)
                  l acc)).
  { induction l as [|it l IH]; intros acc Hl Hacc; simpl; [assumption|].
    apply IH; [intros; apply Hl; now right|].
    destruct (truthy _); [|assumption].
    apply groups_append_members; [apply Hl; now left | assumption]. }
  apply H; [auto | constructor].
Qed.

Section TagFacts.

Variable U : UnicodeDB.
Variable opts : Options.

Lemma tag_fold_pending (keeper_id : pystr) (items : list Item)
  (acc : Entry * list (pystr * list pystr)) (u : pystr * list pystr) :
  In u (snd (fold_left (fun acc it => tag_step opts keeper_id it acc) items acc)) ->
  In u (snd acc)
  \/ exists it,
       In it items /\ adds_marker opts it u
       /\ (opt_tag_all opts = false -> it_id it <> keeper_id).
Proof.
  revert acc. induction items as [|it items IH]; intros acc Hu; simpl in Hu.
  - now left.
  - destruct (IH _ Hu) as [Hacc | (it' & Hin & Hadd)].
    + destruct acc as [e p]. unfold tag_step in Hacc.
      destruct (negb (opt_tag_all opts) && str_eqb (it_id it) keeper_id) eqn:Ek;
        [now left|].
      destruct (negb (existsb (str_eqb (opt_tag opts)) (current_tags it))) eqn:Et;
        [|now left].
      simpl in Hacc. destruct (opt_apply opts); [|now left].
      apply in_app_or in Hacc. destruct Hacc as [Hp | [<- | []]]; [now left|].
      right. exists it. split; [now left|]. split.
      * split; [reflexivity|]. apply Bool.negb_true_iff in Et.
        apply (proj1 (mem_not_In _ _)). exact Et.
      * intros Hall. rewrite Hall in Ek. simpl in Ek. now apply str_eqb_neq.
    + right. exists it'. split; [now right | assumption].
Qed.

(** What the scan keeps: the pending updates add the marker to fetched items,
    and the groups set aside are non-empty groups of fetched items. *)
Lemma group_step_scan (P : Item -> Prop) (kg : pystr * list Item) (s : Scan) :
  Forall P (snd kg) ->
  (forall u, In u (pending_tag_updates s) -> exists it, P it /\ adds_marker opts it u) ->
  Forall (fun ge => fst ge <> [] /\ Forall P (fst ge)) (dup_sets s) ->
  (forall u, In u (pending_tag_updates (final (group_step U opts kg s))) ->
     exists it, P it /\ adds_marker opts it u)
  /\ Forall (fun ge => fst ge <> [] /\ Forall P (fst ge))
            (dup_sets (final (group_step U opts kg s))).
Proof.
  intros Hkg Hp Hd. unfold group_step.
  destruct (Nat.leb (length (snd kg)) 1) eqn:Elen; [now split|].
  destruct (choose_keeper (snd kg)) as [keeper|]; [|now split].
  destruct (_make_entry U opts (snd kg) (it_id keeper)) as [entry|]; [|now split].
  pose proof (@tag_fold_pending (it_id keeper) (snd kg) (entry, pending_tag_updates s))
    as Hfold.
  destruct (fold_left _ (snd kg) _) as [e p]. simpl in *. split.
  - intros u Hu. destruct (Hfold u Hu) as [Hold | (it & Hin & Hadd & _)]; [auto|].
    exists it. split; [|assumption]. rewrite Forall_forall in Hkg. auto.
  - apply Forall_app. split; [assumption|]. constructor; [|constructor].
    simpl. split; [|assumption]. intros E. rewrite E in Elen. discriminate.
Qed.

Lemma scan_marker (libraries : list (option (list Item))) (inputs : list pystr)
  (r : Run) :
  let s := final (for_each (library_step U opts) libraries
                    {| dup_sets := []; pending_tag_updates := []; run := r |}) in
  (forall u, In u (pending_tag_updates s) ->
     exists it, fetched libraries it /\ adds_marker opts it u)
  /\ Forall (fun ge => fst ge <> [] /\ Forall (fetched libraries) (fst ge)) (dup_sets s).
Proof.
  apply (for_each_invariant_In
           (fun s =>
              (forall u, In u (pending_tag_updates s) ->
                 exists it, fetched libraries it /\ adds_marker opts it u)
              /\ Forall (fun ge => fst ge <> [] /\ Forall (fetched libraries) (fst ge))
                        (dup_sets s))).
  - intros fetched_items s Hlib [Hp Hd]. unfold library_step.
    destruct fetched_items as [items|]; [|now split].
    apply (for_each_invariant_In
             (fun s =>
                (forall u, In u (pending_tag_updates s) ->
                   exists it, fetched libraries it /\ adds_marker opts it u)
                /\ Forall (fun ge => fst ge <> [] /\ Forall (fetched libraries) (fst ge))
                          (dup_sets s))); [|now split].
    intros kg s' Hkg [Hp' Hd']. apply group_step_scan; try assumption.
    pose proof (build_groups_members U (opt_by opts) (opt_use_ignore_prefix opts)
                  (opt_case_sensitive opts) items) as Hm.
    rewrite Forall_forall in Hm. specialize (Hm kg Hkg).
    apply Forall_forall. intros it Hit. rewrite Forall_forall in Hm.
    exists items. split; [assumption | auto].
  - split; [intros u [] | constructor].
Qed.

End TagFacts.

Section MarkerCalls.

Variable U : UnicodeDB.
Variable OS : OsPath.
Variable W : World.
Variable opts : Options.
Variable libraries : list (option (list Item)).

Lemma batch_update_tags_marker (updates : list (pystr * list pystr)) (r : Run) :
  (forall u, In u updates ->
     exists it, fetched libraries it /\ adds_marker opts it u) ->
  Forall (marker_call opts libraries) (calls r) ->
  Forall (marker_call opts libraries) (calls (final (batch_update_tags W updates r))).
Proof.
  intros Hu Hr.
  destruct (batch_update_tags_sent W updates r) as (sent & -> & _ & (unsent & Hcat) & _).
  apply Forall_app. split; [assumption|].
  apply Forall_forall. intros c Hc. apply in_map_iff in Hc.
  destruct Hc as (chunk & <- & Hchunk). simpl. intros u Hin.
  destruct (Hu u) as (it & Hf & Ha).
  - rewrite <- Hcat. apply in_or_app. left. apply in_concat. now exists chunk.
  - exists it. auto.
Qed.

Lemma prune_group_marker (group : list Item) (entry : Entry) (r : Run) :
  group <> [] -> Forall (fetched libraries) group ->
  Forall (marker_call opts libraries) (calls r) ->
  Forall (marker_call opts libraries)
         (calls (snd (final (prune_group U OS W opts group entry r)))).
Proof.
  intros Hne Hg Hr.
  destruct (prune_group_calls_for_keeper U OS W opts entry r Hne)
    as (keeper & Hk & new & -> & Hnew).
  apply Forall_app. split; [assumption|].
  apply Forall_forall. intros c Hc. rewrite Forall_forall in Hnew.
  specialize (Hnew c Hc). destruct c as [? ? ? | ? | ? | updates]; simpl; auto.
  simpl in Hnew. subst updates. intros u [<- | []].
  exists keeper. split; [|right; reflexivity].
  rewrite Forall_forall in Hg. auto.
Qed.

Lemma prune_loop_marker (sets : list (list Item * Entry)) (r : Run) :
  Forall (fun ge => fst ge <> [] /\ Forall (fetched libraries) (fst ge)) sets ->
  Forall (marker_call opts libraries) (calls r) ->
  Forall (marker_call opts libraries)
         (calls (snd (final (prune_loop U OS W opts sets r)))).
Proof.
  intros Hsets. revert r. induction Hsets as [|[group entry] rest [Hne Hg] Hrest IH];
    intros r Hr; simpl.
  - assumption.
  - simpl in Hne, Hg. pose proof (@prune_group_marker group entry r Hne Hg Hr) as Hgr.
    destruct (prune_group U OS W opts group entry r) as [[e r'] | [e r']]; simpl in *.
    + specialize (IH r' Hgr).
      destruct (prune_loop U OS W opts rest r') as [[d r''] | [d r'']]; exact IH.
    + exact Hgr.
Qed.

Lemma main_marker (inputs : list pystr) :
  Forall (marker_call opts libraries)
         (calls (snd (final (main U OS W opts libraries inputs)))).
Proof.
  unfold main.
  match goal with
  | |- context [for_each (library_step U opts) libraries
                  {| dup_sets := []; pending_tag_updates := []; run := ?r |}] =>
      pose proof (scan_marker U opts libraries inputs r) as [Hp Hd];
      pose proof (scan_no_call U opts libraries
                    {| dup_sets := []; pending_tag_updates := []; run := r |}) as Hscan
  end.
  destruct (for_each (library_step U opts) libraries _) as [s | s]; simpl in *.
  - assert (Htag : Forall (marker_call opts libraries)
                     (calls (final
                        (if opt_apply opts
                         then batch_update_tags W (pending_tag_updates s) (run s)
                         else Completed (run s))))).
    { destruct (opt_apply opts).
      - apply batch_update_tags_marker; [assumption|]. rewrite Hscan. constructor.
      - simpl. rewrite Hscan. constructor. }
    destruct (if opt_apply opts
              then batch_update_tags W (pending_tag_updates s) (run s)
              else Completed (run s)) as [r | r]; simpl in Htag; [|exact Htag].
    unfold prune_phase. destruct (opt_prune opts); [|exact Htag].
    now apply prune_loop_marker.
  - rewrite Hscan. constructor.
Qed.

End MarkerCalls.

(** X6: every tag update a run sends concerns a fetched item and either
    appends the marker tag to the tags of an item that does not carry it, or
    removes the marker tag from an item's tags; no other tag is added or
    dropped. *)
Theorem main_tag_updates_only_marker (U : UnicodeDB) (OS : OsPath) (W : World)
  (opts : Options) (libraries : list (option (list Item))) (inputs : list pystr) :
  Forall (marker_call opts libraries)
         (calls (snd (final (main U OS W opts libraries inputs)))).
Proof. apply main_marker. Qed.

(** ** Completeness of the grouping *)

Lemma dict_get_groups_append (k k' : pystr) (it : Item) (d : list (pystr * list Item)) :
  dict_get k (groups_append k' it d)
    = if str_eqb k k' then dict_get k d ++ [it] else dict_get k d.
Proof.
  induction d as [|[k0 g] d IH]; simpl.
  - destruct (str_eqb k k'); reflexivity.
  - destruct (str_eqb k' k0) eqn:E0; simpl.
    + apply str_eqb_eq in E0. subst k0.
      destruct (str_eqb k k'); reflexivity.
    + rewrite IH. destruct (str_eqb k k0) eqn:E1; [|reflexivity].
      apply str_eqb_eq in E1. subst k0.
      replace (str_eqb k k') with false; [reflexivity|].
      symmetry. apply str_eqb_neq. apply str_eqb_neq in E0. congruence.
Qed.

Lemma groups_append_keys (k : pystr) (it : Item) (d : list (pystr * list Item)) :
  NoDup (map fst d) ->
  NoDup (map fst (groups_append k it d))
  /\ (forall k', In k' (map fst (groups_append k it d)) -> k' = k \/ In k' (map fst d)).
Proof.
  induction d as [|[k0 g] d IH]; simpl; intros Hd.
  - split; [repeat constructor; intros [] | intros k' [<- | []]; now left].
  - inversion Hd as [|? ? Hk0 Hd']; subst.
    destruct (str_eqb k k0) eqn:E; simpl.
    + split; [assumption | tauto].
    + destruct (IH Hd') as [Hnd Hin]. split.
      * constructor; [|assumption]. intros Hc. destruct (Hin _ Hc) as [-> | Hc'].
        -- rewrite str_eqb_refl in E. discriminate.
        -- contradiction.
      * intros k' [<- | Hk']; [tauto|]. destruct (Hin _ Hk'); tauto.
Qed.

Lemma dict_get_In (k : pystr) (d : list (pystr * list Item)) :
  dict_get k d <> [] -> In (k, dict_get k d) d.
Proof.
  induction d as [|[k0 g] d IH]; simpl; [congruence|].
  destruct (str_eqb k k0) eqn:E.
  - apply str_eqb_eq in E. subst. now left.
  - intros H. right. now apply IH.
Qed.

Lemma In_dict_get (k : pystr) (g : list Item) (d : list (pystr * list Item)) :
  NoDup (map fst d) -> In (k, g) d -> dict_get k d = g.
Proof.
  induction d as [|[k0 g0] d IH]; simpl; intros Hd Hin; [destruct Hin|].
  inversion Hd as [|? ? Hk0 Hd']; subst.
  destruct Hin as [E | Hin].
  - injection E as -> ->. now rewrite str_eqb_refl.
  - destruct (str_eqb k k0) eqn:E; [|now apply IH].
    apply str_eqb_eq in E. subst k0. exfalso. apply Hk0.
    apply in_map_iff. now exists (k, g).
Qed.

Section GroupingComplete.

Variable key_of : Item -> pystr.

Lemma fold_groups_spec (items : list Item) (acc : list (pystr * list Item)) :
  NoDup (map fst acc) ->
  NoDup (map fst
           (fold_left
              (fun groups it =>
                 let key := key_of it in
                 if truthy key then groups_append key it groups else groups)
              items acc))
  /\ forall k,
       dict_get k
         (fold_left
            (fun groups it =>
               let key := key_of it in
               if truthy key then groups_append key it groups else groups)
            items acc)
       = dict_get k acc
         ++ filter (fun it => str_eqb k (key_of it) && truthy (key_of it)) items.
Proof.
  revert acc. induction items as [|it items IH]; intros acc Hacc; simpl.
  - split; [assumption | intros k; now rewrite app_nil_r].
  - destruct (truthy (key_of it)) eqn:Et.
    + destruct (IH (groups_append (key_of it) it acc)) as [Hnd Hget].
      { now apply groups_append_keys. }
      split; [assumption|]. intros k. rewrite Hget, dict_get_groups_append.
      rewrite andb_true_r. destruct (str_eqb k (key_of it)); [|reflexivity].
      now rewrite <- app_assoc.
    + destruct (IH acc Hacc) as [Hnd Hget]. split; [assumption|].
      intros k. rewrite Hget. now rewrite andb_false_r.
Qed.

End GroupingComplete.

(** X7: the grouping phase finds every set of duplicates, whole and once: a
    key [k] and a list [g] form a surfaced group exactly when [k] is not
    empty, [g] is the list of all the items whose key is [k], in the order
    the catalog returned them, and there are at least two of them. *)
Theorem duplicate_groups_complete (U : UnicodeDB) (by_ : pystr)
  (use_ignore_prefix case_sensitive : bool) (items : list Item)
  (k : pystr) (g : list Item) :
  In (k, g) (duplicate_groups U by_ use_ignore_prefix case_sensitive items)
  <-> k <> []
      /\ g = filter (fun it =>
                       str_eqb k (make_key U it by_ use_ignore_prefix case_sensitive))
                    items
      /\ 2 <= length g.
Proof.
  destruct (@fold_groups_spec
              (fun it => make_key U it by_ use_ignore_prefix case_sensitive) items [])
    as [Hnd Hget]; [constructor|].
  fold (build_groups U by_ use_ignore_prefix case_sensitive items) in Hnd, Hget.
  assert (Hfilter : k <> [] ->
            dict_get k (build_groups U by_ use_ignore_prefix case_sensitive items)
            = filter (fun it =>
                        str_eqb k (make_key U it by_ use_ignore_prefix case_sensitive))
                     items).
  { intros Hk. rewrite Hget. simpl. apply filter_ext. intros it.
    destruct (str_eqb k _) eqn:E; [|reflexivity].
    apply str_eqb_eq in E. rewrite <- E. destruct k; [congruence | reflexivity]. }
  unfold duplicate_groups. rewrite filter_In. simpl. split.
  - intros [Hin Hlen].
    pose proof (build_groups_keyed U by_ use_ignore_prefix case_sensitive items) as Hkeyed.
    rewrite Forall_forall in Hkeyed. destruct (Hkeyed _ Hin) as [Hk _]. simpl in Hk.
    split; [assumption|]. split.
    + rewrite <- Hfilter by assumption. symmetry. now apply In_dict_get.
    + apply Bool.negb_true_iff, Nat.leb_gt in Hlen. lia.
  - intros (Hk & Hg & Hlen). rewrite <- Hfilter in Hg by assumption. split.
    + rewrite Hg. apply dict_get_In. rewrite <- Hg. intros ->. simpl in Hlen. lia.
    + apply Bool.negb_true_iff, Nat.leb_gt. lia.
Qed.

(** ** Path mapping and the root guard *)

Lemma startswith_prefix (s p : pystr) : startswith s p = true <-> is_prefix s p.
Proof.
  revert p. induction s as [|a s IH]; intros p; simpl.
  - split; [intros _; now exists p | reflexivity].
  - destruct p as [|b p]; [split; [discriminate | intros [t Ht]; discriminate]|].
    rewrite andb_true_iff, N.eqb_eq, IH. split.
    + intros [-> [t ->]]. now exists t.
    + intros [t Ht]. injection Ht as -> ->. split; [reflexivity | now exists t].
Qed.

Lemma skipn_prefix (s tail : pystr) : skipn (length s) (s ++ tail) = tail.
Proof. induction s; simpl; auto. Qed.

(** X8: [_apply_path_map] applies the first mapping whose source is an
    initial part of the path and ignores the mappings after it: the result is
    the destination joined with the rest of the path, stripped of leading
    slashes and backslashes.  A path that no source starts, and the empty
    path, are returned unchanged. *)
Theorem apply_path_map_first_match (OS : OsPath) (p : pystr)
  (path_map : list (pystr * pystr)) :
  (forall before src dst after tail,
     path_map = before ++ (src, dst) :: after ->
     Forall (fun sd => ~ is_prefix (fst sd) p) before ->
     p = src ++ tail -> p <> [] ->
     _apply_path_map OS p path_map
       = path_join OS dst (lstrip_chars [47; 92]%N tail))
  /\ (Forall (fun sd => ~ is_prefix (fst sd) p) path_map \/ p = [] ->
      _apply_path_map OS p path_map = p).
Proof.
  split.
  - intros before src dst after tail -> Hbefore Hp Hne.
    unfold _apply_path_map. destruct p as [|c p']; [congruence|]. cbn [truthy negb].
    induction Hbefore as [|[s d] before Hs Hbefore IH]; simpl.
    + replace (startswith src (c :: p')) with true
        by (symmetry; apply startswith_prefix; now exists tail).
      rewrite Hp. now rewrite skipn_prefix.
    + replace (startswith s (c :: p')) with false; [exact IH|].
      symmetry. apply Bool.not_true_is_false. intros H.
      apply startswith_prefix in H. exact (Hs H).
  - intros [Hnone | ->]; [|reflexivity].
    unfold _apply_path_map. destruct (negb (truthy p)); [reflexivity|].
    induction Hnone as [|[s d] rest Hs Hrest IH]; simpl; [reflexivity|].
    replace (startswith s p) with false; [exact IH|].
    symmetry. apply Bool.not_true_is_false. intros H.
    apply startswith_prefix in H. exact (Hs H).
Qed.

(** X8 on two mappings with the same source: the first one is applied. *)
Lemma apply_path_map_first_match_witness :
  _apply_path_map Sim.os (lit "/c/book")
    [(lit "/x/", lit "/h/x/"); (lit "/c/", lit "/h/a/"); (lit "/c/", lit "/h/b/")]
    = path_join Sim.os (lit "/h/a/") (lstrip_chars [47; 92]%N (lit "book")).
Proof.
  apply (proj1 (apply_path_map_first_match Sim.os (lit "/c/book")
                  [(lit "/x/", lit "/h/x/"); (lit "/c/", lit "/h/a/");
                   (lit "/c/", lit "/h/b/")])
           [(lit "/x/", lit "/h/x/")] (lit "/c/") (lit "/h/a/")
           [(lit "/c/", lit "/h/b/")] (lit "book")).
  - reflexivity.
  - constructor; [|constructor]. intros [t Ht]. discriminate.
  - reflexivity.
  - discriminate.
Defined.

Example apply_path_map_run :
  _apply_path_map Sim.os (lit "/c/book")
    [(lit "/c/", lit "/h/a/"); (lit "/c/", lit "/h/b/")] = lit "/h/a/book".
Proof. vm_compute. reflexivity. Qed.

Lemma within_roots_loop_iff (OS : OsPath) (p_real : pystr) (roots : list pystr) :
  within_roots_loop OS p_real roots = true
  <-> exists before r after,
        roots = before ++ r :: after
        /\ Forall (fun q => realpath OS q <> None) before
        /\ root_holds OS p_real r.
Proof.
  induction roots as [|q roots IH]; simpl.
  - split; [discriminate|]. intros (before & r & after & H & _).
    destruct before; discriminate.
  - split.
    + destruct (realpath OS q) as [q_real|] eqn:Eq; [|discriminate].
      assert (Hrec : within_roots_loop OS p_real roots = true ->
                exists before r after,
                  q :: roots = before ++ r :: after
                  /\ Forall (fun q => realpath OS q <> None) before
                  /\ root_holds OS p_real r).
      { intros H. apply IH in H. destruct H as (before & r & after & -> & Hb & Hr).
        exists (q :: before), r, after. repeat split; [|assumption].
        constructor; [congruence | assumption]. }
      destruct (commonpath OS [p_real; q_real]) as [c|] eqn:Ec; [|exact Hrec].
      destruct (str_eqb c q_real) eqn:E; [|exact Hrec].
      intros _. apply str_eqb_eq in E. subst c.
      exists [], q, roots. repeat split; [constructor|]. now exists q_real.
    + intros (before & r & after & Hroots & Hb & (r_real & Hr & Hc)).
      destruct before as [|q' before]; simpl in Hroots; injection Hroots as <- ->.
      * rewrite Hr, Hc, str_eqb_refl. reflexivity.
      * inversion Hb as [|? ? Hq Hb']; subst.
        destruct (realpath OS q) as [q_real|]; [|congruence].
        assert (Hrec : within_roots_loop OS p_real (before ++ r :: after) = true).
        { apply IH. exists before, r, after. repeat split; [assumption|].
          now exists r_real. }
        destruct (commonpath OS [p_real; q_real]) as [c|]; [|exact Hrec].
        destruct (str_eqb c q_real); [reflexivity | exact Hrec].
Qed.

(** X9: against a non-empty list of roots [_is_within_roots] answers true
    exactly when the path resolves and some root holds its real path, all
    roots listed before that one being resolvable; a path or an earlier root
    that cannot be resolved gives false. *)
Theorem is_within_roots_iff (OS : OsPath) (p : pystr) (roots : list pystr) :
  roots <> [] ->
  (_is_within_roots OS p roots = true
   <-> exists p_real before r after,
         realpath OS p = Some p_real
         /\ roots = before ++ r :: after
         /\ Forall (fun q => realpath OS q <> None) before
         /\ root_holds OS p_real r).
Proof.
  intros Hne. unfold _is_within_roots. destruct roots as [|q roots]; [congruence|].
  destruct (realpath OS p) as [p_real|].
  - rewrite within_roots_loop_iff. split.
    + intros (before & r & after & H). now exists p_real, before, r, after.
    + intros (p_real' & before & r & after & E & H). injection E as <-.
      now exists before, r, after.
  - split; [discriminate|]. intros (p_real & ? & ? & ? & E & _). discriminate.
Qed.

Lemma is_within_roots_iff_witness :
  _is_within_roots Sim.os (lit "/data/books/x") [lit "/srv"; lit "/data/books"] = true.
Proof.
  apply (proj2 (@is_within_roots_iff Sim.os (lit "/data/books/x")
                  [lit "/srv"; lit "/data/books"] ltac:(discriminate))).
  exists (lit "/data/books/x"), [lit "/srv"], (lit "/data/books"), [].
  repeat split.
  - constructor; [discriminate | constructor].
  - exists (lit "/data/books"). split; vm_compute; reflexivity.
Defined.

Example is_within_roots_run :
  _is_within_roots Sim.os (lit "/etc/passwd") [lit "/data/books"] = false
  /\ _is_within_roots Sim.os (lit "/data/booksX/y") [lit "/data/books"] = false
  /\ _is_within_roots Sim.os (lit "/data/books") [lit "/data/books"] = true.
Proof. repeat split; vm_compute; reflexivity. Qed.

(** ** More on formats *)

Lemma norm_format_not_mp4 (f : pystr) : norm_format f <> lit "mp4".
Proof.
  unfold norm_format. destruct (str_eqb f (lit "m4a")) eqn:E1; simpl; [discriminate|].
  destruct (str_eqb f (lit "mp4")) eqn:E2; [discriminate|].
  now apply str_eqb_neq.
Qed.

(** X10: [mp4] is always reported as [m4a]: the list [item_formats] returns
    never holds [mp4], and [dominant_format] returns one of the formats of
    that list, never [mp4]. *)
Theorem formats_never_mp4 (U : UnicodeDB) (it : Item) :
  exists fmts f,
    item_formats U it = Some fmts
    /\ dominant_format U it = Some f
    /\ In f fmts
    /\ ~ In (lit "mp4") fmts.
Proof.
  destruct (dominant_format_first_token U it) as (f & rest & Hf & Hd).
  exists (f :: rest), f. split; [assumption|]. split; [assumption|].
  split; [now left|].
  destruct (item_formats_spec U it) as (cands & Hc & Hfmts).
  rewrite Hf in Hfmts. injection Hfmts as Hfmts. rewrite Hfmts.
  unfold normed_candidates in Hc.
  destruct (format_candidates U it) as [raw|]; [|discriminate].
  simpl in Hc. injection Hc as <-.
  destruct (first_occurrences (map norm_format raw)) as [|x xs] eqn:Efo.
  - intros [H | []]. discriminate.
  - rewrite <- Efo. intros Hin. apply first_occurrences_from_In in Hin.
    destruct Hin as [Hin _]. apply in_map_iff in Hin.
    destruct Hin as (y & Hy & _). exact (norm_format_not_mp4 y Hy).
Qed.

(** ** The interactive choice *)

(** X11: an answer of [ask_choice] is one of the choices, or the non-empty
    default when a blank line was entered; it consumes at least one line of
    input and leaves the rest. *)
Theorem ask_choice_answer_valid (U : UnicodeDB) (choices : list pystr)
  (default : option pystr) (inputs : list pystr) (ans : pystr) (rest : list pystr) :
  ask_choice U choices default inputs = Some (ans, rest) ->
  (In ans choices \/ (default = Some ans /\ ans <> []))
  /\ exists consumed, consumed <> [] /\ inputs = consumed ++ rest.
Proof.
  induction inputs as [|l inputs IH]; simpl; [discriminate|].
  destruct (negb (truthy (lower U (strip_ws U l))) && truthy (or_empty default)) eqn:Eb.
  - intros E. injection E as <- <-. split.
    + right. apply andb_prop in Eb. destruct Eb as [_ Hd].
      destruct default as [d|]; simpl in *; [|discriminate].
      split; [reflexivity|]. intros ->. discriminate.
    + exists [l]. split; [discriminate | reflexivity].
  - destruct (existsb (str_eqb (lower U (strip_ws U l))) choices) eqn:Ec.
    + intros E. injection E as <- <-. split.
      * left. apply (proj1 (mem_In _ _)). exact Ec.
      * exists [l]. split; [discriminate | reflexivity].
    + intros E. destruct (IH E) as [Hans (consumed & _ & ->)].
      split; [assumption|]. exists (l :: consumed). split; [discriminate | reflexivity].
Qed.

(** X11 on an invalid answer followed by a valid one. *)
Lemma ask_choice_answer_valid_witness :
  (In (lit "mp3") [lit "m4b"; lit "mp3"]
   \/ (Some (lit "m4b") = Some (lit "mp3") /\ lit "mp3" <> []))
  /\ exists consumed,
       consumed <> [] /\ [lit "flac"; lit " MP3 "; lit "m4b"] = consumed ++ [lit "m4b"].
Proof.
  apply (@ask_choice_answer_valid Fragment.db [lit "m4b"; lit "mp3"] (Some (lit "m4b"))
           [lit "flac"; lit " MP3 "; lit "m4b"] (lit "mp3") [lit "m4b"]).
  vm_compute. reflexivity.
Defined.

(** ** Tallies of a prune *)

Lemma for_each_count (A S : Type) (I : nat -> S -> Prop) (body : A -> S -> outcome S) :
  (forall n m s, n <= m -> I n s -> I m s) ->
  (forall x s n, I n s -> I (Datatypes.S n) (final (body x s))) ->
  forall l s n, I n s -> I (n + length l) (final (for_each body l s)).
Proof.
  intros Hmono Hbody l. induction l as [|x l IH]; intros s n Hs; simpl.
  - now rewrite Nat.add_0_r.
  - specialize (Hbody x s n Hs). destruct (body x s) as [s' | s']; simpl in *.
    + replace (n + Datatypes.S (length l)) with (Datatypes.S n + length l) by lia.
      now apply IH.
    + apply (Hmono (Datatypes.S n)); [lia | assumption].
Qed.

Lemma and_then_step (S : Type) (P Q : S -> Prop) (o : outcome S) (k : S -> outcome S) :
  P (final o) -> (forall s, P s -> Q s) -> (forall s, P s -> Q (final (k s))) ->
  Q (final (and_then o k)).
Proof. destruct o; simpl; auto. Qed.

Lemma filter_length_lt (A : Type) (f : A -> bool) (l : list A) (x : A) :
  In x l -> f x = false -> length (filter f l) < length l.
Proof.
  induction l as [|y l IH]; intros Hin Hx; [destruct Hin|]. simpl.
  pose proof (filter_length_le f l) as Hle.
  destruct Hin as [-> | Hin].
  - rewrite Hx. lia.
  - specialize (IH Hin Hx). destruct (f y); simpl; lia.
Qed.

Section TallyFacts.

Variable U : UnicodeDB.
Variable OS : OsPath.
Variable W : World.
Variable opts : Options.

Lemma file_step_tallies (candidates deleted : nat) (it : Item) (s : Entry * Run) (n : nat) :
  tallies_within candidates n deleted s ->
  tallies_within candidates (S n) deleted (final (file_step U OS W opts it s)).
Proof.
  destruct s as [entry r]. unfold tallies_within, file_tally. simpl.
  intros (Hc & Hf & Hd). unfold file_step.
  destruct (negb (truthy _)); [simpl; lia|].
  destruct (str_eqb (opt_delete_files opts) (lit "off")); [simpl; lia|].
  destruct (negb (_is_within_roots OS _ (opt_allow_roots opts))).
  { destruct (Nat.ltb _ 2); simpl; lia. }
  destruct (opt_apply opts).
  - destruct (str_eqb (opt_delete_files opts) (lit "trash")).
    + unfold _move_to_trash.
      destruct (move_to_trash_result W _ _ _ _) as [[[] dest]|]; simpl; lia.
    + destruct (str_eqb (opt_delete_files opts) (lit "remove")); [|simpl; lia].
      unfold _remove_path. destruct (remove_path_result W _ _); simpl; lia.
  - destruct (str_eqb (opt_delete_files opts) (lit "trash")); [simpl; lia|].
    destruct (str_eqb (opt_delete_files opts) (lit "remove")); simpl; lia.
Qed.

Lemma catalog_step_tallies (candidates files : nat) (it : Item) (s : Entry * Run)
  (n : nat) :
  tallies_within candidates files n s ->
  tallies_within candidates files (S n) (final (catalog_step W opts it s)).
Proof.
  destruct s as [entry r]. unfold tallies_within, file_tally. simpl.
  intros (Hc & Hf & Hd). unfold catalog_step.
  destruct (opt_apply opts); [|simpl; lia].
  unfold delete_item_from_abs.
  destruct (delete_item_result W _ _) as [[]|]; simpl; lia.
Qed.

Lemma reconcile_tags_tallies (candidates files deleted : nat) (keeper : Item)
  (s : Entry * Run) :
  tallies_within candidates files deleted s ->
  tallies_within candidates files deleted (final (reconcile_tags W opts keeper s)).
Proof.
  destruct s as [entry r]. intros H. unfold reconcile_tags.
  destruct (opt_clean_tags_after_prune opts && opt_assume_yes opts); [|exact H].
  destruct (opt_apply opts); [|exact H].
  destruct (batch_update_tags W _ r); exact H.
Qed.

Lemma prune_group_tallies_within (group : list Item) (entry : Entry) (r : Run) :
  unpruned entry ->
  exists candidates,
    tallies_within candidates candidates candidates
                   (final (prune_group U OS W opts group entry r))
    /\ candidates <= length group
    /\ (group <> [] -> candidates < length group).
Proof.
  intros (Hc & Hf & Hd).
  assert (Hnothing : forall e' r',
            e_tally e' = e_tally entry ->
            exists candidates,
              tallies_within candidates candidates candidates (e', r')
              /\ candidates <= length group
              /\ (group <> [] -> candidates < length group)).
  { intros e' r' He. exists 0. unfold tallies_within, file_tally in *. simpl.
    rewrite He. repeat split; try lia.
    intros Hne. destruct group; [congruence | simpl; lia]. }
  unfold prune_group.
  destruct (classify U group []) as [by_fmt|] eqn:Ecl; [|now apply Hnothing].
  match goal with
  | |- context [match ?c with Some _ => _ | None => _ end] => destruct c as [[chosen rest]|]
  end; [|now apply Hnothing].
  destruct (dict_get chosen by_fmt) as [|k0 ks] eqn:Eget; [now apply Hnothing|].
  destruct (choose_keeper (k0 :: ks)) as [keeper|] eqn:Ek; [|now apply Hnothing].
  assert (Hkeeper : In keeper group).
  { apply choose_keeper_In in Ek. rewrite <- Eget in Ek.
    destruct (classify_members U group [] Ecl chosen keeper Ek) as [[] | H]. exact H. }
  set (to_remove := filter (fun it => negb (str_eqb (it_id it) (it_id keeper))) group).
  assert (Hlt : length to_remove < length group).
  { apply (filter_length_lt _ _ keeper Hkeeper). now rewrite str_eqb_refl. }
  exists (length to_remove). split; [|split; [lia | intros _; exact Hlt]].
  set (N := length to_remove).
  assert (Hmono1 : forall n m s, n <= m -> tallies_within N n 0 s -> tallies_within N m 0 s)
    by (unfold tallies_within; intros; intuition lia).
  assert (Hmono2 : forall n m s, n <= m -> tallies_within N N n s -> tallies_within N N m s)
    by (unfold tallies_within; intros; intuition lia).
  apply (and_then_step (tallies_within N N 0) (tallies_within N N N)).
  - change N with (0 + length to_remove) at 2.
    apply (for_each_count (fun n => tallies_within N n 0) (file_step U OS W opts) Hmono1).
    + intros x s n. apply file_step_tallies.
    + unfold tallies_within, file_tally in *. simpl. lia.
  - intros s. apply Hmono2. lia.
  - intros s Hs. apply (and_then_invariant (tallies_within N N N)).
    + change N with (0 + length to_remove) at 3.
      apply (for_each_count (fun n => tallies_within N N n) (catalog_step W opts) Hmono2).
      * intros x s' n. apply catalog_step_tallies.
      * exact Hs.
    + intros s' Hs'. now apply reconcile_tags_tallies.
Qed.

End TallyFacts.

Lemma unpruned_in_bounds (group : list Item) (entry : Entry) :
  group <> [] -> unpruned entry -> report_in_bounds (group, entry).
Proof.
  intros Hne (Hc & Hf & Hd). unfold report_in_bounds. simpl.
  destruct group; [congruence | simpl; lia].
Qed.

Lemma prune_group_in_bounds (U : UnicodeDB) (OS : OsPath) (W : World) (opts : Options)
  (group : list Item) (entry : Entry) (r : Run) :
  group <> [] -> unpruned entry ->
  report_in_bounds (group, fst (final (prune_group U OS W opts group entry r))).
Proof.
  intros Hne Hu.
  destruct (prune_group_tallies_within U OS W opts group r Hu)
    as (n & (Hc & Hf & Hd) & _ & Hlt).
  specialize (Hlt Hne). unfold report_in_bounds. simpl. lia.
Qed.

Lemma prune_loop_in_bounds (U : UnicodeDB) (OS : OsPath) (W : World) (opts : Options)
  (sets : list (list Item * Entry)) (r : Run) :
  Forall (fun ge => fst ge <> [] /\ unpruned (snd ge)) sets ->
  Forall report_in_bounds (fst (final (prune_loop U OS W opts sets r))).
Proof.
  intros Hsets. revert r.
  induction Hsets as [|[group entry] rest [Hne Hu] Hrest IH]; intros r; simpl.
  - constructor.
  - simpl in Hne, Hu.
    pose proof (prune_group_in_bounds U OS W opts r Hne Hu) as Hg.
    destruct (prune_group U OS W opts group entry r) as [[e r'] | [e r']]; simpl in Hg.
    + specialize (IH r').
      destruct (prune_loop U OS W opts rest r') as [[d r''] | [d r'']]; simpl in *;
        now constructor.
    + simpl. constructor; [assumption|].
      apply Forall_forall. intros [g e0] Hin. rewrite Forall_forall in Hrest.
      destruct (Hrest _ Hin). now apply unpruned_in_bounds.
Qed.

Lemma tag_fold_unpruned (opts : Options) (keeper_id : pystr) (items : list Item)
  (acc : Entry * list (pystr * list pystr)) :
  unpruned (fst acc) ->
  unpruned (fst (fold_left (fun acc it => tag_step opts keeper_id it acc) items acc)).
Proof.
  revert acc. induction items as [|it items IH]; intros acc Ha; simpl; [assumption|].
  apply IH. destruct acc as [e p]. unfold tag_step.
  destruct (negb (opt_tag_all opts) && str_eqb (it_id it) keeper_id); [assumption|].
  destruct (negb (existsb _ _)); exact Ha.
Qed.

Lemma group_step_unpruned (U : UnicodeDB) (opts : Options) (kg : pystr * list Item)
  (s : Scan) :
  Forall (fun ge => fst ge <> [] /\ unpruned (snd ge)) (dup_sets s) ->
  Forall (fun ge => fst ge <> [] /\ unpruned (snd ge))
         (dup_sets (final (group_step U opts kg s))).
Proof.
  intros Hd. unfold group_step.
  destruct (Nat.leb (length (snd kg)) 1) eqn:Elen; [assumption|].
  destruct (choose_keeper (snd kg)) as [keeper|]; [|assumption].
  destruct (_make_entry U opts (snd kg) (it_id keeper)) as [entry|] eqn:Ee; [|assumption].
  pose proof (@tag_fold_unpruned opts (it_id keeper) (snd kg)
                (entry, pending_tag_updates s)) as Hfold.
  destruct (fold_left _ (snd kg) _) as [e p]. simpl in *.
  apply Forall_app. split; [assumption|]. constructor; [|constructor]. simpl. split.
  - intros E. rewrite E in Elen. discriminate.
  - apply Hfold. unfold _make_entry in Ee.
    destruct (snd kg) as [|first rest]; [discriminate|].
    destruct (dominant_formats U (first :: rest)); [|discriminate].
    injection Ee as <-. repeat split.
Qed.

Lemma scan_unpruned (U : UnicodeDB) (opts : Options)
  (libraries : list (option (list Item))) (r : Run) :
  Forall (fun ge => fst ge <> [] /\ unpruned (snd ge))
         (dup_sets (final (for_each (library_step U opts) libraries
                             {| dup_sets := []; pending_tag_updates := []; run := r |}))).
Proof.
  apply (for_each_invariant
           (fun s => Forall (fun ge => fst ge <> [] /\ unpruned (snd ge)) (dup_sets s)));
    [|constructor].
  intros fetched_items s Hs. unfold library_step.
  destruct fetched_items as [items|]; [|assumption].
  apply (for_each_invariant
           (fun s => Forall (fun ge => fst ge <> [] /\ unpruned (snd ge)) (dup_sets s)));
    [|assumption].
  intros kg s'. apply group_step_unpruned.
Qed.

(** X12: in the report of a run, for every duplicate group the files moved,
    deleted and skipped together, and likewise the catalog entries deleted,
    never exceed the number of removal candidates, which is always smaller
    than the number of copies in the group. *)
Theorem main_report_in_bounds (U : UnicodeDB) (OS : OsPath) (W : World)
  (opts : Options) (libraries : list (option (list Item))) (inputs : list pystr) :
  Forall report_in_bounds (fst (final (main U OS W opts libraries inputs))).
Proof.
  unfold main.
  match goal with
  | |- context [for_each (library_step U opts) libraries
                  {| dup_sets := []; pending_tag_updates := []; run := ?r |}] =>
      pose proof (scan_unpruned U opts libraries r) as Hscan
  end.
  assert (Hidle : forall sets,
             Forall (fun ge => fst ge <> [] /\ unpruned (snd ge)) sets ->
             Forall report_in_bounds sets).
  { intros sets Hs. apply Forall_forall. intros [g e] Hin.
    rewrite Forall_forall in Hs. destruct (Hs _ Hin). now apply unpruned_in_bounds. }
  destruct (for_each (library_step U opts) libraries _) as [s | s]; simpl in *.
  - destruct (if opt_apply opts
              then batch_update_tags W (pending_tag_updates s) (run s)
              else Completed (run s)) as [r | r]; simpl; [|now apply Hidle].
    unfold prune_phase. destruct (opt_prune opts); simpl; [|now apply Hidle].
    now apply prune_loop_in_bounds.
  - now apply Hidle.
Qed.

(** ** The scan of the libraries *)

Lemma dominant_formats_total (U : UnicodeDB) (group : list Item) :
  exists fs, dominant_formats U group = Some fs.
Proof.
  induction group as [|it group [fs IH]]; simpl; [now exists []|].
  destruct (dominant_format_first_token U it) as (f & rest & _ & ->).
  rewrite IH. now exists (f :: fs).
Qed.

Lemma choose_keeper_total (items : list Item) :
  items <> [] -> exists keeper, choose_keeper items = Some keeper.
Proof.
  intros Hne. destruct (sorted_head_first_min item_added_at Hne) as (k & _ & Hk & _).
  now exists k.
Qed.

Lemma _make_entry_total (U : UnicodeDB) (opts : Options) (group : list Item)
  (keeper_id : pystr) :
  group <> [] -> exists entry, _make_entry U opts group keeper_id = Some entry.
Proof.
  intros Hne. unfold _make_entry.
  destruct (dominant_formats_total U group) as [fs Hfs].
  destruct group as [|first rest]; [congruence|].
  rewrite Hfs. eexists. reflexivity.
Qed.

Section ScanFacts.

Variable U : UnicodeDB.
Variable opts : Options.
Variable r0 : Run.
Variable sets0 : list (list Item * Entry).

Lemma group_step_scanned (kg : pystr * list Item) (s : Scan)
  (failed items : nat) (groups : list (list Item)) :
  scanned r0 sets0 failed items groups s ->
  exists s',
    group_step U opts kg s = Completed s'
    /\ scanned r0 sets0 failed items
               (groups ++ if Nat.leb (length (snd kg)) 1 then [] else [snd kg]) s'.
Proof.
  intros (Hd & He & Hi & Hb). unfold group_step.
  destruct (Nat.leb (length (snd kg)) 1) eqn:Elen.
  - exists s. split; [reflexivity|]. rewrite app_nil_r. now repeat split.
  - destruct (@choose_keeper_total (snd kg)) as [keeper ->].
    { intros E. rewrite E in Elen. discriminate. }
    destruct (@_make_entry_total U opts (snd kg) (it_id keeper)) as [entry ->].
    { intros E. rewrite E in Elen. discriminate. }
    destruct (fold_left _ (snd kg) _) as [e p].
    eexists. split; [reflexivity|]. unfold scanned. simpl.
    rewrite map_app, Hd, length_app. simpl. rewrite <- app_assoc.
    unfold bump. simpl. repeat split; lia.
Qed.

Lemma groups_scanned (gs : list (pystr * list Item)) (s : Scan)
  (failed items : nat) (groups : list (list Item)) :
  scanned r0 sets0 failed items groups s ->
  exists s',
    for_each (group_step U opts) gs s = Completed s'
    /\ scanned r0 sets0 failed items
         (groups ++ map snd (filter (fun kg => negb (Nat.leb (length (snd kg)) 1)) gs)) s'.
Proof.
  revert s groups. induction gs as [|kg gs IH]; intros s groups Hs; simpl.
  - exists s. split; [reflexivity|]. now rewrite app_nil_r.
  - destruct (group_step_scanned kg Hs) as (s1 & -> & H1).
    destruct (IH _ _ H1) as (s2 & -> & H2). exists s2. split; [reflexivity|].
    rewrite <- app_assoc in H2. destruct (Nat.leb (length (snd kg)) 1); exact H2.
Qed.

Lemma libraries_scanned_spec (libraries : list (option (list Item))) (s : Scan)
  (failed items : nat) (groups : list (list Item)) :
  scanned r0 sets0 failed items groups s ->
  exists s',
    for_each (library_step U opts) libraries s = Completed s'
    /\ scanned r0 sets0 (failed + failed_fetches libraries)
               (items + fetched_count libraries)
               (groups ++ surfaced_groups U opts libraries) s'.
Proof.
  revert s failed items groups.
  induction libraries as [|lib libraries IH]; intros s failed items groups Hs.
  - exists s. split; [reflexivity|].
    unfold failed_fetches, fetched_count, surfaced_groups. simpl.
    now rewrite !Nat.add_0_r, app_nil_r.
  - cbn [for_each]. unfold library_step at 1. destruct lib as [fetched_items|].
    + match goal with
      | |- context [for_each (group_step U opts) ?gs ?s1] =>
          destruct (@groups_scanned gs s1 failed (items + length fetched_items) groups)
            as (s2 & -> & H2)
      end.
      { destruct Hs as (Hd & He & Hi & Hb). unfold scanned, bump. simpl.
        repeat split; try assumption. lia. }
      destruct (IH _ _ _ _ H2) as (s3 & -> & H3). exists s3. split; [reflexivity|].
      unfold failed_fetches, fetched_count, surfaced_groups in *. simpl.
      rewrite <- app_assoc in H3. rewrite Nat.add_assoc. exact H3.
    + match goal with
      | |- context [for_each (library_step U opts) libraries ?s1] =>
          destruct (IH s1 (failed + 1) items groups) as (s3 & -> & H3)
      end.
      { destruct Hs as (Hd & He & Hi & Hb). unfold scanned, bump. simpl.
        repeat split; try assumption. lia. }
      exists s3. split; [reflexivity|].
      unfold failed_fetches, fetched_count, surfaced_groups in *. simpl.
      replace (failed + S (length (filter
                 (fun lib => match lib with None => true | Some _ => false end)
                 libraries)))
        with (failed + 1 + length (filter
                 (fun lib => match lib with None => true | Some _ => false end)
                 libraries)) by lia.
      exact H3.
Qed.

End ScanFacts.

(** X13: the scan of the libraries always completes.  It sets aside exactly
    the duplicate groups of each fetched library, library after library, and
    counts one error per library that could not be fetched, every fetched
    item, and one duplicate book per group set aside. *)
Theorem scan_counts (U : UnicodeDB) (opts : Options)
  (libraries : list (option (list Item))) (r : Run) :
  exists s,
    for_each (library_step U opts) libraries
             {| dup_sets := []; pending_tag_updates := []; run := r |} = Completed s
    /\ map fst (dup_sets s) = surfaced_groups U opts libraries
    /\ stats (run s) errors = stats r errors + failed_fetches libraries
    /\ stats (run s) items_total = stats r items_total + fetched_count libraries
    /\ stats (run s) dupe_books
       = stats r dupe_books + length (surfaced_groups U opts libraries).
Proof.
  destruct (@libraries_scanned_spec U opts r [] libraries
              {| dup_sets := []; pending_tag_updates := []; run := r |} 0 0 [])
    as (s & Hs & H).
  - unfold scanned. simpl. repeat split; lia.
  - exists s. split; [assumption|]. exact H.
Qed.

(** ** Option values *)

Section StripFacts.

Variable U : UnicodeDB.

Lemma lstrip_ws_head (s : pystr) :
  lstrip_ws U s = []
  \/ exists c t, lstrip_ws U s = c :: t /\ isspace U c = false.
Proof.
  induction s as [|c s IH]; simpl; [now left|].
  destruct (isspace U c) eqn:E; [exact IH|]. right. now exists c, s.
Qed.

Lemma lstrip_ws_idem (s : pystr) : lstrip_ws U (lstrip_ws U s) = lstrip_ws U s.
Proof.
  destruct (lstrip_ws_head s) as [-> | (c & t & -> & Hc)]; [reflexivity|].
  simpl. now rewrite Hc.
Qed.

Lemma lstrip_ws_In (s : pystr) (x : N) : In x (lstrip_ws U s) -> In x s.
Proof.
  induction s as [|c s IH]; simpl; [tauto|].
  destruct (isspace U c); simpl; tauto.
Qed.

Lemma lstrip_ws_snoc (x : pystr) (c : N) :
  isspace U c = false -> lstrip_ws U (x ++ [c]) = lstrip_ws U x ++ [c].
Proof.
  intros Hc. induction x as [|d x IH]; simpl.
  - now rewrite Hc.
  - destruct (isspace U d); [exact IH | reflexivity].
Qed.

Lemma strip_ws_stripped (s : pystr) : stripped U (strip_ws U s).
Proof.
  unfold stripped, strip_ws. rewrite rev_involutive.
  split; [|apply lstrip_ws_idem].
  destruct (lstrip_ws_head s) as [-> | (c & t & -> & Hc)]; [reflexivity|].
  simpl rev. rewrite lstrip_ws_snoc by assumption.
  rewrite rev_app_distr. simpl. now rewrite Hc.
Qed.

Lemma stripped_strip_ws (s : pystr) : stripped U s -> strip_ws U s = s.
Proof.
  intros [H1 H2]. unfold strip_ws. rewrite H1, H2. apply rev_involutive.
Qed.

Lemma strip_ws_In (s : pystr) (x : N) : In x (strip_ws U s) -> In x s.
Proof.
  unfold strip_ws. intros H. apply in_rev in H. apply lstrip_ws_In in H.
  apply in_rev in H. now apply lstrip_ws_In in H.
Qed.

End StripFacts.

Lemma split_char_free (c : N) (s : pystr) : Forall (fun w => ~ In c w) (split_char c s).
Proof.
  induction s as [|d s IH]; simpl.
  - constructor; [tauto | constructor].
  - destruct (N.eqb d c) eqn:E.
    + constructor; [tauto | assumption].
    + apply N.eqb_neq in E. destruct (split_char c s) as [|w ws].
      * constructor; [|constructor]. intros [H | []]. congruence.
      * inversion IH; subst. constructor; [|assumption].
        intros [H | H]; [congruence | contradiction].
Qed.

Lemma split_char_word (c : N) (w : pystr) : ~ In c w -> split_char c w = [w].
Proof.
  induction w as [|d w IH]; intros H; simpl; [reflexivity|].
  replace (N.eqb d c) with false
    by (symmetry; apply N.eqb_neq; intros ->; apply H; now left).
  rewrite IH; [reflexivity|]. intros Hc. apply H. now right.
Qed.

Lemma split_char_word_then (c : N) (w rest : pystr) :
  ~ In c w -> split_char c (w ++ c :: rest) = w :: split_char c rest.
Proof.
  induction w as [|d w IH]; intros H; simpl.
  - now rewrite N.eqb_refl.
  - replace (N.eqb d c) with false
      by (symmetry; apply N.eqb_neq; intros ->; apply H; now left).
    rewrite IH; [reflexivity|]. intros Hc. apply H. now right.
Qed.

Lemma split_char_join (c : N) (l : list pystr) :
  l <> [] -> Forall (fun w => ~ In c w) l -> split_char c (join [c] l) = l.
Proof.
  intros Hne Hl. revert Hne. induction Hl as [|w l Hw Hl IH]; intros Hne;
    [exfalso; now apply Hne|].
  destruct l as [|w' l'].
  - simpl. now apply split_char_word.
  - change (join [c] (w :: w' :: l')) with (w ++ c :: join [c] (w' :: l')).
    rewrite split_char_word_then by assumption. rewrite IH; [reflexivity | discriminate].
Qed.

Lemma csv_entries_clean_aux (U : UnicodeDB) (s : pystr) :
  Forall (clean_entry U 44) (_csv U (SetStr s)).
Proof.
  unfold _csv. apply Forall_forall. intros e He.
  apply in_map_iff in He. destruct He as (x & <- & Hx).
  apply filter_In in Hx. destruct Hx as [Hx Ht].
  repeat split.
  - intros E. rewrite E in Ht. discriminate.
  - intros Hc. apply strip_ws_In in Hc.
    pose proof (split_char_free 44 s) as Hfree. rewrite Forall_forall in Hfree.
    exact (Hfree x Hx Hc).
  - apply strip_ws_stripped.
  - apply strip_ws_stripped.
Qed.

(** X14: the entries [_csv] reads from a string are clean: none is empty,
    none contains a comma, none starts or ends with white space. *)
Theorem csv_entries_clean (U : UnicodeDB) (s : pystr) :
  Forall (clean_entry U 44) (_csv U (SetStr s)).
Proof. apply csv_entries_clean_aux. Qed.

Lemma csv_reads_joined_aux (U : UnicodeDB) (l : list pystr) :
  Forall (clean_entry U 44) l -> _csv U (SetStr (join [44%N] l)) = l.
Proof.
  intros Hl. unfold _csv. destruct l as [|w l]; [reflexivity|].
  rewrite split_char_join; [|discriminate|].
  - assert (H : forall es, Forall (clean_entry U 44) es ->
                 map (strip_ws U) (filter (fun x => truthy (strip_ws U x)) es) = es).
    { induction 1 as [|e es (Hne & _ & Hs) Hes IH]; [reflexivity|].
      simpl. rewrite (stripped_strip_ws Hs).
      destruct e; [congruence|]. simpl. rewrite (stripped_strip_ws Hs).
      now rewrite IH. }
    now apply H.
  - apply Forall_forall. intros e He. rewrite Forall_forall in Hl.
    now destruct (Hl e He) as (_ & Hc & _).
Qed.

(** X15: [_csv] reads back what was written: a list of clean entries joined
    with commas is read as that list. *)
Theorem csv_reads_joined (U : UnicodeDB) (l : list pystr) :
  Forall (clean_entry U 44) l -> _csv U (SetStr (join [44%N] l)) = l.
Proof. apply csv_reads_joined_aux. Qed.

Lemma csv_reads_joined_witness :
  _csv Fragment.db (SetStr (join [44%N] [lit "/data/books"; lit "/mnt/audio books"]))
    = [lit "/data/books"; lit "/mnt/audio books"].
Proof.
  apply csv_reads_joined.
  repeat constructor; try discriminate; vm_compute; intuition discriminate.
Defined.

Example csv_run :
  _csv Fragment.db (SetStr (lit " m4b, mp3 ,, ,flac")) = [lit "m4b"; lit "mp3"; lit "flac"].
Proof. vm_compute. reflexivity. Qed.

Lemma split1_cut (c : N) (s : pystr) :
  In c s -> exists a b, split1 c s = [a; b] /\ s = a ++ c :: b /\ ~ In c a.
Proof.
  induction s as [|d s IH]; intros H; [destruct H|]. simpl.
  destruct (N.eqb d c) eqn:E.
  - apply N.eqb_eq in E. subst d. exists [], s. repeat split. tauto.
  - apply N.eqb_neq in E. destruct H as [-> | H]; [congruence|].
    destruct (IH H) as (a & b & -> & -> & Ha). exists (d :: a), b.
    repeat split. intros [Hd | Hin]; [congruence | contradiction].
Qed.

Lemma split1_written (c : N) (a b : pystr) :
  ~ In c a -> split1 c (a ++ c :: b) = [a; b].
Proof.
  induction a as [|d a IH]; intros H; simpl.
  - now rewrite N.eqb_refl.
  - replace (N.eqb d c) with false
      by (symmetry; apply N.eqb_neq; intros ->; apply H; now left).
    rewrite IH; [reflexivity|]. intros Hc. apply H. now right.
Qed.

Lemma contains_In (c : N) (s : pystr) : contains [c] s = true <-> In c s.
Proof.
  induction s as [|d s IH]; simpl.
  - split; [discriminate | tauto].
  - rewrite orb_true_iff, IH. destruct s; simpl;
      rewrite andb_true_r, N.eqb_eq; split; intros [H | H]; auto.
Qed.


Lemma lstrip_ws_length (U : UnicodeDB) (s : pystr) : length (lstrip_ws U s) <= length s.
Proof.
  induction s as [|c s IH]; simpl; [lia|]. destruct (isspace U c); simpl; lia.
Qed.

Lemma lstrip_ws_fixed_app (U : UnicodeDB) (s rest : pystr) :
  s <> [] -> lstrip_ws U s = s -> lstrip_ws U (s ++ rest) = s ++ rest.
Proof.
  intros Hne H. destruct s as [|c t]; [congruence|]. simpl in *.
  destruct (isspace U c); [|reflexivity].
  pose proof (lstrip_ws_length U t) as Hlen. rewrite H in Hlen. simpl in Hlen. lia.
Qed.

Lemma written_pair_clean (U : UnicodeDB) (laws : UnicodeLaws U) (kv : pystr * pystr) :
  clean_pair U kv -> clean_entry U 44 (written_pair kv).
Proof.
  destruct kv as [k v]. unfold clean_pair, written_pair. simpl.
  intros (Heq & Hk & Hv & [Hk1 Hk2] & [Hv1 Hv2]).
  assert (Hsp : isspace U 61 = false) by now rewrite isspace_ascii.
  repeat split.
  - destruct k; discriminate.
  - intros Hin. apply in_app_or in Hin. destruct Hin as [Hin | [Hin | Hin]]; auto.
    discriminate.
  - destruct k as [|c t]; [simpl; now rewrite Hsp|].
    apply lstrip_ws_fixed_app; [discriminate | assumption].
  - rewrite rev_app_distr. simpl rev. rewrite <- app_assoc. simpl.
    destruct (rev v) as [|c t] eqn:Ev; [simpl; now rewrite Hsp|].
    apply lstrip_ws_fixed_app; [discriminate | assumption].
Qed.

(** X17: [_kv_csv] reads back what was written: clean pairs, each written
    [key=value], joined with commas, are read as those pairs. *)
Theorem kv_csv_reads_written (U : UnicodeDB) (laws : UnicodeLaws U)
  (l : list (pystr * pystr)) :
  Forall (clean_pair U) l ->
  _kv_csv U (SetStr (join [44%N] (map written_pair l))) = Some l.
Proof.
  intros Hl. unfold _kv_csv. rewrite csv_reads_joined_aux.
  - induction Hl as [|[k v] l (Heq & _ & _ & Hk & Hv) Hl IH]; [reflexivity|].
    cbn [fst snd] in *. cbn [map kv_loop]. unfold written_pair at 1 2. cbn [fst snd].
    replace (contains (lit "=") (k ++ 61%N :: v)) with true
      by (symmetry; apply (contains_In 61); apply in_or_app; right; now left).
    rewrite split1_written by assumption. rewrite IH.
    now rewrite (stripped_strip_ws Hk), (stripped_strip_ws Hv).
  - apply Forall_forall. intros e He. apply in_map_iff in He.
    destruct He as (kv & <- & Hkv). rewrite Forall_forall in Hl.
    apply written_pair_clean; auto.
Qed.

Lemma kv_csv_reads_written_witness :
  _kv_csv Fragment.db
    (SetStr (join [44%N] (map written_pair
                            [(lit "/audiobooks", lit "/mnt/nas/audio books");
                             (lit "/podcasts", lit "/mnt/nas/pod")])))
    = Some [(lit "/audiobooks", lit "/mnt/nas/audio books");
            (lit "/podcasts", lit "/mnt/nas/pod")].
Proof.
  apply (kv_csv_reads_written fragment_laws).
  repeat constructor; vm_compute; intuition discriminate.
Defined.

Example kv_csv_run :
  _kv_csv Fragment.db (SetStr (lit " /c/ = /h/a/ , junk, /d=/x=y"))
    = Some [(lit "/c/", lit "/h/a/"); (lit "/d", lit "/x=y")].
Proof. vm_compute. reflexivity. Qed.

(** ** Folder resolution *)

Lemma flat_map_nil (A B : Type) (f : A -> list B) (l : list A) :
  flat_map f l = [] <-> Forall (fun x => f x = []) l.
Proof.
  induction l as [|x l IH]; simpl.
  - split; [constructor | reflexivity].
  - split.
    + intros H. apply app_eq_nil in H. destruct H as [Hx Hl].
      constructor; [assumption | now apply IH].
    + intros H. inversion H as [|? ? Hx Hl]; subst. rewrite Hx. now apply IH.
Qed.

Lemma file_dirs_nil (OS : OsPath) (lf : LibraryFile) :
  file_dirs OS lf = [] <-> pathless lf.
Proof.
  unfold file_dirs, pathless, blank.
  set (md := or_default (lf_metadata lf) empty_file_metadata).
  destruct (or_else (lf_path lf) (md_path md)) as [[|c s]|];
    destruct (or_else (lf_relPath lf) (md_relPath md)) as [[|c' s']|]; simpl;
    split; try tauto; try discriminate; intros [? ?]; discriminate.
Qed.

(** X18: [_item_folder_from_files] finds no folder exactly when the item has
    no path of its own with a character that is not white space, and every
    audio file of the item is without [path] and [relPath], on the file and
    in its metadata. *)
Theorem item_folder_none_iff (U : UnicodeDB) (OS : OsPath) (it : Item) :
  _item_folder_from_files U OS it = None
  <-> match it_path it with
      | Some p => strip_truthy U p = false
      | None => True
      end
      /\ Forall (fun lf => is_audio_file U lf = true -> pathless lf)
                (or_default (it_libraryFiles it) []).
Proof.
  unfold _item_folder_from_files.
  assert (Hfiles :
            flat_map (fun lf => if is_audio_file U lf then file_dirs OS lf else [])
                     (or_default (it_libraryFiles it) []) = []
            <-> Forall (fun lf => is_audio_file U lf = true -> pathless lf)
                       (or_default (it_libraryFiles it) [])).
  { rewrite flat_map_nil. split; intros H; apply Forall_forall; intros lf Hlf;
      rewrite Forall_forall in H; specialize (H lf Hlf).
    - intros Ha. rewrite Ha in H. now apply (file_dirs_nil OS).
    - destruct (is_audio_file U lf); [|reflexivity]. now apply file_dirs_nil, H. }
  destruct (it_path it) as [p|].
  - destruct (strip_truthy U p).
    + split; [discriminate | intros [H _]; discriminate].
    + rewrite <- Hfiles.
      destruct (flat_map _ _) as [|first rest].
      * tauto.
      * split; [destruct (commonpath OS _); discriminate | intros [_ H]; discriminate].
  - rewrite <- Hfiles.
    destruct (flat_map _ _) as [|first rest].
    + tauto.
    + split; [destruct (commonpath OS _); discriminate | intros [_ H]; discriminate].
Qed.

(** ** Tag counts *)

Section TagCounts.

Variable opts : Options.

Lemma tag_fold_counts (keeper_id : pystr) (items : list Item)
  (acc : Entry * list (pystr * list pystr)) :
  let e' := fst (fold_left (fun acc it => tag_step opts keeper_id it acc) items acc) in
  e_keeper_id e' = e_keeper_id (fst acc)
  /\ e_tally e' tag_added
     = e_tally (fst acc) tag_added
       + length (filter (fun it => tag_wanted opts keeper_id it
                                   && negb (has_marker opts it)) items)
  /\ e_tally e' tag_skipped
     = e_tally (fst acc) tag_skipped
       + length (filter (fun it => tag_wanted opts keeper_id it
                                   && has_marker opts it) items).
Proof.
  revert acc. induction items as [|it items IH]; intros acc; simpl.
  - repeat split; lia.
  - destruct (IH (tag_step opts keeper_id it acc)) as (Hk & Ha & Hs).
    rewrite Hk, Ha, Hs. clear IH Hk Ha Hs.
    destruct acc as [e p]. unfold tag_step, tag_wanted, has_marker.
    destruct (opt_tag_all opts); simpl.
    + destruct (existsb (str_eqb (opt_tag opts)) (current_tags it)); simpl;
        repeat split; lia.
    + destruct (str_eqb (it_id it) keeper_id); simpl; [repeat split; lia|].
      destruct (existsb (str_eqb (opt_tag opts)) (current_tags it)); simpl;
        repeat split; lia.
Qed.

Lemma group_step_tag_report (U : UnicodeDB) (kg : pystr * list Item) (s : Scan) :
  Forall (tag_report_exact opts) (dup_sets s) ->
  Forall (tag_report_exact opts) (dup_sets (final (group_step U opts kg s))).
Proof.
  intros Hd. unfold group_step.
  destruct (Nat.leb (length (snd kg)) 1); [assumption|].
  destruct (choose_keeper (snd kg)) as [keeper|] eqn:Ek; [|assumption].
  destruct (_make_entry U opts (snd kg) (it_id keeper)) as [entry|] eqn:Ee; [|assumption].
  pose proof (tag_fold_counts (it_id keeper) (snd kg) (entry, pending_tag_updates s))
    as (Hk & Ha & Hs).
  destruct (fold_left _ (snd kg) _) as [e p]. simpl in *.
  apply Forall_app. split; [assumption|]. constructor; [|constructor].
  exists keeper. simpl. unfold _make_entry in Ee.
  destruct (snd kg) as [|first rest]; [discriminate|].
  destruct (dominant_formats U (first :: rest)); [|discriminate].
  injection Ee as <-. simpl in *. repeat split; assumption.
Qed.

Lemma scan_tag_report (U : UnicodeDB) (libraries : list (option (list Item))) (r : Run) :
  Forall (tag_report_exact opts)
         (dup_sets (final (for_each (library_step U opts) libraries
                             {| dup_sets := []; pending_tag_updates := []; run := r |}))).
Proof.
  apply (for_each_invariant (fun s => Forall (tag_report_exact opts) (dup_sets s)));
    [|constructor].
  intros fetched_items s Hs. unfold library_step.
  destruct fetched_items as [items|]; [|assumption].
  apply (for_each_invariant (fun s => Forall (tag_report_exact opts) (dup_sets s)));
    [|assumption].
  intros kg s'. apply group_step_tag_report.
Qed.

Variable U : UnicodeDB.
Variable OS : OsPath.
Variable W : World.

Lemma file_step_same_tagging (e0 : Entry) (it : Item) (s : Entry * Run) :
  same_tagging e0 (fst s) -> same_tagging e0 (fst (final (file_step U OS W opts it s))).
Proof.
  destruct s as [entry r]. intros H. unfold file_step.
  destruct (negb (truthy _)); [exact H|].
  destruct (str_eqb (opt_delete_files opts) (lit "off")); [exact H|].
  destruct (negb (_is_within_roots OS _ (opt_allow_roots opts))).
  { destruct (Nat.ltb _ 2); exact H. }
  destruct (opt_apply opts).
  - destruct (str_eqb (opt_delete_files opts) (lit "trash")).
    + unfold _move_to_trash.
      destruct (move_to_trash_result W _ _ _ _) as [[ok dest]|]; exact H.
    + destruct (str_eqb (opt_delete_files opts) (lit "remove")); exact H.
  - destruct (str_eqb (opt_delete_files opts) (lit "trash")); [exact H|].
    destruct (str_eqb (opt_delete_files opts) (lit "remove")); exact H.
Qed.

Lemma catalog_step_same_tagging (e0 : Entry) (it : Item) (s : Entry * Run) :
  same_tagging e0 (fst s) -> same_tagging e0 (fst (final (catalog_step W opts it s))).
Proof.
  destruct s as [entry r]. intros H. unfold catalog_step.
  destruct (opt_apply opts); [|exact H].
  unfold delete_item_from_abs. destruct (delete_item_result W _ _); exact H.
Qed.

Lemma reconcile_tags_same_tagging (e0 : Entry) (keeper : Item) (s : Entry * Run) :
  same_tagging e0 (fst s) ->
  same_tagging e0 (fst (final (reconcile_tags W opts keeper s))).
Proof.
  destruct s as [entry r]. intros H. unfold reconcile_tags.
  destruct (opt_clean_tags_after_prune opts && opt_assume_yes opts); [|exact H].
  destruct (opt_apply opts); [|exact H].
  destruct (batch_update_tags W _ r); exact H.
Qed.

Lemma prune_group_same_tagging (group : list Item) (entry : Entry) (r : Run) :
  same_tagging entry (fst (final (prune_group U OS W opts group entry r))).
Proof.
  assert (Hrefl : same_tagging entry entry) by (repeat split).
  unfold prune_group.
  destruct (classify U group []) as [by_fmt|]; [|exact Hrefl].
  match goal with
  | |- context [match ?c with Some _ => _ | None => _ end] => destruct c as [[chosen rest]|]
  end; [|exact Hrefl].
  destruct (dict_get chosen by_fmt) as [|k0 ks]; [exact Hrefl|].
  destruct (choose_keeper (k0 :: ks)) as [keeper|]; [|exact Hrefl].
  apply (and_then_invariant (fun s => same_tagging entry (fst s))).
  - apply (for_each_invariant (fun s => same_tagging entry (fst s))); [|exact Hrefl].
    intros x s. apply file_step_same_tagging.
  - intros s Hs. apply (and_then_invariant (fun s => same_tagging entry (fst s))).
    + apply (for_each_invariant (fun s => same_tagging entry (fst s))); [|assumption].
      intros x s'. apply catalog_step_same_tagging.
    + intros s' Hs'. now apply reconcile_tags_same_tagging.
Qed.

Lemma prune_loop_tag_report (sets : list (list Item * Entry)) (r : Run) :
  Forall (tag_report_exact opts) sets ->
  Forall (tag_report_exact opts) (fst (final (prune_loop U OS W opts sets r))).
Proof.
  intros Hsets. revert r.
  induction Hsets as [|[group entry] rest Hge Hrest IH]; intros r; simpl.
  - constructor.
  - pose proof (prune_group_same_tagging group entry r) as (Hk & Ha & Hs).
    assert (Hge' : forall e',
               e_keeper_id e' = e_keeper_id entry ->
               e_tally e' tag_added = e_tally entry tag_added ->
               e_tally e' tag_skipped = e_tally entry tag_skipped ->
               tag_report_exact opts (group, e')).
    { intros e' H1 H2 H3. destruct Hge as (keeper & Hkeep & Hid & Hadd & Hskip).
      exists keeper. simpl in *. repeat split; congruence. }
    destruct (prune_group U OS W opts group entry r) as [[e r'] | [e r']]; simpl in *.
    + specialize (IH r').
      destruct (prune_loop U OS W opts rest r') as [[d r''] | [d r'']]; simpl in *;
        constructor; auto.
    + constructor; auto.
Qed.

End TagCounts.

(** X19: in the report of a run, the entry of every duplicate group names the
    item [choose_keeper] selects from the whole group, counts as tagged
    exactly the items the tagging loop looks at (all but those with the
    keeper's id, or all with [tag_all]) that did not carry the marker tag,
    and as skipped exactly those that carried it; pruning does not change
    these counts. *)
Theorem main_tag_report_exact (U : UnicodeDB) (OS : OsPath) (W : World)
  (opts : Options) (libraries : list (option (list Item))) (inputs : list pystr) :
  Forall (tag_report_exact opts) (fst (final (main U OS W opts libraries inputs))).
Proof.
  unfold main.
  match goal with
  | |- context [for_each (library_step U opts) libraries
                  {| dup_sets := []; pending_tag_updates := []; run := ?r |}] =>
      pose proof (scan_tag_report opts U libraries r) as Hscan
  end.
  destruct (for_each (library_step U opts) libraries _) as [s | s]; simpl in *.
  - destruct (if opt_apply opts
              then batch_update_tags W (pending_tag_updates s) (run s)
              else Completed (run s)) as [r | r]; simpl; [|assumption].
    unfold prune_phase. destruct (opt_prune opts); simpl; [|assumption].
    now apply prune_loop_tag_report.
  - assumption.
Qed.

(** ** Chosen libraries *)

Lemma dict_set_keys (V : Type) (k : pystr) (v : V) (d : list (pystr * V)) :
  NoDup (map fst d) ->
  NoDup (map fst (dict_set k v d))
  /\ (forall k', In k' (map fst (dict_set k v d)) <-> k' = k \/ In k' (map fst d)).
Proof.
  induction d as [|[k0 v0] d IH]; simpl; intros Hd.
  - split; [repeat constructor; intros [] | intros k'; split; intros [H | H]; auto].
  - inversion Hd as [|? ? Hk0 Hd']; subst.
    destruct (str_eqb k k0) eqn:E; simpl.
    + apply str_eqb_eq in E. subst k0. split; [assumption|].
      intros k'. split; [tauto | intros [-> | H]; tauto].
    + destruct (IH Hd') as [Hnd Hin]. split.
      * constructor; [|assumption]. rewrite Hin. intros [-> | Hc]; [|contradiction].
        rewrite str_eqb_refl in E. discriminate.
      * intros k'. rewrite Hin. tauto.
Qed.

Lemma dict_set_values (V : Type) (P : pystr * V -> Prop) (k : pystr) (v : V)
  (d : list (pystr * V)) :
  P (k, v) -> Forall P d -> Forall P (dict_set k v d).
Proof.
  intros Hkv. induction 1 as [|[k0 v0] d Hk0 Hd IH]; simpl.
  - now repeat constructor.
  - destruct (str_eqb k k0) eqn:E.
    + apply str_eqb_eq in E. subst k0. now constructor.
    + now constructor.
Qed.

Lemma fold_dict_set (P : pystr * Library -> Prop) (keep : Library -> bool)
  (libs : list Library) (d : list (pystr * Library)) :
  (forall l, In l libs -> keep l = true -> P (lib_id l, l)) ->
  NoDup (map fst d) -> Forall P d ->
  let d' := fold_left
              (fun chosen lib => if keep lib then dict_set (lib_id lib) lib chosen else chosen)
              libs d in
  NoDup (map fst d') /\ Forall P d'
  /\ (forall l, In l libs -> keep l = true -> In (lib_id l) (map fst d')).
Proof.
  revert d. induction libs as [|l libs IH]; intros d HP Hnd Hd; simpl.
  - repeat split; [assumption | assumption | intros l []].
  - assert (HP' : forall l0, In l0 libs -> keep l0 = true -> P (lib_id l0, l0))
      by (intros; apply HP; [now right | assumption]).
    destruct (keep l) eqn:Ek.
    + destruct (@dict_set_keys _ (lib_id l) l d Hnd) as [Hnd' Hin'].
      destruct (IH (dict_set (lib_id l) l d) HP' Hnd'
                  (@dict_set_values _ P (lib_id l) l d (HP l (or_introl eq_refl) Ek) Hd))
        as (H1 & H2 & H3).
      repeat split; [assumption | assumption|].
      intros l0 [<- | Hl0] Hk0; [|now apply H3].
      assert (Hmono : forall ls d0 k,
                 In k (map fst d0) ->
                 In k (map fst (fold_left
                          (fun chosen lib =>
                             if keep lib then dict_set (lib_id lib) lib chosen else chosen)
                          ls d0))).
      { induction ls as [|x ls IHls]; intros d0 k Hk; simpl; [assumption|].
        apply IHls. destruct (keep x); [|assumption].
        clear -Hk. induction d0 as [|[k0 v0] d0 IHd]; simpl in *; [destruct Hk|].
        destruct (str_eqb (lib_id x) k0); simpl in *; tauto. }
      apply Hmono. apply Hin'. now left.
    + destruct (IH d HP' Hnd Hd) as (H1 & H2 & H3).
      repeat split; [assumption | assumption|].
      intros l0 [<- | Hl0] Hk0; [congruence | now apply H3].
Qed.

Lemma by_id_as_fold (libs : list Library) :
  by_id libs
  = fold_left (fun chosen lib => if true then dict_set (lib_id lib) lib chosen else chosen)
              libs [].
Proof. reflexivity. Qed.

(** X20: [select_libraries] returns only book libraries of the listing, each
    under its own identifier and no identifier twice.  With explicit
    identifiers it returns only libraries so identified, whatever the wish
    list says; without them, an empty wish list or one that holds [ALL] in
    any case selects every book library. *)
Theorem select_libraries_books (M : Matching) (all_libs : list Library)
  (wish by_ids : list pystr) :
  NoDup (map fst (select_libraries M all_libs wish by_ids))
  /\ Forall (chosen_book all_libs) (select_libraries M all_libs wish by_ids)
  /\ (by_ids <> [] ->
      forall k, In k (map fst (select_libraries M all_libs wish by_ids)) -> In k by_ids)
  /\ (by_ids = [] ->
      wish = [] \/ (exists w, In w wish /\ upper M w = lit "ALL") ->
      forall l, In l all_libs -> is_book_library l = true ->
        In (lib_id l) (map fst (select_libraries M all_libs wish by_ids))).
Proof.
  assert (Hbook : forall keep l,
             In l (filter is_book_library all_libs) -> keep l = true ->
             chosen_book all_libs (lib_id l, l)).
  { intros keep l Hl _. apply filter_In in Hl. destruct Hl. now repeat split. }
  unfold select_libraries. destruct by_ids as [|i ids].
  - match goal with
    | |- context [if ?b then _ else _] => destruct b eqn:Eall
    end.
    + rewrite by_id_as_fold.
      destruct (@fold_dict_set (chosen_book all_libs) (fun _ => true)
                  (filter is_book_library all_libs) [] (Hbook _)
                  (NoDup_nil _) (Forall_nil _)) as (H1 & H2 & H3).
      split; [exact H1|]. split; [exact H2|]. split; [congruence|].
      intros _ _ l Hl Hb. apply H3; [|reflexivity]. apply filter_In. now split.
    + destruct (@fold_dict_set (chosen_book all_libs)
                  (fun lib => existsb (fun w => str_eqb (lib_id lib) w
                                                || fnmatch M (or_default (lib_name lib) []) w)
                                      wish)
                  (filter is_book_library all_libs) [] (Hbook _)
                  (NoDup_nil _) (Forall_nil _)) as (H1 & H2 & H3).
      split; [exact H1|]. split; [exact H2|]. split; [congruence|].
      intros _ Hwish. exfalso. apply orb_false_elim in Eall. destruct Eall as [Ew Ea].
      destruct Hwish as [-> | (w & Hw & Hup)]; [discriminate|].
      assert (Hc : existsb (fun w => str_eqb (upper M w) (lit "ALL")) wish = true).
      { apply existsb_exists. exists w. split; [assumption|]. now apply str_eqb_eq. }
      congruence.
  - rewrite by_id_as_fold.
    destruct (@fold_dict_set
                (fun kl => chosen_book all_libs kl /\ In (fst kl) (i :: ids))
                (fun _ => true)
                (filter (fun l => existsb (str_eqb (lib_id l)) (i :: ids))
                        (filter is_book_library all_libs)) [])
      as (H1 & H2 & H3).
    + intros l Hl _. apply filter_In in Hl. destruct Hl as [Hl Hid]. split.
      * now apply (Hbook (fun _ => true)).
      * apply existsb_exists in Hid. destruct Hid as (x & Hx & E).
        apply str_eqb_eq in E. simpl fst. now rewrite E.
    + constructor.
    + constructor.
    + split; [exact H1|]. split.
      * apply Forall_forall. intros kl Hkl. rewrite Forall_forall in H2.
        now destruct (H2 kl Hkl).
      * split; [|discriminate]. intros _ k Hk. apply in_map_iff in Hk.
        destruct Hk as (kl & <- & Hkl). rewrite Forall_forall in H2.
        now destruct (H2 kl Hkl).
Qed.

(** ** Counters and report entries *)

Section StepFacts.

Variable U : UnicodeDB.
Variable OS : OsPath.
Variable W : World.
Variable opts : Options.

Lemma file_step_in_step (r0 : Run) (e0 : Entry) (it : Item) (s : Entry * Run) :
  in_step (opt_apply opts) r0 e0 s ->
  in_step (opt_apply opts) r0 e0 (final (file_step U OS W opts it s)).
Proof.
  destruct s as [entry r]. unfold in_step. simpl. unfold bump. intros [Hs Ha]. unfold file_step.
  destruct (negb (truthy _)); [unfold bump; simpl; tauto|].
  destruct (str_eqb (opt_delete_files opts) (lit "off")); [unfold bump; simpl; tauto|].
  destruct (negb (_is_within_roots OS _ (opt_allow_roots opts))).
  { destruct (Nat.ltb _ 2); unfold bump; simpl; (split; [lia | exact Ha]). }
  destruct (opt_apply opts).
  - specialize (Ha eq_refl).
    destruct (str_eqb (opt_delete_files opts) (lit "trash")).
    + unfold _move_to_trash.
      destruct (move_to_trash_result W _ _ _ _) as [[[] dest]|]; unfold bump; simpl;
        (split; [lia | intros _; lia]).
    + destruct (str_eqb (opt_delete_files opts) (lit "remove"));
        [|unfold bump; simpl; split; [lia | intros _; lia]].
      unfold _remove_path. destruct (remove_path_result W _ _); unfold bump; simpl;
        (split; [lia | intros _; lia]).
  - destruct (str_eqb (opt_delete_files opts) (lit "trash"));
      [unfold bump; simpl; split; [lia | discriminate]|].
    destruct (str_eqb (opt_delete_files opts) (lit "remove")); unfold bump; simpl;
      (split; [lia | discriminate]).
Qed.

Lemma catalog_step_in_step (r0 : Run) (e0 : Entry) (it : Item) (s : Entry * Run) :
  in_step (opt_apply opts) r0 e0 s ->
  in_step (opt_apply opts) r0 e0 (final (catalog_step W opts it s)).
Proof.
  destruct s as [entry r]. unfold in_step. simpl. unfold bump. intros [Hs Ha]. unfold catalog_step.
  destruct (opt_apply opts); [|unfold bump; simpl; split; [lia | discriminate]].
  specialize (Ha eq_refl). unfold delete_item_from_abs.
  destruct (delete_item_result W _ _) as [[]|]; unfold bump; simpl; (split; [lia | intros _; lia]).
Qed.

Lemma batch_update_tags_stats (updates : list (pystr * list pystr)) (r : Run) :
  stats (final (batch_update_tags W updates r)) = stats r.
Proof.
  unfold batch_update_tags. destruct updates as [|u updates]; [reflexivity|].
  apply (for_each_invariant (fun r' => stats r' = stats r)); [|reflexivity].
  intros chunk r' Hr'. unfold post_chunk.
  destruct (batch_update_result W (calls r') chunk); exact Hr'.
Qed.

Lemma reconcile_tags_in_step (r0 : Run) (e0 : Entry) (keeper : Item) (s : Entry * Run) :
  in_step (opt_apply opts) r0 e0 s ->
  in_step (opt_apply opts) r0 e0 (final (reconcile_tags W opts keeper s)).
Proof.
  destruct s as [entry r]. intros H. unfold reconcile_tags.
  destruct (opt_clean_tags_after_prune opts && opt_assume_yes opts); [|exact H].
  destruct (opt_apply opts) eqn:Ea.
  - match goal with
    | |- context [batch_update_tags W ?ups r] =>
        pose proof (batch_update_tags_stats ups r) as Hst;
        destruct (batch_update_tags W ups r) as [r' | r']
    end; simpl in Hst; unfold in_step in *; simpl in *; rewrite ?Hst; exact H.
  - exact H.
Qed.

Lemma prune_group_in_step (group : list Item) (entry : Entry) (r : Run) :
  in_step (opt_apply opts) r entry (final (prune_group U OS W opts group entry r)).
Proof.
  assert (Hrefl : forall e', e_tally e' = e_tally entry ->
                             in_step (opt_apply opts) r entry (e', r)).
  { intros e' He. unfold in_step. simpl. rewrite He. split; [lia | intros _; lia]. }
  unfold prune_group.
  destruct (classify U group []) as [by_fmt|]; [|now apply Hrefl].
  match goal with
  | |- context [match ?c with Some _ => _ | None => _ end] => destruct c as [[chosen rest]|]
  end; [|now apply Hrefl].
  destruct (dict_get chosen by_fmt) as [|k0 ks]; [now apply Hrefl|].
  destruct (choose_keeper (k0 :: ks)) as [keeper|]; [|now apply Hrefl].
  apply (and_then_invariant (in_step (opt_apply opts) r entry)).
  - apply (for_each_invariant (in_step (opt_apply opts) r entry)).
    + intros x s. apply file_step_in_step.
    + unfold in_step, bump. simpl. split; [lia | intros _; lia].
  - intros s Hs. apply (and_then_invariant (in_step (opt_apply opts) r entry)).
    + apply (for_each_invariant (in_step (opt_apply opts) r entry)); [|assumption].
      intros x s'. apply catalog_step_in_step.
    + intros s' Hs'. now apply reconcile_tags_in_step.
Qed.

Lemma unpruned_totals (sets : list (list Item * Entry)) :
  Forall (fun ge => fst ge <> [] /\ unpruned (snd ge)) sets ->
  total file_skipped sets = 0 /\ total file_moved sets = 0
  /\ total file_deleted sets = 0 /\ total entry_abs_deleted sets = 0.
Proof.
  unfold total. induction 1 as [|[g e] sets [_ (Hc & Hf & Hd)] Hsets IH]; simpl.
  - repeat split.
  - unfold file_tally in Hf. simpl in *. lia.
Qed.

Lemma prune_loop_counters (sets : list (list Item * Entry)) (r : Run) :
  Forall (fun ge => fst ge <> [] /\ unpruned (snd ge)) sets ->
  let o := final (prune_loop U OS W opts sets r) in
  stats (snd o) files_skipped_outside_roots
    = stats r files_skipped_outside_roots + total file_skipped (fst o)
  /\ (opt_apply opts = true ->
      stats (snd o) files_moved = stats r files_moved + total file_moved (fst o)
      /\ stats (snd o) files_deleted = stats r files_deleted + total file_deleted (fst o)
      /\ stats (snd o) abs_deleted
         = stats r abs_deleted + total entry_abs_deleted (fst o)).
Proof.
  intros Hsets. revert r.
  induction Hsets as [|[group entry] rest [Hne Hu] Hrest IH]; intros r; simpl.
  - unfold total. simpl. split; [lia | intros _; lia].
  - pose proof (prune_group_in_step group entry r) as [Hs Ha].
    destruct Hu as (Hc & Hf & Hd). unfold file_tally in Hf. simpl in Hc, Hf, Hd.
    destruct (prune_group U OS W opts group entry r) as [[e r'] | [e r']]; simpl in *.
    + destruct (IH r') as [IHs IHa].
      destruct (prune_loop U OS W opts rest r') as [[d r''] | [d r'']];
        unfold total in *; simpl in *;
        (split; [lia | intros Happly; specialize (Ha Happly); specialize (IHa Happly); lia]).
    + destruct (unpruned_totals Hrest) as (T1 & T2 & T3 & T4).
      unfold total in *. simpl.
      split; [lia | intros Happly; specialize (Ha Happly); lia].
Qed.

Lemma scan_prune_stats (libraries : list (option (list Item))) (s0 : Scan) :
  let s := final (for_each (library_step U opts) libraries s0) in
  stats (run s) files_skipped_outside_roots = stats (run s0) files_skipped_outside_roots
  /\ stats (run s) files_moved = stats (run s0) files_moved
  /\ stats (run s) files_deleted = stats (run s0) files_deleted
  /\ stats (run s) abs_deleted = stats (run s0) abs_deleted.
Proof.
  apply (for_each_invariant
           (fun s =>
              stats (run s) files_skipped_outside_roots
                = stats (run s0) files_skipped_outside_roots
              /\ stats (run s) files_moved = stats (run s0) files_moved
              /\ stats (run s) files_deleted = stats (run s0) files_deleted
              /\ stats (run s) abs_deleted = stats (run s0) abs_deleted));
    [|repeat split].
  intros fetched_items s Hs. unfold library_step.
  destruct fetched_items as [items|]; [|exact Hs].
  apply (for_each_invariant
           (fun s =>
              stats (run s) files_skipped_outside_roots
                = stats (run s0) files_skipped_outside_roots
              /\ stats (run s) files_moved = stats (run s0) files_moved
              /\ stats (run s) files_deleted = stats (run s0) files_deleted
              /\ stats (run s) abs_deleted = stats (run s0) abs_deleted));
    [|exact Hs].
  intros kg s' Hs'. unfold group_step.
  destruct (Nat.leb (length (snd kg)) 1); [exact Hs'|].
  destruct (choose_keeper (snd kg)) as [keeper|]; [|exact Hs'].
  destruct (_make_entry U opts (snd kg) (it_id keeper)) as [entry|]; [|exact Hs'].
  destruct (fold_left _ (snd kg) _). exact Hs'.
Qed.

End StepFacts.

(** X21: at the end of a run the counter of files skipped as outside the
    allow-roots equals the sum of the skipped files over the report entries;
    in a run that applies, so do the counters of moved files, of deleted
    files and of deleted catalog entries. *)
Theorem main_counters_match_report (U : UnicodeDB) (OS : OsPath) (W : World)
  (opts : Options) (libraries : list (option (list Item))) (inputs : list pystr) :
  counters_match (opt_apply opts) (final (main U OS W opts libraries inputs)).
Proof.
  unfold main.
  match goal with
  | |- context [for_each (library_step U opts) libraries ?start] =>
      pose proof (scan_prune_stats U opts libraries start) as (S1 & S2 & S3 & S4);
      pose proof (scan_unpruned U opts libraries (run start)) as Hun
  end.
  unfold bump, no_stats in S1, S2, S3, S4. simpl in S1, S2, S3, S4, Hun.
  assert (Hidle : forall sets r,
             Forall (fun ge => fst ge <> [] /\ unpruned (snd ge)) sets ->
             stats r files_skipped_outside_roots = 0 -> stats r files_moved = 0 ->
             stats r files_deleted = 0 -> stats r abs_deleted = 0 ->
             counters_match (opt_apply opts) (sets, r)).
  { intros sets r Hs H1 H2 H3 H4. destruct (unpruned_totals Hs) as (T1 & T2 & T3 & T4).
    unfold counters_match. simpl. split; [lia | intros _; lia]. }
  destruct (for_each (library_step U opts) libraries _) as [s | s]; simpl in *.
  - assert (Htag : stats (final (if opt_apply opts
                                 then batch_update_tags W (pending_tag_updates s) (run s)
                                 else Completed (run s))) = stats (run s)).
    { destruct (opt_apply opts); [apply batch_update_tags_stats | reflexivity]. }
    destruct (if opt_apply opts
              then batch_update_tags W (pending_tag_updates s) (run s)
              else Completed (run s)) as [r | r]; simpl in Htag |- *.
    + unfold prune_phase. destruct (opt_prune opts).
      * pose proof (prune_loop_counters U OS W opts r Hun) as [Hs Ha].
        rewrite Htag in Hs, Ha. unfold counters_match.
        split; [lia | intros Happly; specialize (Ha Happly); lia].
      * simpl. apply Hidle; try assumption; rewrite Htag; assumption.
    + apply Hidle; try assumption; rewrite Htag; assumption.
  - now apply Hidle.
Qed.

(** ** Skipped paths *)

Section SkippedFacts.

Variable U : UnicodeDB.
Variable OS : OsPath.
Variable W : World.
Variable opts : Options.

Lemma file_step_skipped (it : Item) (s : Entry * Run) :
  skipped_paths_bounded (fst s) ->
  skipped_paths_bounded (fst (final (file_step U OS W opts it s))).
Proof.
  destruct s as [entry r]. unfold skipped_paths_bounded. simpl. intros [H2 Hs].
  unfold file_step.
  destruct (negb (truthy _)); [simpl; lia|].
  destruct (str_eqb (opt_delete_files opts) (lit "off")); [simpl; lia|].
  destruct (negb (_is_within_roots OS _ (opt_allow_roots opts))).
  { simpl. destruct (Nat.ltb (length (e_skipped_paths entry)) 2) eqn:E; simpl.
    - apply Nat.ltb_lt in E. rewrite length_app. simpl. lia.
    - lia. }
  destruct (opt_apply opts).
  - destruct (str_eqb (opt_delete_files opts) (lit "trash")).
    + unfold _move_to_trash.
      destruct (move_to_trash_result W _ _ _ _) as [[ok dest]|]; simpl; lia.
    + destruct (str_eqb (opt_delete_files opts) (lit "remove")); simpl; lia.
  - destruct (str_eqb (opt_delete_files opts) (lit "trash")); [simpl; lia|].
    destruct (str_eqb (opt_delete_files opts) (lit "remove")); simpl; lia.
Qed.

Lemma catalog_step_skipped (it : Item) (s : Entry * Run) :
  skipped_paths_bounded (fst s) ->
  skipped_paths_bounded (fst (final (catalog_step W opts it s))).
Proof.
  destruct s as [entry r]. intros H. unfold catalog_step.
  destruct (opt_apply opts); [|exact H].
  unfold delete_item_from_abs. destruct (delete_item_result W _ _); exact H.
Qed.

Lemma reconcile_tags_skipped (keeper : Item) (s : Entry * Run) :
  skipped_paths_bounded (fst s) ->
  skipped_paths_bounded (fst (final (reconcile_tags W opts keeper s))).
Proof.
  destruct s as [entry r]. intros H. unfold reconcile_tags.
  destruct (opt_clean_tags_after_prune opts && opt_assume_yes opts); [|exact H].
  destruct (opt_apply opts); [|exact H].
  destruct (batch_update_tags W _ r); exact H.
Qed.

Lemma prune_group_skipped (group : list Item) (entry : Entry) (r : Run) :
  skipped_paths_bounded entry ->
  skipped_paths_bounded (fst (final (prune_group U OS W opts group entry r))).
Proof.
  intros He. unfold prune_group.
  destruct (classify U group []) as [by_fmt|]; [|exact He].
  match goal with
  | |- context [match ?c with Some _ => _ | None => _ end] => destruct c as [[chosen rest]|]
  end; [|exact He].
  destruct (dict_get chosen by_fmt) as [|k0 ks]; [exact He|].
  destruct (choose_keeper (k0 :: ks)) as [keeper|]; [|exact He].
  apply (and_then_invariant (fun s => skipped_paths_bounded (fst s))).
  - apply (for_each_invariant (fun s => skipped_paths_bounded (fst s))); [|exact He].
    intros x s. apply file_step_skipped.
  - intros s Hs. apply (and_then_invariant (fun s => skipped_paths_bounded (fst s))).
    + apply (for_each_invariant (fun s => skipped_paths_bounded (fst s))); [|assumption].
      intros x s'. apply catalog_step_skipped.
    + intros s' Hs'. now apply reconcile_tags_skipped.
Qed.

Lemma prune_loop_skipped (sets : list (list Item * Entry)) (r : Run) :
  Forall (fun ge => skipped_paths_bounded (snd ge)) sets ->
  Forall (fun ge => skipped_paths_bounded (snd ge))
         (fst (final (prune_loop U OS W opts sets r))).
Proof.
  intros Hsets. revert r.
  induction Hsets as [|[group entry] rest Hge Hrest IH]; intros r; simpl.
  - constructor.
  - pose proof (@prune_group_skipped group entry r Hge) as Hg.
    destruct (prune_group U OS W opts group entry r) as [[e r'] | [e r']]; simpl in *.
    + specialize (IH r').
      destruct (prune_loop U OS W opts rest r') as [[d r''] | [d r'']]; simpl in *;
        now constructor.
    + now constructor.
Qed.

Lemma scan_skipped (libraries : list (option (list Item))) (r : Run) :
  Forall (fun ge => skipped_paths_bounded (snd ge))
         (dup_sets (final (for_each (library_step U opts) libraries
                             {| dup_sets := []; pending_tag_updates := []; run := r |}))).
Proof.
  apply (for_each_invariant
           (fun s => Forall (fun ge => skipped_paths_bounded (snd ge)) (dup_sets s)));
    [|constructor].
  intros fetched_items s Hs. unfold library_step.
  destruct fetched_items as [items|]; [|assumption].
  apply (for_each_invariant
           (fun s => Forall (fun ge => skipped_paths_bounded (snd ge)) (dup_sets s)));
    [|assumption].
  intros kg s' Hd. unfold group_step.
  destruct (Nat.leb (length (snd kg)) 1); [assumption|].
  destruct (choose_keeper (snd kg)) as [keeper|]; [|assumption].
  destruct (_make_entry U opts (snd kg) (it_id keeper)) as [entry|] eqn:Ee; [|assumption].
  assert (Hfold : forall group acc,
             skipped_paths_bounded (fst acc) ->
             skipped_paths_bounded
               (fst (fold_left (fun acc it => tag_step opts (it_id keeper) it acc)
                               group acc))).
  { intros group. induction group as [|it group IH]; intros acc Ha; cbn [fold_left];
      [exact Ha|].
    apply IH. destruct acc as [e p]. unfold tag_step.
    destruct (negb (opt_tag_all opts) && str_eqb (it_id it) (it_id keeper)); [exact Ha|].
    destruct (negb (existsb _ _)); exact Ha. }
  specialize (Hfold (snd kg) (entry, pending_tag_updates s')).
  destruct (fold_left _ (snd kg) _) as [e p]. simpl in *.
  apply Forall_app. split; [assumption|]. constructor; [|constructor]. simpl.
  apply Hfold. unfold _make_entry in Ee.
  destruct (snd kg) as [|first rest]; [discriminate|].
  destruct (dominant_formats U (first :: rest)); [|discriminate].
  injection Ee as <-. unfold skipped_paths_bounded. simpl. lia.
Qed.

End SkippedFacts.

(** X22: a report entry never keeps more than two skipped paths, and never
    more than the number of files its group had skipped as outside the
    allow-roots. *)
Theorem main_skipped_paths_bounded (U : UnicodeDB) (OS : OsPath) (W : World)
  (opts : Options) (libraries : list (option (list Item))) (inputs : list pystr) :
  Forall (fun ge => skipped_paths_bounded (snd ge))
         (fst (final (main U OS W opts libraries inputs))).
Proof.
  unfold main.
  match goal with
  | |- context [for_each (library_step U opts) libraries
                  {| dup_sets := []; pending_tag_updates := []; run := ?r |}] =>
      pose proof (scan_skipped U opts libraries r) as Hscan
  end.
  destruct (for_each (library_step U opts) libraries _) as [s | s]; simpl in *.
  - destruct (if opt_apply opts
              then batch_update_tags W (pending_tag_updates s) (run s)
              else Completed (run s)) as [r | r]; simpl; [|assumption].
    unfold prune_phase. destruct (opt_prune opts); simpl; [|assumption].
    now apply prune_loop_skipped.
  - assumption.
Qed.

(** ** A simulated run predicts the real one *)

Lemma for_each_alike (A S1 S2 : Type) (R : S1 -> S2 -> Prop)
  (b1 : A -> S1 -> outcome S1) (b2 : A -> S2 -> outcome S2) (l : list A) :
  (forall x s1 s2, R s1 s2 -> alike R (b1 x s1) (b2 x s2)) ->
  forall s1 s2, R s1 s2 -> alike R (for_each b1 l s1) (for_each b2 l s2).
Proof.
  intros Hb. induction l as [|x l IH]; intros s1 s2 Hs; simpl; [exact Hs|].
  specialize (Hb x s1 s2 Hs).
  destruct (b1 x s1) as [s1' | s1'], (b2 x s2) as [s2' | s2']; simpl in Hb;
    try contradiction; [now apply IH | exact Hb].
Qed.

Lemma and_then_alike (S1 S2 : Type) (R : S1 -> S2 -> Prop)
  (o1 : outcome S1) (o2 : outcome S2) (k1 : S1 -> outcome S1) (k2 : S2 -> outcome S2) :
  alike R o1 o2 -> (forall s1 s2, R s1 s2 -> alike R (k1 s1) (k2 s2)) ->
  alike R (and_then o1 k1) (and_then o2 k2).
Proof.
  destruct o1, o2; simpl; try contradiction; auto.
Qed.

Lemma alike_final (S1 S2 : Type) (R : S1 -> S2 -> Prop)
  (o1 : outcome S1) (o2 : outcome S2) :
  alike R o1 o2 -> R (final o1) (final o2).
Proof. destruct o1, o2; simpl; tauto. Qed.

Section Prediction.

Variable U : UnicodeDB.
Variable OS : OsPath.
Variable W : World.
Variable opts : Options.
Hypothesis quiet : never_raises W.

Lemma predicts_step (rd rd' ra ra' : Run) (ls : list line) (cs : list call) :
  stdin rd' = stdin rd -> stdin ra' = stdin ra ->
  printed rd' = printed rd ++ ls -> calls ra' = calls ra ++ cs ->
  flat_map (intended opts) ls = filter (fun c => negb (is_tag_call c)) cs ->
  predicts opts rd ra -> predicts opts rd' ra'.
Proof.
  intros H1 H2 H3 H4 H5 [Hin Hc]. unfold predicts.
  rewrite H1, H2, H3, H4, flat_map_app, filter_app, Hc, H5. now split.
Qed.

Lemma file_step_predicts (it : Item) (sd sa : Entry * Run) :
  predicts opts (snd sd) (snd sa) ->
  alike (fun sd sa => predicts opts (snd sd) (snd sa))
        (file_step U OS W (set_apply false opts) it sd)
        (file_step U OS W (set_apply true opts) it sa).
Proof.
  destruct sd as [ed rd], sa as [ea ra]. simpl. intros H. unfold file_step.
  cbn [set_apply opt_apply opt_delete_files opt_allow_roots opt_path_map opt_trash_dir].
  destruct (negb (truthy _)).
  { simpl. refine (@predicts_step rd _ ra _ _ [] _ _ _ _ _ H); simpl; try reflexivity; now rewrite app_nil_r. }
  destruct (str_eqb (opt_delete_files opts) (lit "off")).
  { simpl. refine (@predicts_step rd _ ra _ _ [] _ _ _ _ _ H); simpl; try reflexivity; now rewrite app_nil_r. }
  destruct (negb (_is_within_roots OS _ (opt_allow_roots opts))).
  { simpl. refine (@predicts_step rd _ ra _ _ [] _ _ _ _ _ H); simpl; try reflexivity; now rewrite app_nil_r. }
  destruct (str_eqb (opt_delete_files opts) (lit "trash")).
  - unfold _move_to_trash. destruct quiet as (Hmove & _ & _).
    destruct (move_to_trash_result W (calls ra) _ _ _) as [[ok dest]|] eqn:Em.
    + simpl. refine (@predicts_step rd _ ra _ _ [_] _ _ _ _ _ H); simpl; reflexivity.
    + exfalso. exact (Hmove _ _ _ _ Em).
  - destruct (str_eqb (opt_delete_files opts) (lit "remove")).
    + simpl. refine (@predicts_step rd _ ra _ _ [_] _ _ _ _ _ H); simpl; reflexivity.
    + simpl. exact H.
Qed.

Lemma catalog_step_predicts (it : Item) (sd sa : Entry * Run) :
  predicts opts (snd sd) (snd sa) ->
  alike (fun sd sa => predicts opts (snd sd) (snd sa))
        (catalog_step W (set_apply false opts) it sd)
        (catalog_step W (set_apply true opts) it sa).
Proof.
  destruct sd as [ed rd], sa as [ea ra]. simpl. intros H. unfold catalog_step.
  cbn [set_apply opt_apply]. unfold delete_item_from_abs.
  destruct quiet as (_ & Hdel & _).
  destruct (delete_item_result W (calls ra) (it_id it)) as [ok|] eqn:Ed.
  - simpl. refine (@predicts_step rd _ ra _ _ [_] _ _ _ _ _ H); simpl; reflexivity.
  - exfalso. exact (Hdel _ _ Ed).
Qed.

Lemma post_chunks_complete (cs : list (list (pystr * list pystr))) (r : Run) :
  exists r',
    for_each (post_chunk W) cs r = Completed r'
    /\ stdin r' = stdin r
    /\ filter (fun c => negb (is_tag_call c)) (calls r')
       = filter (fun c => negb (is_tag_call c)) (calls r).
Proof.
  destruct quiet as (_ & _ & Hbatch).
  revert r. induction cs as [|c cs IH]; intros r; simpl.
  - now exists r.
  - unfold post_chunk at 1.
    destruct (batch_update_result W (calls r) c) eqn:Eb; [|exfalso; exact (Hbatch _ _ Eb)].
    destruct (IH (do_call (BatchUpdateTags c) r)) as (r' & -> & Hin & Hc).
    exists r'. split; [reflexivity|]. split; [exact Hin|].
    rewrite Hc. simpl. rewrite filter_app. simpl. now rewrite app_nil_r.
Qed.

Lemma batch_update_tags_complete (updates : list (pystr * list pystr)) (r : Run) :
  exists r',
    batch_update_tags W updates r = Completed r'
    /\ stdin r' = stdin r
    /\ filter (fun c => negb (is_tag_call c)) (calls r')
       = filter (fun c => negb (is_tag_call c)) (calls r).
Proof.
  unfold batch_update_tags. destruct updates as [|u updates]; [now exists r|].
  apply post_chunks_complete.
Qed.

Lemma reconcile_tags_predicts (keeper : Item) (sd sa : Entry * Run) :
  predicts opts (snd sd) (snd sa) ->
  alike (fun sd sa => predicts opts (snd sd) (snd sa))
        (reconcile_tags W (set_apply false opts) keeper sd)
        (reconcile_tags W (set_apply true opts) keeper sa).
Proof.
  destruct sd as [ed rd], sa as [ea ra]. simpl. intros [Hin Hc]. unfold reconcile_tags.
  change (opt_apply (set_apply true opts)) with true.
  change (opt_apply (set_apply false opts)) with false.
  change (opt_clean_tags_after_prune (set_apply true opts))
    with (opt_clean_tags_after_prune opts).
  change (opt_clean_tags_after_prune (set_apply false opts))
    with (opt_clean_tags_after_prune opts).
  change (opt_assume_yes (set_apply true opts)) with (opt_assume_yes opts).
  change (opt_assume_yes (set_apply false opts)) with (opt_assume_yes opts).
  change (opt_tag (set_apply true opts)) with (opt_tag opts).
  cbv beta iota zeta.
  destruct (opt_clean_tags_after_prune opts && opt_assume_yes opts);
    [|exact (conj Hin Hc)].
  unfold post_chunk. destruct quiet as (_ & _ & Hbatch).
  destruct (batch_update_result W (calls ra) _) eqn:Eb; [|exfalso; exact (Hbatch _ _ Eb)].
  simpl. unfold predicts. simpl. rewrite flat_map_app, filter_app. simpl.
  rewrite !app_nil_r. now split.
Qed.

Lemma prune_group_predicts (group : list Item) (ed ea : Entry) (rd ra : Run) :
  predicts opts rd ra ->
  alike (fun sd sa => predicts opts (snd sd) (snd sa))
        (prune_group U OS W (set_apply false opts) group ed rd)
        (prune_group U OS W (set_apply true opts) group ea ra).
Proof.
  intros H. pose proof H as [Hin Hc]. unfold prune_group.
  cbn [set_apply opt_preferred_formats opt_assume_yes].
  destruct (classify U group []) as [by_fmt|]; [|exact H].
  rewrite <- Hin.
  match goal with
  | |- context [match ?c with Some _ => _ | None => _ end] => destruct c as [[chosen rest]|]
  end; [|simpl; now split].
  assert (H' : predicts opts (with_stdin rest rd) (with_stdin rest ra))
    by (now split).
  destruct (dict_get chosen by_fmt) as [|k0 ks]; [exact H'|].
  destruct (choose_keeper (k0 :: ks)) as [keeper|]; [|exact H'].
  apply and_then_alike.
  - apply for_each_alike; [|exact H'].
    intros x s1 s2. apply file_step_predicts.
  - intros s1 s2 Hs. apply and_then_alike.
    + apply for_each_alike; [|exact Hs]. intros x s1' s2'. apply catalog_step_predicts.
    + intros s1' s2'. apply reconcile_tags_predicts.
Qed.

Lemma prune_loop_predicts (sd sa : list (list Item * Entry)) (rd ra : Run) :
  map fst sd = map fst sa -> predicts opts rd ra ->
  predicts opts (snd (final (prune_loop U OS W (set_apply false opts) sd rd)))
                (snd (final (prune_loop U OS W (set_apply true opts) sa ra))).
Proof.
  revert sa rd ra. induction sd as [|[g ed] sd IH]; intros [|[g' ea] sa] rd ra Hg H;
    try discriminate; simpl; [exact H|].
  simpl in Hg. injection Hg as <- Hg.
  pose proof (prune_group_predicts g ed ea H) as Hp.
  destruct (prune_group U OS W (set_apply false opts) g ed rd) as [[ed' rd'] | [ed' rd']],
           (prune_group U OS W (set_apply true opts) g ea ra) as [[ea' ra'] | [ea' ra']];
    simpl in Hp; try contradiction.
  - specialize (IH sa rd' ra' Hg Hp).
    destruct (prune_loop U OS W (set_apply false opts) sd rd') as [[dd rd''] | [dd rd'']],
             (prune_loop U OS W (set_apply true opts) sa ra') as [[da ra''] | [da ra'']];
      exact IH.
  - exact Hp.
Qed.

Lemma group_step_same_run (kg : pystr * list Item) (sd sa : Scan) :
  run sd = run sa /\ map fst (dup_sets sd) = map fst (dup_sets sa) ->
  alike (fun sd sa => run sd = run sa /\ map fst (dup_sets sd) = map fst (dup_sets sa))
        (group_step U (set_apply false opts) kg sd)
        (group_step U (set_apply true opts) kg sa).
Proof.
  intros [Hr Hd]. unfold group_step.
  destruct (Nat.leb (length (snd kg)) 1); [now split|].
  destruct (choose_keeper (snd kg)) as [keeper|]; [|simpl; rewrite Hr; now split].
  unfold _make_entry. destruct (snd kg) as [|first rest]; [simpl; rewrite Hr; now split|].
  destruct (dominant_formats U (first :: rest)); [|simpl; rewrite Hr; now split].
  destruct (fold_left _ (first :: rest) _) as [e1 p1].
  destruct (fold_left _ (first :: rest) _) as [e2 p2].
  simpl. rewrite Hr, !map_app, Hd. now split.
Qed.

Lemma scan_same_run (libraries : list (option (list Item))) (sd sa : Scan) :
  run sd = run sa /\ map fst (dup_sets sd) = map fst (dup_sets sa) ->
  alike (fun sd sa => run sd = run sa /\ map fst (dup_sets sd) = map fst (dup_sets sa))
        (for_each (library_step U (set_apply false opts)) libraries sd)
        (for_each (library_step U (set_apply true opts)) libraries sa).
Proof.
  intros H. apply for_each_alike; [|exact H]. clear H sd sa.
  intros fetched_items s1 s2 [Hr Hd]. unfold library_step.
  destruct fetched_items as [items|]; [|simpl; rewrite Hr; now split].
  cbn [set_apply opt_by opt_use_ignore_prefix opt_case_sensitive].
  apply for_each_alike; [|simpl; rewrite Hr; now split].
  intros kg s1' s2'. apply group_step_same_run.
Qed.

Lemma main_predicts (libraries : list (option (list Item))) (inputs : list pystr) :
  predicts opts
    (snd (final (main U OS W (set_apply false opts) libraries inputs)))
    (snd (final (main U OS W (set_apply true opts) libraries inputs))).
Proof.
  unfold main. cbn [set_apply opt_apply opt_prune].
  assert (Hw : allow_roots_warning (set_apply false opts)
               = allow_roots_warning (set_apply true opts)) by reflexivity.
  rewrite Hw.
  match goal with
  | |- context [for_each (library_step U (set_apply true opts)) libraries ?start] =>
      pose proof (@scan_same_run libraries start start (conj eq_refl eq_refl)) as Hscan;
      assert (Hstart : predicts opts (run start) (run start))
  end.
  { unfold predicts. simpl. split; [reflexivity|].
    unfold allow_roots_warning. destruct (_ && _); reflexivity. }
  assert (Hkeep : forall s : Scan, calls (run s) = [] -> True) by trivial.
  match goal with
  | |- context [for_each (library_step U (set_apply true opts)) libraries ?start] =>
      pose proof (scan_no_call U (set_apply true opts) libraries start) as Hcalls;
      pose proof (for_each_invariant
                    (fun s => stdin (run s) = stdin (run start)
                              /\ printed (run s) = printed (run start))
                    (library_step U (set_apply true opts))) as Hio
  end.
  match type of Hio with
  | ?A -> _ => assert (Hbody : A)
  end.
  { intros fetched_items s Hs. unfold library_step.
    destruct fetched_items as [items|]; [|exact Hs].
    apply (for_each_invariant
             (fun s' => stdin (run s') = stdin (run _) /\ printed (run s') = printed (run _)));
      [|exact Hs].
    intros kg s' Hs'. unfold group_step.
    destruct (Nat.leb (length (snd kg)) 1); [exact Hs'|].
    destruct (choose_keeper (snd kg)) as [keeper|]; [|exact Hs'].
    destruct (_make_entry U (set_apply true opts) (snd kg) (it_id keeper)); [|exact Hs'].
    destruct (fold_left _ (snd kg) _). exact Hs'. }
  specialize (Hio Hbody libraries _ (conj eq_refl eq_refl)). clear Hbody Hkeep.
  destruct (for_each (library_step U (set_apply false opts)) libraries _) as [sd | sd],
           (for_each (library_step U (set_apply true opts)) libraries _) as [sa | sa];
    simpl in Hscan; try contradiction; destruct Hscan as [Hr Hd];
    simpl in Hcalls, Hio; destruct Hio as [Hin Hpr].
  - assert (Hsa : predicts opts (run sd) (run sa)).
    { unfold predicts. rewrite Hr, Hcalls, Hpr. split; [reflexivity|].
      simpl. unfold allow_roots_warning. destruct (_ && _); reflexivity. }
    destruct (batch_update_tags_complete (pending_tag_updates sa) (run sa))
      as (ra & -> & Hin' & Hc').
    assert (Hra : predicts opts (run sd) ra).
    { destruct Hsa as [H1 H2]. unfold predicts. split; congruence. }
    unfold prune_phase. cbn [set_apply opt_prune]. destruct (opt_prune opts).
    + now apply prune_loop_predicts.
    + exact Hra.
  - simpl. unfold predicts. rewrite Hr, Hcalls, Hpr. split; [reflexivity|].
    simpl. unfold allow_roots_warning. destruct (_ && _); reflexivity.
Qed.

End Prediction.



